(** * The type checker of lang/check/type.go, embedded in Rocq

    The development follows the Go source function by function:
    [checkVars], [checkStatement], [checkAssign], [checkExpr] and its
    helpers, [setConstValueBinaryOp], [checkTypeExpr] and the
    [comparisonOps] table.  The abstract syntax tree ([lang/ast]) and the
    tokens ([lang/token]) are declared in other packages; they are modelled
    here as tagged unions whose tags are exactly the values the checker
    switches on.  The call of math/big that reads a numeric literal is
    followed in [natconv] and [intconv].  An error is kept as the place in
    the source that makes it, without the text of its message and without
    the file name and line that [checkVars] and [checkStatement] record for
    it. *)

From Stdlib Require Import ZArith List Ascii String Bool Lia.
From stdpp Require Import base option gmap strings.

#[local] Set Warnings "-register-all".

Local Open Scope Z_scope.

(** ** Tokens *)

Module Token.

(** Modelled from the spec: the token package is not part of the checked
    file.  An identifier is an interned symbol, so that equal texts are the
    same [ID]; the interned text is carried by the constructor and [ByID]
    projects it.  The named constants are the ones type.go compares with;
    [ID0] is the zero ID. *)
Inductive ID : Type :=
| ID0
| IDOpenParen
| IDOpenBracket
| IDColon
| IDDot
| IDPtr
| IDBool
| IDFalse
| IDTrue
| IDUnderscore
| IDThis
| IDEq
| IDShiftLEq
| IDShiftREq
| IDNumLiteral (s : string)
| IDIdent (s : string)
| IDNumType (s : string)
| IDOther (s : string).

#[global] Instance ID_eq_dec : EqDecision ID.
Proof. solve_decision. Defined.

Definition ID_code (x : ID) : nat * string :=
  match x with
  | ID0 => (0, "") | IDOpenParen => (1, "") | IDOpenBracket => (2, "")
  | IDColon => (3, "") | IDDot => (4, "") | IDPtr => (5, "")
  | IDBool => (6, "") | IDFalse => (7, "") | IDTrue => (8, "")
  | IDUnderscore => (9, "") | IDThis => (10, "") | IDEq => (11, "")
  | IDShiftLEq => (12, "") | IDShiftREq => (13, "")
  | IDNumLiteral s => (14, s) | IDIdent s => (15, s)
  | IDNumType s => (16, s) | IDOther s => (17, s)
  end%nat.

Definition ID_decode (c : nat * string) : ID :=
  match c with
  | (0, _) => ID0 | (1, _) => IDOpenParen | (2, _) => IDOpenBracket
  | (3, _) => IDColon | (4, _) => IDDot | (5, _) => IDPtr
  | (6, _) => IDBool | (7, _) => IDFalse | (8, _) => IDTrue
  | (9, _) => IDUnderscore | (10, _) => IDThis | (11, _) => IDEq
  | (12, _) => IDShiftLEq | (13, _) => IDShiftREq
  | (14, s) => IDNumLiteral s | (15, s) => IDIdent s
  | (16, s) => IDNumType s | (_, s) => IDOther s
  end%nat.

#[global] Instance ID_countable : Countable ID.
Proof.
  apply (inj_countable' ID_code ID_decode).
  intros []; reflexivity.
Defined.

(** [x.IsNumLiteral()], [x.IsIdent()], [x.IsNumType()]: the class flags of
    a token. *)
Definition IsNumLiteral (x : ID) : bool :=
  match x with IDNumLiteral _ => true | _ => false end.

Definition IsIdent (x : ID) : bool :=
  match x with IDIdent _ => true | _ => false end.

Definition IsNumType (x : ID) : bool :=
  match x with IDNumType _ => true | _ => false end.

(** [idMap.ByID]: the text an ID was interned from. *)
Definition ByID (x : ID) : string :=
  match x with
  | IDNumLiteral s | IDIdent s | IDNumType s | IDOther s => s
  | ID0 => ""
  | IDOpenParen => "("
  | IDOpenBracket => "["
  | IDColon => ":"
  | IDDot => "."
  | IDPtr => "ptr"
  | IDBool => "bool"
  | IDFalse => "false"
  | IDTrue => "true"
  | IDUnderscore => "_"
  | IDThis => "this"
  | IDEq => "="
  | IDShiftLEq => "<<="
  | IDShiftREq => ">>="
  end.

(** The tokens whose only arity flag is [FlagsUnaryOp]. *)
Inductive UnaryOp : Type :=
| IDXUnaryPlus
| IDXUnaryMinus
| IDXUnaryNot
| IDUnaryOther (key : N).

(** The tokens whose only arity flag is [FlagsBinaryOp], apart from
    [IDXBinaryAs], which has a constructor of its own in [Expr] because its
    right operand is a type expression. *)
Inductive BinaryOp : Type :=
| IDXBinaryPlus
| IDXBinaryMinus
| IDXBinaryStar
| IDXBinarySlash
| IDXBinaryShiftL
| IDXBinaryShiftR
| IDXBinaryAmp
| IDXBinaryAmpHat
| IDXBinaryPipe
| IDXBinaryHat
| IDXBinaryNotEq
| IDXBinaryLessThan
| IDXBinaryLessEq
| IDXBinaryEqEq
| IDXBinaryGreaterEq
| IDXBinaryGreaterThan
| IDXBinaryAnd
| IDXBinaryOr
| IDBinaryOther (key : N).

#[global] Instance UnaryOp_eq_dec : EqDecision UnaryOp.
Proof. solve_decision. Defined.

#[global] Instance BinaryOp_eq_dec : EqDecision BinaryOp.
Proof. solve_decision. Defined.

End Token.

Import Token.

(** ** Abstract syntax *)

(** Modelled from the spec: the ast package is not part of the checked
    file.  An expression is tagged by the arity class of its primary token
    [ID0] (its flags masked with unary, binary and associative), which is
    what [checkExpr] switches on; an operand slot is present exactly when
    the checker reads it.  A type expression is tagged by
    [PackageOrDecorator]: zero for a terminal name with its two optional
    bounds, [IDPtr], [IDOpenBracket] with the array length, anything else.
    A field is an [option] exactly where the source tests it against nil. *)
Inductive Expr : Type :=
| ExprOther (id0 id1 : ID)
| ExprUnaryOp (id0 : UnaryOp) (rhs : Expr)
| ExprBinaryOp (id0 : BinaryOp) (lhs rhs : Expr)
| ExprAs (lhs : Expr) (rhs : TypeExpr)
| ExprAssociativeOp (key : N)
| ExprSeveralFlags (key : N)
with TypeExpr : Type :=
| TypeExprName (name : ID) (inclMin exclMax : option Expr)
| TypeExprPtr (inner : option TypeExpr)
| TypeExprArray (arrayLength : Expr) (inner : option TypeExpr)
| TypeExprOther (packageOrDecorator name : ID).

(** [n.Bounds()]: the two refinement bounds, nil where absent. *)
Definition Bounds (inclMin exclMax : option Expr) : list (option Expr) :=
  [inclMin; exclMax].

(** Statements.  [KOther] stands for every node kind that [checkStatement]
    has no case for; it carries the lists of nodes that [Raw().SubLists()]
    gives.  The else-if link of an [If] is a single node, not a list. *)
Inductive Node : Type :=
| KAssert (condition : Expr)
| KAssign (lhs : Expr) (operator : ID) (rhs : Expr)
| KVar (name : ID) (xType : TypeExpr) (value : option Expr)
| KWhile (condition : option Expr) (body : list Node)
| KIf (o : If)
| KReturn (value : option Expr)
| KBreak
| KContinue
| KOther (kind : N) (subLists : list (list Node))
with If : Type :=
| mkIf (condition : Expr) (bodyIfTrue bodyIfFalse : list Node)
       (elseIf : option If).

(** [n.Raw().SubLists()]: the lists of child nodes of a node. *)
Definition SubLists (n : Node) : list (list Node) :=
  match n with
  | KWhile _ body => [body]
  | KIf (mkIf _ bodyIfTrue bodyIfFalse _) => [bodyIfTrue; bodyIfFalse]
  | KOther _ subLists => subLists
  | _ => []
  end.

(** ** Structural equality of type expressions *)

(** Modelled from the spec: [Expr.Eq] and [TypeExpr.eq] of the ast
    package.  Two types are equal when they are the same tree; ignoring
    refinements leaves the bounds of the terminal name out of the
    comparison. *)
Fixpoint Expr_Eq (n o : Expr) {struct n} : bool :=
  match n, o with
  | ExprOther a b, ExprOther a' b' =>
      bool_decide (a = a') && bool_decide (b = b')
  | ExprUnaryOp i r, ExprUnaryOp i' r' =>
      bool_decide (i = i') && Expr_Eq r r'
  | ExprBinaryOp i l r, ExprBinaryOp i' l' r' =>
      bool_decide (i = i') && Expr_Eq l l' && Expr_Eq r r'
  | ExprAs l t, ExprAs l' t' =>
      Expr_Eq l l' && TypeExpr_eq t t' false
  | ExprAssociativeOp k, ExprAssociativeOp k' => bool_decide (k = k')
  | ExprSeveralFlags k, ExprSeveralFlags k' => bool_decide (k = k')
  | _, _ => false
  end
with TypeExpr_eq (n o : TypeExpr) (ignoreRefinements : bool) {struct n} : bool :=
  match n, o with
  | TypeExprName nm lo hi, TypeExprName nm' lo' hi' =>
      bool_decide (nm = nm') &&
      (ignoreRefinements ||
       (match lo, lo' with
        | None, None => true
        | Some a, Some b => Expr_Eq a b
        | _, _ => false
        end &&
        match hi, hi' with
        | None, None => true
        | Some a, Some b => Expr_Eq a b
        | _, _ => false
        end))
  | TypeExprPtr i, TypeExprPtr i' =>
      match i, i' with
      | None, None => true
      | Some a, Some b => TypeExpr_eq a b ignoreRefinements
      | _, _ => false
      end
  | TypeExprArray len i, TypeExprArray len' i' =>
      Expr_Eq len len' &&
      match i, i' with
      | None, None => true
      | Some a, Some b => TypeExpr_eq a b ignoreRefinements
      | _, _ => false
      end
  | TypeExprOther p nm, TypeExprOther p' nm' =>
      bool_decide (p = p') && bool_decide (nm = nm')
  | _, _ => false
  end.

(** ** Semantic types *)

(** The value of [MType()] is a pointer: either one of the two singletons
    of the check package or a type expression of the tree.  The source
    compares with the singletons both by pointer ([==], [!=]) and by
    structure ([Eq], [EqIgnoringRefinements]); the two are kept apart. *)
Inductive MTypePtr : Type :=
| TypeExprIdealNumber
| TypeExprBoolean
| TypeExprAt (t : TypeExpr).

(** Pointer comparison with a singleton. *)
Definition isIdealNumber (p : MTypePtr) : bool :=
  match p with TypeExprIdealNumber => true | _ => false end.

Definition isBooleanPtr (p : MTypePtr) : bool :=
  match p with TypeExprBoolean => true | _ => false end.

(** Modelled from the spec: the Boolean singleton is the terminal name
    [bool] without bounds; the ideal number is a type of its own, which no
    type expression of the tree equals and which is not a numeric type
    name. *)
Definition boolTypeExpr : TypeExpr := TypeExprName IDBool None None.

Definition MType_eq (n o : MTypePtr) (ignoreRefinements : bool) : bool :=
  match n, o with
  | TypeExprIdealNumber, TypeExprIdealNumber => true
  | TypeExprIdealNumber, _ | _, TypeExprIdealNumber => false
  | TypeExprBoolean, TypeExprBoolean => true
  | TypeExprBoolean, TypeExprAt t => TypeExpr_eq boolTypeExpr t ignoreRefinements
  | TypeExprAt t, TypeExprBoolean => TypeExpr_eq t boolTypeExpr ignoreRefinements
  | TypeExprAt t, TypeExprAt u => TypeExpr_eq t u ignoreRefinements
  end.

Definition Eq (n o : MTypePtr) : bool := MType_eq n o false.

Definition EqIgnoringRefinements (n o : MTypePtr) : bool := MType_eq n o true.

(** [TypeExpr.IsNumType]: a terminal numeric type name, refined or not. *)
Definition TypeExpr_IsNumType (t : TypeExpr) : bool :=
  match t with
  | TypeExprName name _ _ => IsNumType name
  | _ => false
  end.

Definition MType_IsNumType (p : MTypePtr) : bool :=
  match p with
  | TypeExprAt t => TypeExpr_IsNumType t
  | _ => false
  end.

(** Modelled from the spec: [numeric] of the check package, an ideal
    number or a numeric type. *)
Definition numeric (p : MTypePtr) : bool :=
  isIdealNumber p || MType_IsNumType p.

(** Modelled from the spec: the shared constants of the check package and
    [btoi], which turns a Go bool into [one] or [zero]. *)
Definition zero : Z := 0.
Definition one : Z := 1.
Definition ffff : Z := 65535.

Definition btoi (b : bool) : Z := if b then one else zero.

(** ** Arbitrary-precision integers *)

(** The operations of Go's math/big that the constant evaluator calls, on
    [Z].  [Div] is written as the library computes it: the truncated
    quotient and remainder of [QuoRem], then one step of adjustment when
    the remainder is negative.  [Lsh] and [Rsh] shift by an unsigned
    amount; [And], [AndNot], [Or] and [Xor] act on two's complement. *)
Module big.

Definition Add (x y : Z) : Z := x + y.
Definition Sub (x y : Z) : Z := x - y.
Definition Mul (x y : Z) : Z := x * y.
Definition Neg (x : Z) : Z := - x.

Definition Div (x y : Z) : Z :=
  let q := Z.quot x y in
  let r := Z.rem x y in
  if r <? 0 then (if y <? 0 then q + 1 else q - 1) else q.

Definition Lsh (x : Z) (n : Z) : Z := Z.shiftl x n.
Definition Rsh (x : Z) (n : Z) : Z := Z.shiftr x n.
Definition And (x y : Z) : Z := Z.land x y.
Definition AndNot (x y : Z) : Z := Z.ldiff x y.
Definition Or (x y : Z) : Z := Z.lor x y.
Definition Xor (x y : Z) : Z := Z.lxor x y.

(** [x.Cmp(y)]: -1, 0 or +1. *)
Definition Cmp (x y : Z) : Z :=
  match x ?= y with Lt => -1 | Datatypes.Eq => 0 | Gt => 1 end.

End big.

(** ** Errors and results *)

(** One constructor for each [fmt.Errorf] of type.go. *)
Inductive error : Type :=
| ErrDuplicateVar (name : ID)
| ErrAssertNotBoolean
| ErrWhileNotBoolean
| ErrIfNotBoolean
| ErrUnrecognizedKind (kind : N)
| ErrCannotAssign
| ErrAssigneeNotNumeric
| ErrAssignShiftNotNumeric
| ErrAssignIncompatible
| ErrUnrecognizedExpr
| ErrInvalidNumLiteral (s : string)
| ErrUnrecognizedIdentifier (name : ID)
| ErrUnrecognizedOther
| ErrUnaryNotNumeric
| ErrUnaryNotBoolean
| ErrUnrecognizedUnaryOp
| ErrCannotConvert
| ErrBinaryNotNumeric
| ErrBinaryNotBoolean
| ErrBinaryIncompatible
| ErrShiftIdealByNonIdeal
| ErrDivisionByZero
| ErrShiftOutOfRange
| ErrUnrecognizedAssociativeOp
| ErrNotConstant
| ErrNotAType (name : ID)
| ErrUnrecognizedTypeExpr.

(** The taxonomy of the specification. *)
Inductive Kind : Type :=
| DuplicateDeclaration
| UnboundIdentifier
| NotBoolean
| NotNumeric
| TypeMismatch
| NotConstant
| InvalidLiteral
| DivisionByZero
| ShiftOutOfRange
| NotAType
| UnsupportedConstruct
| InternalInconsistency.

Definition kindOf (e : error) : Kind :=
  match e with
  | ErrDuplicateVar _ => DuplicateDeclaration
  | ErrUnrecognizedIdentifier _ => UnboundIdentifier
  | ErrAssertNotBoolean | ErrWhileNotBoolean | ErrIfNotBoolean
  | ErrUnaryNotBoolean | ErrBinaryNotBoolean => NotBoolean
  | ErrAssigneeNotNumeric | ErrAssignShiftNotNumeric
  | ErrUnaryNotNumeric | ErrBinaryNotNumeric => NotNumeric
  | ErrCannotAssign | ErrAssignIncompatible | ErrCannotConvert
  | ErrBinaryIncompatible | ErrShiftIdealByNonIdeal => TypeMismatch
  | ErrNotConstant => NotConstant
  | ErrInvalidNumLiteral _ => InvalidLiteral
  | ErrDivisionByZero => DivisionByZero
  | ErrShiftOutOfRange => ShiftOutOfRange
  | ErrNotAType _ => NotAType
  | ErrUnrecognizedOther | ErrUnrecognizedAssociativeOp => UnsupportedConstruct
  | ErrUnrecognizedKind _ | ErrUnrecognizedExpr | ErrUnrecognizedUnaryOp
  | ErrUnrecognizedTypeExpr => InternalInconsistency
  end.

(** What a call gives back: [Ok] for a nil error, [Err] for an error value,
    [Panic] for a Go run-time panic (a method called through a nil pointer,
    an assignment to an entry of a nil map). *)
Inductive result (A : Type) : Type :=
| Ok (a : A)
| Err (e : error)
| Panic.

Arguments Ok {A} a.
Arguments Err {A} e.
Arguments Panic {A}.

#[global] Instance result_ret : MRet result := fun A a => Ok a.

#[global] Instance result_bind : MBind result := fun A B k r =>
  match r with
  | Ok a => k a
  | Err e => Err e
  | Panic => Panic
  end.

(** [for _, m := range l { if err := f(m); err != nil { return err } }] *)
Definition forEach {A : Type} (f : A -> result unit) : list A -> result unit :=
  fix go (l : list A) : result unit :=
    match l with
    | [] => Ok tt
    | m :: l' => f m;; go l'
    end.

(** ** Annotations *)

(** The two fields of an expression node that the checker writes; [None]
    is nil, which is what the parser leaves there.  The tree comes from the
    parser and each of its nodes is checked once, so that an operand is
    checked from [unannotated]. *)
Record Annot : Type := mkAnnot {
  ConstValue : option Z;
  MType : option MTypePtr
}.

Definition unannotated : Annot := mkAnnot None None.

Definition SetConstValue (z : Z) (n : Annot) : Annot :=
  mkAnnot (Some z) (MType n).

Definition SetMType (t : MTypePtr) (n : Annot) : Annot :=
  mkAnnot (ConstValue n) (Some t).

(** The outcome of checking a node: the annotation it ends with, also when
    the check fails, and what the call returned. *)
Definition checked : Type := Annot * result unit.

(** What a caller reads from an operand it has just checked: the error if
    there is one, else [MType()] and [ConstValue()].  The type is used
    through its methods, which dereference it. *)
Definition operand (c : checked) : result (MTypePtr * option Z) :=
  match c with
  | (a, Ok _) =>
      match MType a with
      | Some t => Ok (t, ConstValue a)
      | None => Panic
      end
  | (_, Err e) => Err e
  | (_, Panic) => Panic
  end.

(** ** The expression checker *)

Section typeChecker.

(** [big.Int.SetString(s, 0)] of Go's math/big: the integer that the text
    [s] denotes, with the base taken from its prefix, or failure. *)
Variable SetString : string -> option Z.

(** [c.typeMap], a Go map: [None] is the nil map. *)
Variable typeMap : option (gmap ID TypeExpr).

Definition checkExprOther (id0 id1 : ID) (n : Annot) : checked :=
  match id0 with
  | ID0 =>
      if IsNumLiteral id1 then
        let s := ByID id1 in
        match SetString s with
        | None => (n, Err (ErrInvalidNumLiteral s))
        | Some z => (SetMType TypeExprIdealNumber (SetConstValue z n), Ok tt)
        end
      else if IsIdent id1 then
        match typeMap with
        | Some m =>
            match m !! id1 with
            | Some typ => (SetMType (TypeExprAt typ) n, Ok tt)
            | None => (n, Err (ErrUnrecognizedIdentifier id1))
            end
        | None => (n, Err (ErrUnrecognizedIdentifier id1))
        end
      else if bool_decide (id1 = IDFalse) then
        (SetMType TypeExprBoolean (SetConstValue zero n), Ok tt)
      else if bool_decide (id1 = IDTrue) then
        (SetMType TypeExprBoolean (SetConstValue one n), Ok tt)
      else
        (* IDUnderscore, IDThis and anything else: nothing is done. *)
        (n, Err ErrUnrecognizedOther)
  | _ =>
      (* IDOpenParen, IDOpenBracket, IDColon, IDDot: nothing is done. *)
      (n, Err ErrUnrecognizedOther)
  end.

Definition checkExprUnaryOp (checkExpr : Expr -> Annot -> checked)
    (id0 : UnaryOp) (rhs : Expr) (n : Annot) : checked :=
  match operand (checkExpr rhs unannotated) with
  | Err e => (n, Err e)
  | Panic => (n, Panic)
  | Ok (rTyp, rcv) =>
      match id0 with
      | IDXUnaryPlus | IDXUnaryMinus =>
          if negb (numeric rTyp) then (n, Err ErrUnaryNotNumeric)
          else
            let n :=
              match rcv with
              | Some cv =>
                  let cv :=
                    if bool_decide (id0 = IDXUnaryMinus) then big.Neg cv else cv in
                  SetConstValue cv n
              | None => n
              end in
            (SetMType rTyp n, Ok tt)
      | IDXUnaryNot =>
          if negb (Eq rTyp TypeExprBoolean) then (n, Err ErrUnaryNotBoolean)
          else
            let n :=
              match rcv with
              | Some cv => SetConstValue (btoi (big.Cmp cv zero =? 0)) n
              | None => n
              end in
            (SetMType TypeExprBoolean n, Ok tt)
      | IDUnaryOther _ => (n, Err ErrUnrecognizedUnaryOp)
      end
  end.

(** The shifts are called with [uint(r.Uint64())], which is [r] itself for
    the amounts that have passed the range test. *)
Definition setConstValueBinaryOp (id0 : BinaryOp) (n : Annot) (l r : Z) : checked :=
  match id0 with
  | IDXBinaryPlus => (SetConstValue (big.Add l r) n, Ok tt)
  | IDXBinaryMinus => (SetConstValue (big.Sub l r) n, Ok tt)
  | IDXBinaryStar => (SetConstValue (big.Mul l r) n, Ok tt)
  | IDXBinarySlash =>
      if big.Cmp r zero =? 0 then (n, Err ErrDivisionByZero)
      else (SetConstValue (big.Div l r) n, Ok tt)
  | IDXBinaryShiftL =>
      if (big.Cmp r zero <? 0) || (big.Cmp r ffff >? 0)
      then (n, Err ErrShiftOutOfRange)
      else (SetConstValue (big.Lsh l r) n, Ok tt)
  | IDXBinaryShiftR =>
      if (big.Cmp r zero <? 0) || (big.Cmp r ffff >? 0)
      then (n, Err ErrShiftOutOfRange)
      else (SetConstValue (big.Rsh l r) n, Ok tt)
  | IDXBinaryAmp => (SetConstValue (big.And l r) n, Ok tt)
  | IDXBinaryAmpHat => (SetConstValue (big.AndNot l r) n, Ok tt)
  | IDXBinaryPipe => (SetConstValue (big.Or l r) n, Ok tt)
  | IDXBinaryHat => (SetConstValue (big.Xor l r) n, Ok tt)
  | IDXBinaryNotEq =>
      (SetConstValue (btoi (negb (big.Cmp l r =? 0))) n, Ok tt)
  | IDXBinaryLessThan =>
      (SetConstValue (btoi (big.Cmp l r <? 0)) n, Ok tt)
  | IDXBinaryLessEq =>
      (SetConstValue (btoi (big.Cmp l r <=? 0)) n, Ok tt)
  | IDXBinaryEqEq =>
      (SetConstValue (btoi (big.Cmp l r =? 0)) n, Ok tt)
  | IDXBinaryGreaterEq =>
      (SetConstValue (btoi (big.Cmp l r >=? 0)) n, Ok tt)
  | IDXBinaryGreaterThan =>
      (SetConstValue (btoi (big.Cmp l r >? 0)) n, Ok tt)
  | IDXBinaryAnd =>
      (SetConstValue
         (btoi (negb (big.Cmp l zero =? 0) && negb (big.Cmp r zero =? 0))) n,
       Ok tt)
  | IDXBinaryOr =>
      (SetConstValue
         (btoi (negb (big.Cmp l zero =? 0) || negb (big.Cmp r zero =? 0))) n,
       Ok tt)
  | IDBinaryOther _ => (n, Ok tt)
  end.

(** The table [comparisonOps], read at the key of the operator.  The keys
    of the operator tokens are below 256, so that masking the key with 0xFF
    changes nothing and the entry is true for the six comparisons only. *)
Definition comparisonOps (op : BinaryOp) : bool :=
  match op with
  | IDXBinaryNotEq | IDXBinaryLessThan | IDXBinaryLessEq
  | IDXBinaryEqEq | IDXBinaryGreaterEq | IDXBinaryGreaterThan => true
  | _ => false
  end.

(** The first switch of [checkExprBinaryOp] on the operator: what kind of
    operands it takes. *)
Definition checkOperandKinds (op : BinaryOp) (lTyp rTyp : MTypePtr) : result unit :=
  match op with
  | IDXBinaryNotEq | IDXBinaryEqEq => Ok tt
  | IDXBinaryAnd | IDXBinaryOr =>
      if negb (isBooleanPtr lTyp) then Err ErrBinaryNotBoolean
      else if negb (isBooleanPtr rTyp) then Err ErrBinaryNotBoolean
      else Ok tt
  | _ =>
      if negb (numeric lTyp) then Err ErrBinaryNotNumeric
      else if negb (numeric rTyp) then Err ErrBinaryNotNumeric
      else Ok tt
  end.

(** The second switch: whether the two operand types go together. *)
Definition checkOperandTypes (op : BinaryOp) (lTyp rTyp : MTypePtr) : result unit :=
  match op with
  | IDXBinaryShiftL | IDXBinaryShiftR =>
      if isIdealNumber lTyp && negb (isIdealNumber rTyp)
      then Err ErrShiftIdealByNonIdeal
      else Ok tt
  | _ =>
      if negb (EqIgnoringRefinements lTyp rTyp)
         && negb (isIdealNumber lTyp) && negb (isIdealNumber rTyp)
      then Err ErrBinaryIncompatible
      else Ok tt
  end.

(** [checkExprBinaryOp] for an operator other than [as]. *)
Definition checkExprBinaryOp (checkExpr : Expr -> Annot -> checked)
    (op : BinaryOp) (lhs rhs : Expr) (n : Annot) : checked :=
  match operand (checkExpr lhs unannotated) with
  | Err e => (n, Err e)
  | Panic => (n, Panic)
  | Ok (lTyp, lcv) =>
  match operand (checkExpr rhs unannotated) with
  | Err e => (n, Err e)
  | Panic => (n, Panic)
  | Ok (rTyp, rcv) =>
  match checkOperandKinds op lTyp rTyp with
  | Err e => (n, Err e)
  | Panic => (n, Panic)
  | Ok _ =>
  match checkOperandTypes op lTyp rTyp with
  | Err e => (n, Err e)
  | Panic => (n, Panic)
  | Ok _ =>
  match
    match lcv, rcv with
    | Some l, Some r => setConstValueBinaryOp op n l r
    | _, _ => (n, Ok tt)
    end
  with
  | (n, Err e) => (n, Err e)
  | (n, Panic) => (n, Panic)
  | (n, Ok _) =>
      if comparisonOps op then (SetMType TypeExprBoolean n, Ok tt)
      else if negb (isIdealNumber lTyp) then (SetMType lTyp n, Ok tt)
      else (SetMType rTyp n, Ok tt)
  end end end end end.

(** [checkExprBinaryOp] for [as]: the right operand is a type. *)
Definition checkExprBinaryAs (checkExpr : Expr -> Annot -> checked)
    (checkTypeExpr : TypeExpr -> result unit)
    (lhs : Expr) (rhs : TypeExpr) (n : Annot) : checked :=
  match operand (checkExpr lhs unannotated) with
  | Err e => (n, Err e)
  | Panic => (n, Panic)
  | Ok (lTyp, _) =>
      match checkTypeExpr rhs with
      | Err e => (n, Err e)
      | Panic => (n, Panic)
      | Ok _ =>
          if numeric lTyp && TypeExpr_IsNumType rhs
          then (SetMType (TypeExprAt rhs) n, Ok tt)
          else (n, Err ErrCannotConvert)
      end
  end.

Definition checkExprAssociativeOp (n : Annot) : checked :=
  (n, Err ErrUnrecognizedAssociativeOp).

(** The loop of [checkTypeExpr] over the bounds of a terminal name: a nil
    bound is skipped, a bound must check and then carry a constant. *)
Definition checkBounds (checkExpr : Expr -> Annot -> checked) :
    list (option Expr) -> result unit :=
  fix go (bounds : list (option Expr)) : result unit :=
    match bounds with
    | [] => Ok tt
    | None :: rest => go rest
    | Some bound :: rest =>
        match checkExpr bound unannotated with
        | (_, Err e) => Err e
        | (_, Panic) => Panic
        | (b, Ok _) =>
            match ConstValue b with
            | None => Err ErrNotConstant
            | Some _ => go rest
            end
        end
    end.

Fixpoint checkExpr (n : Expr) (a : Annot) {struct n} : checked :=
  match n with
  | ExprOther id0 id1 => checkExprOther id0 id1 a
  | ExprUnaryOp id0 rhs => checkExprUnaryOp checkExpr id0 rhs a
  | ExprBinaryOp id0 lhs rhs => checkExprBinaryOp checkExpr id0 lhs rhs a
  | ExprAs lhs rhs => checkExprBinaryAs checkExpr checkTypeExpr lhs rhs a
  | ExprAssociativeOp _ => checkExprAssociativeOp a
  | ExprSeveralFlags _ => (a, Err ErrUnrecognizedExpr)
  end
with checkTypeExpr (n : TypeExpr) {struct n} : result unit :=
  match n with
  | TypeExprName name inclMin exclMax =>
      if IsNumType name || bool_decide (name = IDBool)
      then checkBounds checkExpr (Bounds inclMin exclMax)
      else Err (ErrNotAType name)
  | TypeExprPtr inner =>
      match inner with
      | None => Ok tt
      | Some n => checkTypeExpr n
      end
  | TypeExprArray aLen inner =>
      match checkExpr aLen unannotated with
      | (_, Err e) => Err e
      | (_, Panic) => Panic
      | (l, Ok _) =>
          match ConstValue l with
          | None => Err ErrNotConstant
          | Some _ =>
              match inner with
              | None => Ok tt
              | Some n => checkTypeExpr n
              end
          end
      end
  | TypeExprOther _ _ => Err ErrUnrecognizedTypeExpr
  end.

End typeChecker.

(** ** The statement checker *)

Section statements.

Variable SetString : string -> option Z.

Abbreviation TypeMap := (option (gmap ID TypeExpr)).

Section withTypeMap.

Variable typeMap : TypeMap.

Definition checkAssign (lhs : Expr) (op : ID) (rhs : Expr) : result unit :=
  '(lTyp, _) ← operand (checkExpr SetString typeMap lhs unannotated);
  '(rTyp, _) ← operand (checkExpr SetString typeMap rhs unannotated);
  if bool_decide (op = IDEq) then
    if (isIdealNumber rTyp && MType_IsNumType lTyp)
       || EqIgnoringRefinements lTyp rTyp
    then Ok tt
    else Err ErrCannotAssign
  else if negb (MType_IsNumType lTyp) then Err ErrAssigneeNotNumeric
  else if bool_decide (op = IDShiftLEq) || bool_decide (op = IDShiftREq) then
    if MType_IsNumType rTyp then Ok tt else Err ErrAssignShiftNotNumeric
  else if isIdealNumber rTyp || EqIgnoringRefinements lTyp rTyp then Ok tt
  else Err ErrAssignIncompatible.

(** A condition is checked and its type compared with the Boolean
    singleton by structure; [e] is the error of the statement at hand. *)
Definition checkCondition (cond : Expr) (e : error) : result unit :=
  '(typ, _) ← operand (checkExpr SetString typeMap cond unannotated);
  if negb (Eq typ TypeExprBoolean) then Err e else Ok tt.

Fixpoint checkStatement (n : Node) {struct n} : result unit :=
  match n with
  | KAssert cond =>
      checkCondition cond ErrAssertNotBoolean
  | KAssign lhs op rhs =>
      checkAssign lhs op rhs
  | KVar _ _ value =>
      match value with
      | Some value =>
          match checkExpr SetString typeMap value unannotated with
          | (_, Ok _) => Ok tt
          | (_, Err e) => Err e
          | (_, Panic) => Panic
          end
      | None => Ok tt
      end
  | KWhile cond body =>
      match cond with
      | Some cond => checkCondition cond ErrWhileNotBoolean
      | None => Ok tt
      end;;
      forEach checkStatement body
  | KIf o => checkIf o
  | KReturn value =>
      match value with
      | Some value =>
          match checkExpr SetString typeMap value unannotated with
          | (_, Ok _) => Ok tt
          | (_, Err e) => Err e
          | (_, Panic) => Panic
          end
      | None => Ok tt
      end
  | KBreak => Ok tt
  | KContinue => Ok tt
  | KOther kind _ => Err (ErrUnrecognizedKind kind)
  end
with checkIf (o : If) {struct o} : result unit :=
  (* for o := n.If(); o != nil; o = o.ElseIf() *)
  match o with
  | mkIf cond bodyIfTrue bodyIfFalse elseIf =>
      checkCondition cond ErrIfNotBoolean;;
      forEach checkStatement bodyIfTrue;;
      forEach checkStatement bodyIfFalse;;
      match elseIf with
      | Some o => checkIf o
      | None => Ok tt
      end
  end.

End withTypeMap.

(** ** Collecting the variables *)

(** [checkVars] writes [c.typeMap]; the map is threaded through, and is
    given back also when the call fails. *)
Definition rangeNodes (f : Node -> TypeMap -> TypeMap * result unit) :
    list Node -> TypeMap -> TypeMap * result unit :=
  fix go (l : list Node) (typeMap : TypeMap) : TypeMap * result unit :=
    match l with
    | [] => (typeMap, Ok tt)
    | m :: l' =>
        match f m typeMap with
        | (typeMap, Ok _) => go l' typeMap
        | (typeMap, r) => (typeMap, r)
        end
    end.

Definition rangeLists (f : Node -> TypeMap -> TypeMap * result unit) :
    list (list Node) -> TypeMap -> TypeMap * result unit :=
  fix go (ls : list (list Node)) (typeMap : TypeMap) : TypeMap * result unit :=
    match ls with
    | [] => (typeMap, Ok tt)
    | l :: ls' =>
        match rangeNodes f l typeMap with
        | (typeMap, Ok _) => go ls' typeMap
        | (typeMap, r) => (typeMap, r)
        end
    end.

(** [_, ok := c.typeMap[name]]: reading a nil map finds nothing. *)
Definition declared (typeMap : TypeMap) (name : ID) : bool :=
  match typeMap with
  | Some m => bool_decide (is_Some (m !! name))
  | None => false
  end.

(** [c.typeMap[name] = v.XType()] for a variable declaration. *)
Definition checkVar (name : ID) (xType : TypeExpr) (typeMap : TypeMap) :
    TypeMap * result unit :=
  if declared typeMap name then (typeMap, Err (ErrDuplicateVar name))
  else
    match checkTypeExpr SetString typeMap xType with
    | Err e => (typeMap, Err e)
    | Panic => (typeMap, Panic)
    | Ok _ =>
        match typeMap with
        | Some m => (Some (<[name := xType]> m), Ok tt)
        | None => (None, Panic)
        end
    end.

Fixpoint checkVars (n : Node) (typeMap : TypeMap) {struct n} :
    TypeMap * result unit :=
  match n with
  | KVar name xType _ => checkVar name xType typeMap
  | KWhile c body =>
      rangeLists checkVars (SubLists (KWhile c body)) typeMap
  | KIf (mkIf c t f e) =>
      rangeLists checkVars (SubLists (KIf (mkIf c t f e))) typeMap
  | KOther k ls =>
      rangeLists checkVars (SubLists (KOther k ls)) typeMap
  | _ => (typeMap, Ok tt)
  end.

End statements.

(** ** Checking a function body *)

(** Modelled from the spec: the driver that calls the type checker is not
    part of the checked file.  It is invoked once for a function body, with
    a scope map of its own: it first populates the map from the variable
    declarations, then walks the statements from the top. *)
Definition checkFuncBody (SetString : string -> option Z) (body : list Node) :
    result unit :=
  match rangeNodes (checkVars SetString) body (Some ∅) with
  | (typeMap, Ok _) => forEach (checkStatement SetString typeMap) body
  | (_, Err e) => Err e
  | (_, Panic) => Panic
  end.

(** ** Reading a literal *)

(** [z.SetString(s, 0)] of Go's math/big, as [checkExprOther] calls it.  The
    library is not part of the checked file; it is followed here as Go 1.13
    and later have it (natconv.go, intconv.go, int.go), with the base
    argument fixed at 0 and [fracOk] at false, the only values that the call
    gives them: the branches for a given base and for a fraction are never
    taken and are left out.  A reader over the text is the text that is left
    to read; [UnreadByte] gives back the byte read last, so that a loop that
    stops at a byte leaves the text from that byte on. *)
Module natconv.

(** The value of a byte. *)
Definition byte (ch : ascii) : Z := Z.of_N (N_of_ascii ch).

(** A [Word] has [_W] bits, 64 here; [_M] is the largest one.  The result
    of the scan does not depend on the width, only the grouping of the
    digits does. *)
Definition _W : Z := 64.
Definition _M : Z := 2 ^ _W - 1.

Definition MaxBase : Z := 62.
Definition maxBaseSmall : Z := 36.

Inductive scanError : Type :=
| errNoDigits
| errInvalSep
| EOF.

(** [maxPow(b)]: the largest power [b**n] that fits a Word, with [n].  The
    loop of the source runs while [p <= _M / b]; [p] at least doubles at
    each turn, so that it is left within [_W] turns for [b] at least 2. *)
Fixpoint maxPow_loop (fuel : nat) (b max p n : Z) : Z * Z :=
  match fuel with
  | O => (p, n)
  | S fuel =>
      if p <=? max then maxPow_loop fuel b max (p * b) (n + 1) else (p, n)
  end.

Definition maxPow (b : Z) : Z * Z :=
  maxPow_loop (Z.to_nat _W) b (_M / b) b 1.

(** [pow(x, n)]: [x**n], which fits a Word where [scan] calls it. *)
Definition pow (x n : Z) : Z := x ^ n.

(** [z.mulAddWW(x, y, r)]: [x*y + r]. *)
Definition mulAddWW (x y r : Z) : Z := x * y + r.

(** The variables of the loop of [scan]: the number read so far [z], the
    group of digits being collected [di] and its length [i], the number of
    digits [count], the kind of the previous byte [prev], which is ['_'],
    ['0'] for a digit or ['.'] for anything else, and [invalSep]. *)
Record scanState : Type := mkScanState {
  z : Z;
  di : Z;
  i : Z;
  count : Z;
  prev : ascii;
  invalSep : bool
}.

(** The switch that converts the byte [ch] into the digit value [d1]. *)
Definition digit (b : Z) (ch : ascii) : Z :=
  if (byte "0" <=? byte ch) && (byte ch <=? byte "9") then
    byte ch - byte "0"
  else if (byte "a" <=? byte ch) && (byte ch <=? byte "z") then
    byte ch - byte "a" + 10
  else if (byte "A" <=? byte ch) && (byte ch <=? byte "Z") then
    if b <=? maxBaseSmall then byte ch - byte "A" + 10
    else byte ch - byte "A" + maxBaseSmall
  else MaxBase + 1.

(** The loop [for err == nil] of [scan], entered with the byte [ch] read
    ahead: [r] is the text from [ch] on. *)
Fixpoint scanDigits (b bn n : Z) (st : scanState) (r : string) :
    scanState * string :=
  match r with
  | EmptyString => (st, r)
  | String ch r' =>
      if (ch =? "_")%char then
        let invalSep :=
          if negb (prev st =? "0")%char then true else invalSep st in
        scanDigits b bn n
          (mkScanState (z st) (di st) (i st) (count st) "_" invalSep) r'
      else
        let d1 := digit b ch in
        if d1 >=? b then
          (* r.UnreadByte(); break *)
          (st, r)
        else
          let count := count st + 1 in
          let di := di st * b + d1 in
          let i := i st + 1 in
          if i =? n then
            scanDigits b bn n
              (mkScanState (mulAddWW (z st) bn di) 0 0 count "0" (invalSep st))
              r'
          else
            scanDigits b bn n
              (mkScanState (z st) di i count "0" (invalSep st)) r'
  end.

(** [z.scan(r, 0, false)]: the number, the base, the number of digits and
    the error, with what is left of the reader. *)
Definition scan (r : string) : (Z * Z * Z * option scanError) * string :=
  let '(b, prefix, count, prev, r) :=
    match r with
    | String ch r1 =>
        if (ch =? "0")%char then
          (* prev = '0'; count = 1; ch, err = r.ReadByte() *)
          match r1 with
          | String ch r2 =>
              let '(b, prefix) :=
                if (ch =? "b")%char || (ch =? "B")%char then (2, "b"%char)
                else if (ch =? "o")%char || (ch =? "O")%char then (8, "o"%char)
                else if (ch =? "x")%char || (ch =? "X")%char then (16, "x"%char)
                else (8, "0"%char) in
              if negb (prefix =? Ascii.zero)%char then
                (* the prefix is not counted *)
                if negb (prefix =? "0")%char then (b, prefix, 0, "0"%char, r2)
                else (b, prefix, 0, "0"%char, r1)
              else (b, prefix, 1, "0"%char, r1)
          | EmptyString => (10, Ascii.zero, 1, "0"%char, r1)
          end
        else (10, Ascii.zero, 0, "."%char, r)
    | EmptyString => (10, Ascii.zero, 0, "."%char, r)
    end in
  let '(bn, n) := maxPow b in
  let '(st, r) := scanDigits b bn n (mkScanState 0 0 0 count prev false) r in
  (* err == io.EOF or the loop was left by break: err = nil *)
  let err :=
    if invalSep st || (natconv.prev st =? "_")%char then Some errInvalSep
    else None in
  if natconv.count st =? 0 then
    if (prefix =? "0")%char then
      (* only the octal prefix 0: decimal 0 *)
      ((0, 10, 1, err), r)
    else
      let res := if i st >? 0 then mulAddWW (z st) (pow b (i st)) (di st)
                 else z st in
      ((res, b, natconv.count st, Some errNoDigits), r)
  else
    let res := if i st >? 0 then mulAddWW (z st) (pow b (i st)) (di st)
               else z st in
    ((res, b, natconv.count st, err), r).

End natconv.

Module intconv.

Import natconv.

(** [scanSign(r)]. *)
Definition scanSign (r : string) : (bool * option scanError) * string :=
  match r with
  | EmptyString => ((false, Some EOF), r)
  | String ch r' =>
      if (ch =? "-")%char then ((true, None), r')
      else if (ch =? "+")%char then ((false, None), r')
      else (* r.UnreadByte() *) ((false, None), r)
  end.

(** [z.scan(r, 0)]: the integer and the base, or nothing on an error.  An
    [Int] is a magnitude [abs] and a sign [neg]; zero has no sign. *)
Definition scan (r : string) : option (Z * Z) * string :=
  let '((neg, err), r) := scanSign r in
  match err with
  | Some _ => (None, r)
  | None =>
      let '((abs, base, _, err), r) := natconv.scan r in
      match err with
      | Some _ => (None, r)
      | None =>
          let neg := negb (abs =? 0) && neg in
          (Some (if neg then - abs else abs, base), r)
      end
  end.

(** [z.setFromScanner(r, 0)]: the entire content must have been consumed. *)
Definition setFromScanner (r : string) : option Z :=
  match scan r with
  | (None, _) => None
  | (Some (z, _), r) =>
      match r with
      | EmptyString => Some z
      | String _ _ => None
      end
  end.

(** [z.SetString(s, 0)], over [strings.NewReader(s)]. *)
Definition SetString (s : string) : option Z := setFromScanner s.

End intconv.

(** [checkExprOther] reads a literal with [z.SetString(s, 0)]: this is the
    reader that the checker is run with. *)
Module Reader.

Definition readNumber (s : string) : option Z := intconv.SetString s.

End Reader.

Import Reader.

(** ** Examples of syntax and of a scope *)
Definition lit (s : string) : Expr := ExprOther ID0 (IDNumLiteral s).
Definition var (s : string) : Expr := ExprOther ID0 (IDIdent s).
Definition numType (s : string) : TypeExpr := TypeExprName (IDNumType s) None None.

Definition true_ : Expr := ExprOther ID0 IDTrue.

(** The scope of [var x : u32; var y : u8]. *)
Definition mapXY : gmap ID TypeExpr :=
  <[IDIdent "x" := numType "u32"]> (<[IDIdent "y" := numType "u8"]> ∅).

Definition scopeXY : option (gmap ID TypeExpr) := Some mapXY.

(** ** Notions used in the statements *)

(** One turn of the loop over the bounds. *)
Definition checkBound (SetString : string -> option Z)
    (typeMap : option (gmap ID TypeExpr)) (bound : option Expr) : result unit :=
  match bound with
  | None => Ok tt
  | Some bound =>
      match checkExpr SetString typeMap bound unannotated with
      | (_, Err e) => Err e
      | (_, Panic) => Panic
      | (b, Ok _) =>
          match ConstValue b with
          | None => Err ErrNotConstant
          | Some _ => Ok tt
          end
      end
  end.

(** A bound that is absent, or that checks and folds to a constant. *)
Definition constantBound (SetString : string -> option Z)
    (typeMap : option (gmap ID TypeExpr)) (bound : option Expr) : Prop :=
  match bound with
  | None => True
  | Some bound =>
      exists a z, checkExpr SetString typeMap bound unannotated = (a, Ok tt)
                  /\ ConstValue a = Some z
  end.

(** The conditions of an if statement, along its else-if chain. *)
Fixpoint conditions (o : If) : list Expr :=
  match o with
  | mkIf cond _ _ elseIf =>
      cond :: match elseIf with
              | Some o => conditions o
              | None => []
              end
  end.

(** A type is exactly Boolean when it is the Boolean singleton or the type
    expression [bool], without bounds. *)
Definition isBoolean (typ : MTypePtr) : Prop :=
  typ = TypeExprBoolean \/ typ = TypeExprAt boolTypeExpr.

(** The type of a constant: the ideal number or the Boolean singleton. *)
Definition idealOrBoolean (t : option MTypePtr) : Prop :=
  t = Some TypeExprIdealNumber \/ t = Some TypeExprBoolean.

(** The type that checking gives to an expression. *)
Definition resolves (SetString : string -> option Z)
    (typeMap : option (gmap ID TypeExpr)) (cond : Expr) (typ : MTypePtr) : Prop :=
  exists cv, operand (checkExpr SetString typeMap cond unannotated) = Ok (typ, cv).

(** A call keeps the entries that the map has. *)
Definition keepsEntries (f : Node -> option (gmap ID TypeExpr) ->
                             option (gmap ID TypeExpr) * result unit)
    (n : Node) : Prop :=
  forall m typeMap' r,
    f n (Some m) = (typeMap', r) ->
    exists m', typeMap' = Some m' /\ m ⊆ m'.

(** The declarations that [checkVars] comes to: the node itself, or a
    declaration of a node in one of its lists of child nodes. *)
Inductive declares : Node -> ID -> TypeExpr -> Prop :=
| declares_var name xType value :
    declares (KVar name xType value) name xType
| declares_sub n l m name xType :
    In l (SubLists n) -> In m l -> declares m name xType ->
    declares n name xType.

(** [R] holds of the value of an option that has one. *)
Definition whenSome {A : Type} (R : A -> Prop) (o : option A) : Prop :=
  match o with
  | Some x => R x
  | None => True
  end.

(** [c.typeMap[name]], also for the nil map. *)
Definition scopeLookup (typeMap : option (gmap ID TypeExpr)) (name : ID) :
    option TypeExpr :=
  match typeMap with
  | Some m => m !! name
  | None => None
  end.

(** [typeMap'] has the entries of [typeMap]. *)
Definition scopeIncluded (typeMap typeMap' : option (gmap ID TypeExpr)) : Prop :=
  forall name t, scopeLookup typeMap name = Some t ->
                 scopeLookup typeMap' name = Some t.

(** The expressions that the checker comes to from an expression or a type
    expression: the operands, the two bounds of a terminal name, the array
    lengths, through the decorators. *)
Inductive operandOf : Expr -> Expr -> Prop :=
| operandOf_unary op rhs : operandOf rhs (ExprUnaryOp op rhs)
| operandOf_lhs op lhs rhs : operandOf lhs (ExprBinaryOp op lhs rhs)
| operandOf_rhs op lhs rhs : operandOf rhs (ExprBinaryOp op lhs rhs)
| operandOf_as_lhs lhs t : operandOf lhs (ExprAs lhs t)
| operandOf_as_type e lhs t : inTypeExpr e t -> operandOf e (ExprAs lhs t)
with inTypeExpr : Expr -> TypeExpr -> Prop :=
| inTypeExpr_inclMin e name exclMax :
    inTypeExpr e (TypeExprName name (Some e) exclMax)
| inTypeExpr_exclMax e name inclMin :
    inTypeExpr e (TypeExprName name inclMin (Some e))
| inTypeExpr_ptr e inner :
    inTypeExpr e inner -> inTypeExpr e (TypeExprPtr (Some inner))
| inTypeExpr_length aLen inner :
    inTypeExpr aLen (TypeExprArray aLen inner)
| inTypeExpr_array e aLen inner :
    inTypeExpr e inner -> inTypeExpr e (TypeExprArray aLen (Some inner)).

(** An expression within another, at any depth. *)
Inductive within : Expr -> Expr -> Prop :=
| within_refl n : within n n
| within_step e m n : within e m -> operandOf m n -> within e n.

(** The forms that the checker has no rule for: an expression of arity
    class zero other than a literal, an identifier, [true] and [false], an
    associative operator, a token with several arity flags, a unary token
    other than the three operators. *)
Definition unsupported (n : Expr) : Prop :=
  match n with
  | ExprOther id0 id1 =>
      id0 <> ID0 \/
      (IsNumLiteral id1 = false /\ IsIdent id1 = false
       /\ id1 <> IDFalse /\ id1 <> IDTrue)
  | ExprUnaryOp (IDUnaryOther _) _ => True
  | ExprAssociativeOp _ => True
  | ExprSeveralFlags _ => True
  | _ => False
  end.

(** A chain of decorators that ends in a numeric or Boolean name, or in
    nothing. *)
Fixpoint decorated (n : TypeExpr) : bool :=
  match n with
  | TypeExprName name _ _ => IsNumType name || bool_decide (name = IDBool)
  | TypeExprPtr None => true
  | TypeExprPtr (Some inner) => decorated inner
  | TypeExprArray _ None => true
  | TypeExprArray _ (Some inner) => decorated inner
  | TypeExprOther _ _ => false
  end.

(** [k] pointer decorators around a type expression. *)
Fixpoint pointers (k : nat) (n : TypeExpr) : TypeExpr :=
  match k with
  | O => n
  | S k => TypeExprPtr (Some (pointers k n))
  end.

(** The statements directly under a statement: the body of a while loop,
    the bodies of an if statement along its else-if chain. *)
Fixpoint bodies (o : If) : list Node :=
  match o with
  | mkIf _ bodyIfTrue bodyIfFalse elseIf =>
      bodyIfTrue ++ bodyIfFalse ++
      match elseIf with
      | Some o => bodies o
      | None => []
      end
  end.

Definition statementsOf (n : Node) : list Node :=
  match n with
  | KWhile _ body => body
  | KIf o => bodies o
  | _ => []
  end.

(** An expression that does not make the checker panic. *)
Definition neverPanics (SetString : string -> option Z)
    (typeMap : option (gmap ID TypeExpr)) (n : Expr) : Prop :=
  forall a a', checkExpr SetString typeMap n a <> (a', Panic).

(** An expression that the checker accepts, as an operand is checked. *)
Definition accepted (SetString : string -> option Z)
    (typeMap : option (gmap ID TypeExpr)) (e : Expr) : Prop :=
  exists a, checkExpr SetString typeMap e unannotated = (a, Ok tt).

(** What is accepted in one scope is accepted in another, with the same
    annotation. *)
Definition carriesOver (SetString : string -> option Z)
    (typeMap typeMap' : option (gmap ID TypeExpr)) (n : Expr) : Prop :=
  forall a a',
    checkExpr SetString typeMap n a = (a', Ok tt) ->
    checkExpr SetString typeMap' n a = (a', Ok tt).

(** Where the entries of the map come from, also when the call fails. *)
Definition entriesFrom (SetString : string -> option Z) (n : Node) : Prop :=
  forall m0 mf r name t,
    checkVars SetString n (Some m0) = (Some mf, r) ->
    mf !! name = Some t ->
    m0 !! name = Some t \/ declares n name t.

(** ** Numeric literals, as the specification reads them *)

(** The specification speaks of the well-formed numeric literals, of their
    base and of their mathematical value.  They are read here as the
    integer literals of Go with an optional sign in front: a decimal
    literal is [0] or starts with a digit other than [0]; a prefix [0b],
    [0o], [0x] (in either case) or a single [0] gives the base 2, 8, 16 or
    8; an underscore may stand between two digits and between a prefix and
    the first digit.  A literal is kept as its parts: the sign, the prefix
    and the digits, each with a mark that says whether an underscore stands
    before it. *)

Inductive Sign : Type := NoSign | Plus | Minus.

Inductive Prefix : Type :=
| NoPrefix
| Prefix0
| Prefix0b | Prefix0B
| Prefix0o | Prefix0O
| Prefix0x | Prefix0X.

(** The text of the parts. *)
Definition signText (s : Sign) : string :=
  match s with NoSign => "" | Plus => "+" | Minus => "-" end.

Definition prefixText (p : Prefix) : string :=
  match p with
  | NoPrefix => ""
  | Prefix0 => "0"
  | Prefix0b => "0b" | Prefix0B => "0B"
  | Prefix0o => "0o" | Prefix0O => "0O"
  | Prefix0x => "0x" | Prefix0X => "0X"
  end.

(** The base that a prefix stands for. *)
Definition radix (p : Prefix) : Z :=
  match p with
  | NoPrefix => 10
  | Prefix0 | Prefix0o | Prefix0O => 8
  | Prefix0b | Prefix0B => 2
  | Prefix0x | Prefix0X => 16
  end.

(** The value of a digit: [0] to [9], then [a] to [f] in either case. *)
Definition digitValue (c : ascii) : option Z :=
  let n := Z.of_N (N_of_ascii c) in
  if (48 <=? n) && (n <=? 57) then Some (n - 48)
  else if (97 <=? n) && (n <=? 102) then Some (n - 87)
  else if (65 <=? n) && (n <=? 70) then Some (n - 55)
  else None.

Record Literal : Type := mkLiteral {
  litSign : Sign;
  litPrefix : Prefix;
  litDigits : list (bool * ascii)
}.

Fixpoint digitsText (ds : list (bool * ascii)) : string :=
  match ds with
  | [] => ""
  | (sep, c) :: ds' =>
      if sep then String "_" (String c (digitsText ds'))
      else String c (digitsText ds')
  end.

(** The text of a literal. *)
Definition literalText (l : Literal) : string :=
  signText (litSign l) +:+ prefixText (litPrefix l)
  +:+ digitsText (litDigits l).

(** [c] is a digit of the base. *)
Definition digitOf (radix : Z) (c : ascii) : bool :=
  match digitValue c with
  | Some d => d <? radix
  | None => false
  end.

(** A well-formed literal has at least one digit, every digit is one of
    its base, and without a prefix no underscore comes first and the first
    digit is [0] only if it is the only one. *)
Definition wellFormedLiteral (l : Literal) : bool :=
  forallb (fun d => digitOf (radix (litPrefix l)) (snd d)) (litDigits l)
  && match litDigits l with
     | [] => false
     | (sep, c) :: ds' =>
         match litPrefix l with
         | NoPrefix =>
             negb sep
             && (negb (c =? "0")%char
                 || match ds' with [] => true | _ => false end)
         | _ => true
         end
     end.

(** The value of a sequence of digits in positional notation: the digit
    that has [k] digits after it counts [radix ^ k] times. *)
Fixpoint positional (radix : Z) (ds : list Z) : Z :=
  match ds with
  | [] => 0
  | d :: ds' => d * radix ^ Z.of_nat (length ds') + positional radix ds'
  end.

(** The mathematical value of a literal. *)
Definition literalValue (l : Literal) : Z :=
  let v := positional (radix (litPrefix l))
             (map (fun d => default 0 (digitValue (snd d))) (litDigits l)) in
  match litSign l with
  | Minus => - v
  | _ => v
  end.

(** ** Notions used to relate the reader and the literals *)

Section scanning.

Import natconv.

(** The number that the loop of [scan] has read so far. *)
Definition scanned (b : Z) (st : scanState) : Z := z st * b ^ i st + di st.

(** What the loop keeps true of the group of digits. *)
Definition grouped (n : Z) (st : scanState) : Prop :=
  0 <= i st < n /\ (i st = 0 -> di st = 0).

(** The values of the digits of a literal. *)
Definition digitValues (ds : list (bool * ascii)) : list Z :=
  map (fun d => default 0 (digitValue (snd d))) ds.

(** [scan] after it has determined the base. *)
Definition scanFrom (b : Z) (prefix : ascii) (count0 : Z) (prev0 : ascii)
    (r : string) : (Z * Z * Z * option scanError) * string :=
  let '(bn, n) := maxPow b in
  let '(st, r) := scanDigits b bn n (mkScanState 0 0 0 count0 prev0 false) r in
  let err :=
    if invalSep st || (prev st =? "_")%char then Some errInvalSep
    else None in
  if count st =? 0 then
    if (prefix =? "0")%char then ((0, 10, 1, err), r)
    else
      let res := if i st >? 0 then mulAddWW (z st) (pow b (i st)) (di st)
                 else z st in
      ((res, b, count st, Some errNoDigits), r)
  else
    let res := if i st >? 0 then mulAddWW (z st) (pow b (i st)) (di st)
               else z st in
    ((res, b, count st, err), r).

(** The text and the shape of a literal without its sign. *)
Definition unsignedText (p : Prefix) (ds : list (bool * ascii)) : string :=
  prefixText p +:+ digitsText ds.

Definition wellFormedUnsigned (p : Prefix) (ds : list (bool * ascii)) : bool :=
  wellFormedLiteral (mkLiteral NoSign p ds).

End scanning.

(** ** The status codes of gen/h/std/gif.h *)

(** The constants of the generated header, with the layout that its
    comment gives to a status code: an int32 whose sign bit says that the
    status is an error, whose bits 10 to 30 hold the package id, whose bits
    8 and 9 are reserved and whose bits 0 to 7 are the code within the
    package. *)
Module gif.

Definition wuffs_gif__packageid : Z := 1017222.

Definition WUFFS_GIF__STATUS_OK : Z := 0.
Definition WUFFS_GIF__ERROR_BAD_WUFFS_VERSION : Z := -2147483647.
Definition WUFFS_GIF__ERROR_BAD_RECEIVER : Z := -2147483646.
Definition WUFFS_GIF__ERROR_BAD_ARGUMENT : Z := -2147483645.
Definition WUFFS_GIF__ERROR_INITIALIZER_NOT_CALLED : Z := -2147483644.
Definition WUFFS_GIF__ERROR_INVALID_I_O_OPERATION : Z := -2147483643.
Definition WUFFS_GIF__ERROR_CLOSED_FOR_WRITES : Z := -2147483642.
Definition WUFFS_GIF__ERROR_UNEXPECTED_EOF : Z := -2147483641.
Definition WUFFS_GIF__SUSPENSION_SHORT_READ : Z := 8.
Definition WUFFS_GIF__SUSPENSION_SHORT_WRITE : Z := 9.
Definition WUFFS_GIF__ERROR_BAD_GIF_BLOCK : Z := -1105848320.
Definition WUFFS_GIF__ERROR_BAD_GIF_EXTENSION_LABEL : Z := -1105848319.
Definition WUFFS_GIF__ERROR_BAD_GIF_HEADER : Z := -1105848318.
Definition WUFFS_GIF__ERROR_BAD_LZW_LITERAL_WIDTH : Z := -1105848317.
Definition WUFFS_GIF__ERROR_INTERNAL_ERROR_INCONSISTENT_LIMITED_READ : Z :=
  -1105848316.
Definition WUFFS_GIF__ERROR_TODO_UNSUPPORTED_LOCAL_COLOR_TABLE : Z :=
  -1105848315.
Definition WUFFS_GIF__ERROR_LZW_CODE_IS_OUT_OF_RANGE : Z := -1105848314.
Definition WUFFS_GIF__ERROR_LZW_PREFIX_CHAIN_IS_CYCLICAL : Z := -1105848313.

(** A line of the header: the value, the hexadecimal form that the comment
    at its end gives, whether the name says ERROR, and whether the constant
    is one of the package (the second group) or one of the base codes. *)
Record line : Type := mkLine {
  value : Z;
  hex : Z;
  namedError : bool;
  ofPackage : bool
}.

Definition lines : list line :=
  [ mkLine WUFFS_GIF__STATUS_OK 0x00000000 false false;
    mkLine WUFFS_GIF__ERROR_BAD_WUFFS_VERSION 0x80000001 true false;
    mkLine WUFFS_GIF__ERROR_BAD_RECEIVER 0x80000002 true false;
    mkLine WUFFS_GIF__ERROR_BAD_ARGUMENT 0x80000003 true false;
    mkLine WUFFS_GIF__ERROR_INITIALIZER_NOT_CALLED 0x80000004 true false;
    mkLine WUFFS_GIF__ERROR_INVALID_I_O_OPERATION 0x80000005 true false;
    mkLine WUFFS_GIF__ERROR_CLOSED_FOR_WRITES 0x80000006 true false;
    mkLine WUFFS_GIF__ERROR_UNEXPECTED_EOF 0x80000007 true false;
    mkLine WUFFS_GIF__SUSPENSION_SHORT_READ 0x00000008 false false;
    mkLine WUFFS_GIF__SUSPENSION_SHORT_WRITE 0x00000009 false false;
    mkLine WUFFS_GIF__ERROR_BAD_GIF_BLOCK 0xbe161800 true true;
    mkLine WUFFS_GIF__ERROR_BAD_GIF_EXTENSION_LABEL 0xbe161801 true true;
    mkLine WUFFS_GIF__ERROR_BAD_GIF_HEADER 0xbe161802 true true;
    mkLine WUFFS_GIF__ERROR_BAD_LZW_LITERAL_WIDTH 0xbe161803 true true;
    mkLine WUFFS_GIF__ERROR_INTERNAL_ERROR_INCONSISTENT_LIMITED_READ
      0xbe161804 true true;
    mkLine WUFFS_GIF__ERROR_TODO_UNSUPPORTED_LOCAL_COLOR_TABLE
      0xbe161805 true true;
    mkLine WUFFS_GIF__ERROR_LZW_CODE_IS_OUT_OF_RANGE 0xbe161806 true true;
    mkLine WUFFS_GIF__ERROR_LZW_PREFIX_CHAIN_IS_CYCLICAL 0xbe161807 true true ].

(** The fields of a status: the sign bit, bits 10 to 30, bits 8 and 9,
    bits 0 to 7 of the two's complement form. *)
Definition signBit (s : Z) : bool := Z.testbit s 31.
Definition packageidOf (s : Z) : Z := Z.land (Z.shiftr s 10) (2 ^ 21 - 1).
Definition reservedOf (s : Z) : Z := Z.land (Z.shiftr s 8) 3.
Definition codeOf (s : Z) : Z := Z.land s 255.

(** A line that agrees with the layout. *)
Definition wellFormed (l : line) : Prop :=
  - 2 ^ 31 <= value l < 2 ^ 31
  /\ value l mod 2 ^ 32 = hex l
  /\ signBit (value l) = namedError l
  /\ packageidOf (value l) = (if ofPackage l then wuffs_gif__packageid else 0)
  /\ reservedOf (value l) = 0.

End gif.

(** ** Induction on expressions and type expressions together *)

Section Expr_TypeExpr_ind.

Variable P : Expr -> Prop.
Variable Q : TypeExpr -> Prop.

Hypothesis HOther : forall id0 id1, P (ExprOther id0 id1).
Hypothesis HUnary : forall op rhs, P rhs -> P (ExprUnaryOp op rhs).
Hypothesis HBinary :
  forall op lhs rhs, P lhs -> P rhs -> P (ExprBinaryOp op lhs rhs).
Hypothesis HAs : forall lhs t, P lhs -> Q t -> P (ExprAs lhs t).
Hypothesis HAssociative : forall k, P (ExprAssociativeOp k).
Hypothesis HSeveral : forall k, P (ExprSeveralFlags k).
Hypothesis HName :
  forall name inclMin exclMax,
    whenSome P inclMin -> whenSome P exclMax ->
    Q (TypeExprName name inclMin exclMax).
Hypothesis HPtr : forall inner, whenSome Q inner -> Q (TypeExprPtr inner).
Hypothesis HArray :
  forall aLen inner, P aLen -> whenSome Q inner -> Q (TypeExprArray aLen inner).
Hypothesis HOtherType : forall p name, Q (TypeExprOther p name).

Fixpoint Expr_mutual_ind (n : Expr) {struct n} : P n :=
  match n with
  | ExprOther id0 id1 => HOther id0 id1
  | ExprUnaryOp op rhs => HUnary op rhs (Expr_mutual_ind rhs)
  | ExprBinaryOp op lhs rhs =>
      HBinary op lhs rhs (Expr_mutual_ind lhs) (Expr_mutual_ind rhs)
  | ExprAs lhs t => HAs lhs t (Expr_mutual_ind lhs) (TypeExpr_mutual_ind t)
  | ExprAssociativeOp k => HAssociative k
  | ExprSeveralFlags k => HSeveral k
  end
with TypeExpr_mutual_ind (t : TypeExpr) {struct t} : Q t :=
  match t with
  | TypeExprName name inclMin exclMax =>
      HName name inclMin exclMax
        (match inclMin as o return whenSome P o with
         | Some b => Expr_mutual_ind b
         | None => I
         end)
        (match exclMax as o return whenSome P o with
         | Some b => Expr_mutual_ind b
         | None => I
         end)
  | TypeExprPtr inner =>
      HPtr inner
        (match inner as o return whenSome Q o with
         | Some u => TypeExpr_mutual_ind u
         | None => I
         end)
  | TypeExprArray aLen inner =>
      HArray aLen inner (Expr_mutual_ind aLen)
        (match inner as o return whenSome Q o with
         | Some u => TypeExpr_mutual_ind u
         | None => I
         end)
  | TypeExprOther p name => HOtherType p name
  end.

Lemma Expr_TypeExpr_ind : (forall n, P n) /\ (forall t, Q t).
Proof. split; [exact Expr_mutual_ind | exact TypeExpr_mutual_ind]. Qed.

End Expr_TypeExpr_ind.

(** Induction on statements, through the bodies and the else-if chain. *)
Section Node_If_ind.

Variable P : Node -> Prop.
Variable R : If -> Prop.

Hypothesis HAssert : forall c, P (KAssert c).
Hypothesis HAssign : forall l op r, P (KAssign l op r).
Hypothesis HVar : forall name xType value, P (KVar name xType value).
Hypothesis HWhile : forall c body, Forall P body -> P (KWhile c body).
Hypothesis HIf : forall o, R o -> P (KIf o).
Hypothesis HReturn : forall v, P (KReturn v).
Hypothesis HBreak : P KBreak.
Hypothesis HContinue : P KContinue.
Hypothesis HOther : forall k ls, Forall (Forall P) ls -> P (KOther k ls).
Hypothesis HmkIf :
  forall c t f e, Forall P t -> Forall P f -> whenSome R e -> R (mkIf c t f e).

Fixpoint Node_mutual_ind (n : Node) {struct n} : P n :=
  let go := fix go (l : list Node) : Forall P l :=
    match l with
    | [] => List.Forall_nil P
    | m :: l' => List.Forall_cons P m l' (Node_mutual_ind m) (go l')
    end in
  match n with
  | KAssert c => HAssert c
  | KAssign l op r => HAssign l op r
  | KVar name xType value => HVar name xType value
  | KWhile c body => HWhile c body (go body)
  | KIf o => HIf o (If_mutual_ind o)
  | KReturn v => HReturn v
  | KBreak => HBreak
  | KContinue => HContinue
  | KOther k ls =>
      HOther k ls
        ((fix gos (ls : list (list Node)) : Forall (Forall P) ls :=
            match ls with
            | [] => List.Forall_nil (Forall P)
            | l :: ls' => List.Forall_cons (Forall P) l ls' (go l) (gos ls')
            end) ls)
  end
with If_mutual_ind (o : If) {struct o} : R o :=
  let go := fix go (l : list Node) : Forall P l :=
    match l with
    | [] => List.Forall_nil P
    | m :: l' => List.Forall_cons P m l' (Node_mutual_ind m) (go l')
    end in
  match o with
  | mkIf c t f e =>
      HmkIf c t f e (go t) (go f)
        (match e as x return whenSome R x with
         | Some o' => If_mutual_ind o'
         | None => I
         end)
  end.

End Node_If_ind.

(** * Properties *)

(** ** Reading an operand *)

Lemma operand_Ok (c : checked) (t : MTypePtr) (cv : option Z) :
  operand c = Ok (t, cv) ->
  exists a, c = (a, Ok tt) /\ MType a = Some t /\ ConstValue a = cv.
Proof.
  destruct c as [a [[]|e|]]; simpl; try discriminate.
  destruct (MType a) as [t'|] eqn:Ht; try discriminate.
  intros H. injection H as <- <-. exists a. auto.
Qed.

Lemma operand_of_Ok (a : Annot) (t : MTypePtr) :
  MType a = Some t -> operand (a, Ok tt) = Ok (t, ConstValue a).
Proof. intros H. simpl. rewrite H. reflexivity. Qed.

(** Two tactics for goals [(a1, r1) = (a2, r2) -> _], after the function
    has been split into its cases. *)
Ltac by_pair :=
  let Hp := fresh "Hp" in
  intros Hp; injection Hp; intros; subst; try reflexivity; congruence.

Ltac typed_pair :=
  let Hp := fresh "Hp" in
  intros Hp; injection Hp; intros; subst; try discriminate; simpl; eauto.

(** ** What [setConstValueBinaryOp] leaves in the node *)

Lemma setConstValueBinaryOp_MType op n l r n' res :
  setConstValueBinaryOp op n l r = (n', res) -> MType n' = MType n.
Proof.
  unfold setConstValueBinaryOp.
  destruct op; repeat case_match; by_pair.
Qed.

Lemma setConstValueBinaryOp_Err op n l r n' e :
  setConstValueBinaryOp op n l r = (n', Err e) -> n' = n.
Proof.
  unfold setConstValueBinaryOp.
  destruct op; repeat case_match; by_pair.
Qed.

Lemma setConstValueBinaryOp_no_Panic op n l r n' :
  setConstValueBinaryOp op n l r <> (n', Panic).
Proof.
  unfold setConstValueBinaryOp.
  destruct op; repeat case_match; congruence.
Qed.

Section checkExprFacts.

Variable SetString : string -> option Z.
Variable typeMap : option (gmap ID TypeExpr).

Abbreviation checkExpr := (checkExpr SetString typeMap).
Abbreviation checkTypeExpr := (checkTypeExpr SetString typeMap).

(** A node that fails to check keeps the annotation it had. *)
Lemma checkExpr_Err_untouched (n : Expr) (a a' : Annot) (e : error) :
  checkExpr n a = (a', Err e) -> a' = a.
Proof.
  destruct n as [id0 id1|op rhs|op lhs rhs|lhs rhs|k|k]; simpl.
  - unfold checkExprOther.
    repeat case_match; by_pair.
  - unfold checkExprUnaryOp.
    repeat case_match; by_pair.
  - unfold checkExprBinaryOp.
    destruct (operand (checkExpr lhs unannotated)) as [[lTyp lcv]|?|];
      [|by_pair..].
    destruct (operand (checkExpr rhs unannotated)) as [[rTyp rcv]|?|];
      [|by_pair..].
    destruct (checkOperandKinds op lTyp rTyp);
      [|by_pair..].
    destruct (checkOperandTypes op lTyp rTyp);
      [|by_pair..].
    destruct lcv as [l|], rcv as [r|];
      try (repeat case_match; by_pair).
    destruct (setConstValueBinaryOp op a l r) as [n1 [[]|e1|]] eqn:Hs.
    + repeat case_match; by_pair.
    + apply setConstValueBinaryOp_Err in Hs. by_pair.
    + by_pair.
  - unfold checkExprBinaryAs.
    repeat case_match; by_pair.
  - unfold checkExprAssociativeOp. by_pair.
  - by_pair.
Qed.

(** Every expression that the checker accepts carries a type. *)
Lemma checkExpr_Ok_typed (n : Expr) (a a' : Annot) :
  checkExpr n a = (a', Ok tt) -> is_Some (MType a').
Proof.
  destruct n as [id0 id1|op rhs|op lhs rhs|lhs rhs|k|k]; simpl.
  - unfold checkExprOther.
    repeat case_match; typed_pair.
  - unfold checkExprUnaryOp.
    repeat case_match; typed_pair.
  - unfold checkExprBinaryOp.
    repeat case_match; typed_pair.
  - unfold checkExprBinaryAs.
    repeat case_match; typed_pair.
  - unfold checkExprAssociativeOp. discriminate.
  - discriminate.
Qed.

Lemma checkExpr_operand (n : Expr) (a : Annot) :
  checkExpr n unannotated = (a, Ok tt) ->
  exists t, MType a = Some t /\
            operand (checkExpr n unannotated) = Ok (t, ConstValue a).
Proof.
  intros H. destruct (checkExpr_Ok_typed _ _ _ H) as [t Ht].
  exists t. split; [exact Ht|]. rewrite H. apply operand_of_Ok, Ht.
Qed.

(** A constant is an ideal number or a Boolean: nothing else is folded. *)
Lemma checkExpr_const_type (n : Expr) :
  forall (a a' : Annot) (z : Z),
    ConstValue a = None ->
    checkExpr n a = (a', Ok tt) ->
    ConstValue a' = Some z ->
    idealOrBoolean (MType a').
Proof.
  induction n as [id0 id1|op rhs IHr|op lhs IHl rhs IHr|lhs IHl rhs|k|k];
    intros a a' z Ha; simpl.
  - unfold checkExprOther, idealOrBoolean.
    repeat case_match; intros Hp; injection Hp as <-; simpl;
      try discriminate; try congruence; auto.
  - unfold checkExprUnaryOp.
    destruct (operand (checkExpr rhs unannotated)) as [[rTyp rcv]|?|] eqn:Hr;
      try discriminate.
    apply operand_Ok in Hr as (ar & Hr & Hrt & Hrc).
    destruct op; try discriminate.
    + destruct (numeric rTyp); try discriminate; simpl.
      destruct rcv as [cv|]; intros Hp; injection Hp as <-; simpl;
        [|congruence].
      intros _. rewrite <- Hrt. exact (IHr unannotated ar cv eq_refl Hr Hrc).
    + destruct (numeric rTyp); try discriminate; simpl.
      destruct rcv as [cv|]; intros Hp; injection Hp as <-; simpl;
        [|congruence].
      intros _. rewrite <- Hrt. exact (IHr unannotated ar cv eq_refl Hr Hrc).
    + destruct (Eq rTyp TypeExprBoolean); try discriminate; simpl.
      intros Hp; injection Hp as <-; simpl. intros _; right; reflexivity.
  - unfold checkExprBinaryOp.
    destruct (operand (checkExpr lhs unannotated)) as [[lTyp lcv]|?|] eqn:Hl;
      try discriminate.
    destruct (operand (checkExpr rhs unannotated)) as [[rTyp rcv]|?|] eqn:Hr;
      try discriminate.
    apply operand_Ok in Hl as (al & Hl & Hlt & Hlc).
    apply operand_Ok in Hr as (ar & Hr & Hrt & Hrc).
    destruct (checkOperandKinds op lTyp rTyp); try discriminate.
    destruct (checkOperandTypes op lTyp rTyp); try discriminate.
    destruct lcv as [l|], rcv as [r|].
    + assert (Hli : idealOrBoolean (Some lTyp)).
      { rewrite <- Hlt. exact (IHl unannotated al l eq_refl Hl Hlc). }
      assert (Hri : idealOrBoolean (Some rTyp)).
      { rewrite <- Hrt. exact (IHr unannotated ar r eq_refl Hr Hrc). }
      destruct (setConstValueBinaryOp op a l r) as [n1 [[]|?|]];
        try discriminate.
      destruct (comparisonOps op).
      * intros Hp; injection Hp as <-. intros _. right; reflexivity.
      * destruct (isIdealNumber lTyp) eqn:Hi; simpl;
          intros Hp; injection Hp as <-; intros _; assumption.
    + repeat case_match; intros Hp; injection Hp as <-; simpl; congruence.
    + repeat case_match; intros Hp; injection Hp as <-; simpl; congruence.
    + repeat case_match; intros Hp; injection Hp as <-; simpl; congruence.
  - unfold checkExprBinaryAs.
    repeat case_match; intros Hp; injection Hp as <-; simpl;
      try discriminate; congruence.
  - unfold checkExprAssociativeOp. discriminate.
  - discriminate.
Qed.

(** A constant of numeric type is an ideal number. *)
Lemma numeric_const_ideal (n : Expr) (t : MTypePtr) (z : Z) :
  operand (checkExpr n unannotated) = Ok (t, Some z) ->
  numeric t = true ->
  t = TypeExprIdealNumber.
Proof.
  intros Ho Hn. apply operand_Ok in Ho as (a & Hc & Ht & Hz).
  destruct (checkExpr_const_type n unannotated a z eq_refl Hc Hz) as [H|H];
    rewrite Ht in H; injection H as ->; [reflexivity|discriminate].
Qed.

End checkExprFacts.

(** ** Euclidean division *)

Lemma big_Div_euclid (l r : Z) :
  r <> 0 ->
  exists m, l = big.Div l r * r + m /\ 0 <= m < Z.abs r.
Proof.
  intros Hr. unfold big.Div.
  pose proof (Z.quot_rem' l r) as Hqr.
  pose proof (Z.rem_bound_abs l r Hr) as Hb.
  destruct (Z.rem l r <? 0) eqn:Hneg.
  - apply Z.ltb_lt in Hneg.
    destruct (r <? 0) eqn:Hrn.
    + apply Z.ltb_lt in Hrn. exists (Z.rem l r - r). split; lia.
    + apply Z.ltb_ge in Hrn. exists (Z.rem l r + r). split; lia.
  - apply Z.ltb_ge in Hneg. exists (Z.rem l r). split; lia.
Qed.

Lemma euclid_unique (l r q m q' m' : Z) :
  l = q * r + m -> 0 <= m < Z.abs r ->
  l = q' * r + m' -> 0 <= m' < Z.abs r ->
  q' = q.
Proof.
  intros H1 Hm H2 Hm'.
  assert (Hd : (q' - q) * r = m - m') by lia.
  destruct (Z.eq_dec q' q) as [|Hne]; [assumption|exfalso].
  assert (Z.abs ((q' - q) * r) >= Z.abs r).
  { rewrite Z.abs_mul. assert (1 <= Z.abs (q' - q)) by lia. nia. }
  lia.
Qed.

(** ** Comparisons *)

Lemma Cmp_eqb (x y : Z) : (big.Cmp x y =? 0) = (x =? y).
Proof.
  unfold big.Cmp. destruct (x ?= y) eqn:Hc; simpl; symmetry.
  - apply Z.eqb_eq, Z.compare_eq, Hc.
  - apply Z.eqb_neq. rewrite Z.compare_lt_iff in Hc. lia.
  - apply Z.eqb_neq. rewrite Z.compare_gt_iff in Hc. lia.
Qed.

Lemma Cmp_ltb (x y : Z) : (big.Cmp x y <? 0) = (x <? y).
Proof.
  unfold big.Cmp. destruct (x ?= y) eqn:Hc; simpl; symmetry.
  - apply Z.ltb_ge. apply Z.compare_eq in Hc. lia.
  - apply Z.ltb_lt. rewrite Z.compare_lt_iff in Hc. lia.
  - apply Z.ltb_ge. rewrite Z.compare_gt_iff in Hc. lia.
Qed.

Lemma Cmp_gtb (x y : Z) : (big.Cmp x y >? 0) = (y <? x).
Proof.
  unfold big.Cmp. destruct (x ?= y) eqn:Hc; simpl; symmetry.
  - apply Z.ltb_ge. apply Z.compare_eq in Hc. lia.
  - apply Z.ltb_ge. rewrite Z.compare_lt_iff in Hc. lia.
  - apply Z.ltb_lt. rewrite Z.compare_gt_iff in Hc. lia.
Qed.

Lemma isIdealNumber_true (t : MTypePtr) :
  isIdealNumber t = true <-> t = TypeExprIdealNumber.
Proof. destruct t; simpl; split; congruence. Qed.

(** ** Folding two numeric constants *)

Section folding.

Variable SetString : string -> option Z.
Variable typeMap : option (gmap ID TypeExpr).

Abbreviation checkExpr := (checkExpr SetString typeMap).
Abbreviation checkTypeExpr := (checkTypeExpr SetString typeMap).

(** With two constants of numeric type, an arithmetic, bitwise, shift or
    comparison operator passes both switches on the operator and reaches
    [setConstValueBinaryOp]; the node gets the Boolean type for a comparison
    and the ideal number otherwise. *)
Lemma checkExprBinaryOp_numeric_constants
    (op : BinaryOp) (lhs rhs : Expr) (lTyp rTyp : MTypePtr) (l r : Z) (a : Annot) :
  operand (checkExpr lhs unannotated) = Ok (lTyp, Some l) ->
  operand (checkExpr rhs unannotated) = Ok (rTyp, Some r) ->
  numeric lTyp = true ->
  numeric rTyp = true ->
  op <> IDXBinaryAnd -> op <> IDXBinaryOr ->
  checkExpr (ExprBinaryOp op lhs rhs) a =
    match setConstValueBinaryOp op a l r with
    | (n, Ok _) =>
        (SetMType (if comparisonOps op then TypeExprBoolean
                   else TypeExprIdealNumber) n, Ok tt)
    | (n, res) => (n, res)
    end.
Proof.
  intros Hl Hr Hnl Hnr Hand Hor.
  pose proof (numeric_const_ideal _ _ _ _ _ Hl Hnl) as ->.
  pose proof (numeric_const_ideal _ _ _ _ _ Hr Hnr) as ->.
  simpl. unfold checkExprBinaryOp. rewrite Hl, Hr.
  destruct op; try congruence; simpl;
    repeat case_match; try reflexivity; congruence.
Qed.

(** An error in a bound or in an array length is the error of the type
    expression. *)
Lemma checkTypeExpr_inclMin_Err (name : ID) (bound : Expr) (exclMax : option Expr)
    (a : Annot) (e : error) :
  IsNumType name || bool_decide (name = IDBool) = true ->
  checkExpr bound unannotated = (a, Err e) ->
  checkTypeExpr (TypeExprName name (Some bound) exclMax) = Err e.
Proof. intros Hn Hb. simpl. rewrite Hn. simpl. rewrite Hb. reflexivity. Qed.

Lemma checkTypeExpr_arrayLength_Err (aLen : Expr) (inner : option TypeExpr)
    (a : Annot) (e : error) :
  checkExpr aLen unannotated = (a, Err e) ->
  checkTypeExpr (TypeExprArray aLen inner) = Err e.
Proof. intros Hb. simpl. rewrite Hb. reflexivity. Qed.

End folding.

(** ** Division *)

(** C1, as the code has it: a division whose two operands are constants of
    numeric type and whose divisor is zero fails with the division-by-zero
    error, the node is left as it was (no constant value is attached), and
    the same error comes out of a type expression that has the division as a
    refinement bound or as an array length. *)
Theorem C1_constant_division_by_zero
    (SetString : string -> option Z) (typeMap : option (gmap ID TypeExpr))
    (lhs rhs : Expr) (lTyp rTyp : MTypePtr) (l : Z) (a : Annot) :
  operand (checkExpr SetString typeMap lhs unannotated) = Ok (lTyp, Some l) ->
  operand (checkExpr SetString typeMap rhs unannotated) = Ok (rTyp, Some 0) ->
  numeric lTyp = true ->
  numeric rTyp = true ->
  let n := ExprBinaryOp IDXBinarySlash lhs rhs in
  checkExpr SetString typeMap n a = (a, Err ErrDivisionByZero)
  /\ kindOf ErrDivisionByZero = DivisionByZero
  /\ (forall name exclMax,
        IsNumType name || bool_decide (name = IDBool) = true ->
        checkTypeExpr SetString typeMap (TypeExprName name (Some n) exclMax)
        = Err ErrDivisionByZero)
  /\ (forall inner,
        checkTypeExpr SetString typeMap (TypeExprArray n inner)
        = Err ErrDivisionByZero).
Proof.
  intros Hl Hr Hnl Hnr n.
  assert (Hn : forall a, checkExpr SetString typeMap n a = (a, Err ErrDivisionByZero)).
  { intros a0. unfold n.
    rewrite (checkExprBinaryOp_numeric_constants _ _ _ _ _ _ _ _ _ _ Hl Hr Hnl Hnr)
      by discriminate.
    reflexivity. }
  split; [apply Hn|]. split; [reflexivity|]. split.
  - intros name exclMax Hname.
    eapply checkTypeExpr_inclMin_Err; [exact Hname|apply Hn].
  - intros inner. eapply checkTypeExpr_arrayLength_Err. apply Hn.
Qed.

Lemma C1_constant_division_by_zero_witness :
  let n := ExprBinaryOp IDXBinarySlash (lit "7") (lit "0") in
  checkExpr readNumber scopeXY n unannotated = (unannotated, Err ErrDivisionByZero)
  /\ kindOf ErrDivisionByZero = DivisionByZero
  /\ (forall name exclMax,
        IsNumType name || bool_decide (name = IDBool) = true ->
        checkTypeExpr readNumber scopeXY (TypeExprName name (Some n) exclMax)
        = Err ErrDivisionByZero)
  /\ (forall inner,
        checkTypeExpr readNumber scopeXY (TypeExprArray n inner)
        = Err ErrDivisionByZero).
Proof.
  apply (C1_constant_division_by_zero readNumber scopeXY (lit "7") (lit "0")
           TypeExprIdealNumber TypeExprIdealNumber 7 unannotated);
    reflexivity.
Defined.

(** The claim C1 as it is written fails: in the scope of [var x : u32] the
    division [x / 0] has the constant zero as its divisor and is accepted,
    with the type of [x] and no constant value. *)
Lemma C1_counterexample :
  operand (checkExpr readNumber scopeXY (lit "0") unannotated)
    = Ok (TypeExprIdealNumber, Some 0)
  /\ checkExpr readNumber scopeXY
       (ExprBinaryOp IDXBinarySlash (var "x") (lit "0")) unannotated
     = ({| ConstValue := None; MType := Some (TypeExprAt (numType "u32")) |},
        Ok tt).
Proof. split; vm_compute; reflexivity. Qed.

(** With operands that are not numeric the error is another one: [true / 0]
    is rejected because [true] is not a number. *)
Example true_divided_by_zero :
  checkExpr readNumber scopeXY
    (ExprBinaryOp IDXBinarySlash true_ (lit "0")) unannotated
  = (unannotated, Err ErrBinaryNotNumeric).
Proof. vm_compute; reflexivity. Qed.

(** C10: folding a division of the constants [l] and [r], with [r] not
    zero, attaches the Euclidean quotient: the one integer [q] for which
    [l = q * r + m] with [0 <= m < |r|].  It is what
    [setConstValueBinaryOp] puts in the node, and what the division of two
    operands with these constants and numeric types is checked to. *)
Theorem C10_division_is_euclidean
    (SetString : string -> option Z) (typeMap : option (gmap ID TypeExpr))
    (lhs rhs : Expr) (lTyp rTyp : MTypePtr) (l r : Z) (a : Annot) :
  r <> 0 ->
  exists q,
    setConstValueBinaryOp IDXBinarySlash a l r = (SetConstValue q a, Ok tt)
    /\ (operand (checkExpr SetString typeMap lhs unannotated) = Ok (lTyp, Some l) ->
        operand (checkExpr SetString typeMap rhs unannotated) = Ok (rTyp, Some r) ->
        numeric lTyp = true ->
        numeric rTyp = true ->
        checkExpr SetString typeMap (ExprBinaryOp IDXBinarySlash lhs rhs) a
        = (SetMType TypeExprIdealNumber (SetConstValue q a), Ok tt))
    /\ (exists m, l = q * r + m /\ 0 <= m < Z.abs r)
    /\ (forall q' m', l = q' * r + m' -> 0 <= m' < Z.abs r -> q' = q).
Proof.
  intros Hr0.
  exists (big.Div l r).
  destruct (big_Div_euclid l r Hr0) as (m & Hm & Hb).
  assert (Hs : setConstValueBinaryOp IDXBinarySlash a l r
               = (SetConstValue (big.Div l r) a, Ok tt)).
  { simpl. rewrite Cmp_eqb. unfold zero.
    destruct (r =? 0) eqn:Hz; [|reflexivity].
    apply Z.eqb_eq in Hz. contradiction. }
  split; [exact Hs|]. split; [|split].
  - intros Hl Hr Hnl Hnr.
    rewrite (checkExprBinaryOp_numeric_constants _ _ _ _ _ _ _ _ _ _ Hl Hr Hnl Hnr)
      by discriminate.
    rewrite Hs. reflexivity.
  - exists m. auto.
  - intros q' m' Hq' Hm'. eapply euclid_unique; eauto.
Qed.

Lemma C10_division_is_euclidean_witness :
  let lhs := ExprUnaryOp IDXUnaryMinus (lit "7") in
  let rhs := lit "2" in
  2 <> 0 /\
  exists q,
    setConstValueBinaryOp IDXBinarySlash unannotated (-7) 2
      = (SetConstValue q unannotated, Ok tt)
    /\ (operand (checkExpr readNumber scopeXY lhs unannotated)
          = Ok (TypeExprIdealNumber, Some (-7)) ->
        operand (checkExpr readNumber scopeXY rhs unannotated)
          = Ok (TypeExprIdealNumber, Some 2) ->
        numeric TypeExprIdealNumber = true ->
        numeric TypeExprIdealNumber = true ->
        checkExpr readNumber scopeXY (ExprBinaryOp IDXBinarySlash lhs rhs)
          unannotated
        = (SetMType TypeExprIdealNumber (SetConstValue q unannotated), Ok tt))
    /\ (exists m, -7 = q * 2 + m /\ 0 <= m < Z.abs 2)
    /\ (forall q' m', -7 = q' * 2 + m' -> 0 <= m' < Z.abs 2 -> q' = q).
Proof.
  intros lhs rhs. split; [lia|].
  apply (C10_division_is_euclidean readNumber scopeXY lhs rhs
           TypeExprIdealNumber TypeExprIdealNumber (-7) 2 unannotated).
  lia.
Defined.

(** The quotient of -7 by 2 is -4, and that of 7 by -2 is -3. *)
Example minus_seven_by_two :
  checkExpr readNumber scopeXY
    (ExprBinaryOp IDXBinarySlash (ExprUnaryOp IDXUnaryMinus (lit "7")) (lit "2"))
    unannotated
  = ({| ConstValue := Some (-4); MType := Some TypeExprIdealNumber |}, Ok tt).
Proof. vm_compute; reflexivity. Qed.

Example seven_by_minus_two :
  checkExpr readNumber scopeXY
    (ExprBinaryOp IDXBinarySlash (lit "7") (ExprUnaryOp IDXUnaryMinus (lit "2")))
    unannotated
  = ({| ConstValue := Some (-3); MType := Some TypeExprIdealNumber |}, Ok tt).
Proof. vm_compute; reflexivity. Qed.

(** ** Shifts *)

(** C3, as the code has it: for a shift whose two operands are constants of
    numeric type, an amount below 0 or above 65535 gives the
    shift-out-of-range error and leaves the node as it was; an amount within
    the range is folded, to [l * 2^r] for [<<] and to the floor of
    [l / 2^r] for [>>], with the type of an ideal number. *)
Theorem C3_constant_shift
    (SetString : string -> option Z) (typeMap : option (gmap ID TypeExpr))
    (op : BinaryOp) (lhs rhs : Expr) (lTyp rTyp : MTypePtr) (l r : Z) (a : Annot) :
  op = IDXBinaryShiftL \/ op = IDXBinaryShiftR ->
  operand (checkExpr SetString typeMap lhs unannotated) = Ok (lTyp, Some l) ->
  operand (checkExpr SetString typeMap rhs unannotated) = Ok (rTyp, Some r) ->
  numeric lTyp = true ->
  numeric rTyp = true ->
  (r < 0 \/ 65535 < r ->
     checkExpr SetString typeMap (ExprBinaryOp op lhs rhs) a
       = (a, Err ErrShiftOutOfRange)
     /\ kindOf ErrShiftOutOfRange = ShiftOutOfRange)
  /\ (0 <= r <= 65535 ->
     checkExpr SetString typeMap (ExprBinaryOp op lhs rhs) a
       = (SetMType TypeExprIdealNumber
            (SetConstValue
               (if bool_decide (op = IDXBinaryShiftL) then l * 2 ^ r
                else l / 2 ^ r) a),
          Ok tt)).
Proof.
  intros Hop Hl Hr Hnl Hnr.
  assert (Hc : checkExpr SetString typeMap (ExprBinaryOp op lhs rhs) a =
               if (r <? 0) || (65535 <? r) then (a, Err ErrShiftOutOfRange)
               else (SetMType TypeExprIdealNumber
                       (SetConstValue
                          (if bool_decide (op = IDXBinaryShiftL)
                           then Z.shiftl l r else Z.shiftr l r) a), Ok tt)).
  { rewrite (checkExprBinaryOp_numeric_constants _ _ _ _ _ _ _ _ _ _ Hl Hr Hnl Hnr)
      by (destruct Hop; subst; discriminate).
    destruct Hop; subst op; simpl;
      rewrite Cmp_ltb, Cmp_gtb; unfold zero, ffff;
      destruct ((r <? 0) || (65535 <? r)); reflexivity. }
  split.
  - intros Hout. split; [|reflexivity]. rewrite Hc.
    assert ((r <? 0) || (65535 <? r) = true) as ->; [|reflexivity].
    apply orb_true_iff. rewrite !Z.ltb_lt. exact Hout.
  - intros Hin. rewrite Hc.
    assert ((r <? 0) || (65535 <? r) = false) as ->.
    { apply orb_false_iff. rewrite !Z.ltb_ge. lia. }
    rewrite Z.shiftl_mul_pow2, Z.shiftr_div_pow2 by lia. reflexivity.
Qed.

Lemma C3_constant_shift_witness :
  (checkExpr readNumber scopeXY
     (ExprBinaryOp IDXBinaryShiftL (lit "1") (lit "65536")) unannotated
   = (unannotated, Err ErrShiftOutOfRange)
   /\ kindOf ErrShiftOutOfRange = ShiftOutOfRange)
  /\ checkExpr readNumber scopeXY
       (ExprBinaryOp IDXBinaryShiftR (ExprUnaryOp IDXUnaryMinus (lit "7")) (lit "1"))
       unannotated
     = ({| ConstValue := Some (-4); MType := Some TypeExprIdealNumber |}, Ok tt).
Proof.
  split.
  - apply (C3_constant_shift readNumber scopeXY IDXBinaryShiftL
             (lit "1") (lit "65536")
             TypeExprIdealNumber TypeExprIdealNumber 1 65536 unannotated);
      try reflexivity; [left; reflexivity | right; lia].
  - apply (C3_constant_shift readNumber scopeXY IDXBinaryShiftR
             (ExprUnaryOp IDXUnaryMinus (lit "7")) (lit "1")
             TypeExprIdealNumber TypeExprIdealNumber (-7) 1 unannotated);
      try reflexivity; [right; reflexivity | lia].
Defined.

(** The claim C3 as it is written fails: both operands of [true << 70000]
    are constants and the amount is out of range, but the error is that
    [true] is not a number. *)
Lemma C3_counterexample :
  operand (checkExpr readNumber scopeXY true_ unannotated)
    = Ok (TypeExprBoolean, Some 1)
  /\ operand (checkExpr readNumber scopeXY (lit "70000") unannotated)
    = Ok (TypeExprIdealNumber, Some 70000)
  /\ checkExpr readNumber scopeXY
       (ExprBinaryOp IDXBinaryShiftL true_ (lit "70000")) unannotated
     = (unannotated, Err ErrBinaryNotNumeric)
  /\ kindOf ErrBinaryNotNumeric <> ShiftOutOfRange.
Proof. repeat split; try (vm_compute; reflexivity). discriminate. Qed.

(** ** The types of the two operands *)

Lemma checkExprBinaryOp_Ok_inv
    (SetString : string -> option Z) (typeMap : option (gmap ID TypeExpr))
    (op : BinaryOp) (lhs rhs : Expr) (a a' : Annot) :
  checkExpr SetString typeMap (ExprBinaryOp op lhs rhs) a = (a', Ok tt) ->
  exists lTyp lcv rTyp rcv,
    operand (checkExpr SetString typeMap lhs unannotated) = Ok (lTyp, lcv)
    /\ operand (checkExpr SetString typeMap rhs unannotated) = Ok (rTyp, rcv)
    /\ checkOperandKinds op lTyp rTyp = Ok tt
    /\ checkOperandTypes op lTyp rTyp = Ok tt
    /\ MType a' = Some (if comparisonOps op then TypeExprBoolean
                        else if isIdealNumber lTyp then rTyp else lTyp).
Proof.
  simpl. unfold checkExprBinaryOp.
  destruct (operand (checkExpr SetString typeMap lhs unannotated))
    as [[lTyp lcv]|?|]; try discriminate.
  destruct (operand (checkExpr SetString typeMap rhs unannotated))
    as [[rTyp rcv]|?|]; try discriminate.
  destruct (checkOperandKinds op lTyp rTyp) as [[]|?|] eqn:Hk; try discriminate.
  destruct (checkOperandTypes op lTyp rTyp) as [[]|?|] eqn:Ht; try discriminate.
  intros H. exists lTyp, lcv, rTyp, rcv.
  split; [reflexivity|]. split; [reflexivity|].
  split; [exact Hk|]. split; [exact Ht|].
  destruct (match lcv with
            | Some l => match rcv with
                        | Some r => setConstValueBinaryOp op a l r
                        | None => (a, Ok tt)
                        end
            | None => (a, Ok tt)
            end) as [n1 [[]|?|]]; try discriminate.
  destruct (comparisonOps op); [injection H as <-; reflexivity|].
  destruct (isIdealNumber lTyp); injection H as <-; reflexivity.
Qed.

(** C2, as the code has it: an operator other than [as], [<<] and [>>]
    is accepted only if the types of its operands are equal ignoring
    refinements or one of them is the ideal number; a shift is rejected
    when its left operand is an ideal number and its right operand is not,
    with the error of that case when the right operand is numeric. *)
Theorem C2_operand_types
    (SetString : string -> option Z) (typeMap : option (gmap ID TypeExpr))
    (op : BinaryOp) (lhs rhs : Expr) (a : Annot) :
  (op <> IDXBinaryShiftL -> op <> IDXBinaryShiftR ->
   forall a',
     checkExpr SetString typeMap (ExprBinaryOp op lhs rhs) a = (a', Ok tt) ->
     exists lTyp lcv rTyp rcv,
       operand (checkExpr SetString typeMap lhs unannotated) = Ok (lTyp, lcv)
       /\ operand (checkExpr SetString typeMap rhs unannotated) = Ok (rTyp, rcv)
       /\ (EqIgnoringRefinements lTyp rTyp = true
           \/ lTyp = TypeExprIdealNumber \/ rTyp = TypeExprIdealNumber))
  /\ (op = IDXBinaryShiftL \/ op = IDXBinaryShiftR ->
      forall lcv rTyp rcv,
        operand (checkExpr SetString typeMap lhs unannotated)
          = Ok (TypeExprIdealNumber, lcv) ->
        operand (checkExpr SetString typeMap rhs unannotated) = Ok (rTyp, rcv) ->
        rTyp <> TypeExprIdealNumber ->
        exists e,
          checkExpr SetString typeMap (ExprBinaryOp op lhs rhs) a = (a, Err e)
          /\ (numeric rTyp = true -> e = ErrShiftIdealByNonIdeal)).
Proof.
  split.
  - intros Hl Hr a' H.
    apply checkExprBinaryOp_Ok_inv in H
      as (lTyp & lcv & rTyp & rcv & Hlo & Hro & _ & Ht & _).
    exists lTyp, lcv, rTyp, rcv. split; [exact Hlo|]. split; [exact Hro|].
    rewrite <- !isIdealNumber_true.
    destruct (EqIgnoringRefinements lTyp rTyp) eqn:He; [left; reflexivity|].
    destruct (isIdealNumber lTyp) eqn:Hil; [right; left; reflexivity|].
    destruct (isIdealNumber rTyp) eqn:Hir; [right; right; reflexivity|].
    exfalso. unfold checkOperandTypes in Ht. rewrite He, Hil, Hir in Ht.
    destruct op; simpl in Ht; congruence.
  - intros Hop lcv rTyp rcv Hlo Hro Hni.
    assert (Hir : isIdealNumber rTyp = false).
    { destruct (isIdealNumber rTyp) eqn:Hi; [|reflexivity].
      apply isIdealNumber_true in Hi. contradiction. }
    simpl. unfold checkExprBinaryOp. rewrite Hlo, Hro.
    destruct Hop; subst op; simpl; unfold numeric; rewrite Hir; simpl;
      destruct (MType_IsNumType rTyp); simpl; eexists; split;
        try reflexivity; congruence.
Qed.

Lemma C2_operand_types_witness :
  (exists lTyp lcv rTyp rcv,
     operand (checkExpr readNumber scopeXY (var "x") unannotated) = Ok (lTyp, lcv)
     /\ operand (checkExpr readNumber scopeXY (lit "1") unannotated) = Ok (rTyp, rcv)
     /\ (EqIgnoringRefinements lTyp rTyp = true
         \/ lTyp = TypeExprIdealNumber \/ rTyp = TypeExprIdealNumber))
  /\ (exists e,
        checkExpr readNumber scopeXY
          (ExprBinaryOp IDXBinaryShiftL (lit "1") (var "y")) unannotated
        = (unannotated, Err e)
        /\ (numeric (TypeExprAt (numType "u8")) = true ->
            e = ErrShiftIdealByNonIdeal)).
Proof.
  split.
  - apply (proj1 (C2_operand_types readNumber scopeXY IDXBinaryPlus
                    (var "x") (lit "1") unannotated))
      with (a' := {| ConstValue := None;
                     MType := Some (TypeExprAt (numType "u32")) |});
      [discriminate | discriminate | vm_compute; reflexivity].
  - apply (proj2 (C2_operand_types readNumber scopeXY IDXBinaryShiftL
                    (lit "1") (var "y") unannotated))
      with (lcv := Some 1) (rcv := @None Z);
      [left; reflexivity | vm_compute; reflexivity | vm_compute; reflexivity
      | discriminate].
Defined.

(** The claim C2 as it is written fails: in the scope of
    [var x : u32; var y : u8] the shift [x << y] is accepted, although the
    two types are not equal ignoring refinements and neither is the ideal
    number. *)
Lemma C2_counterexample :
  operand (checkExpr readNumber scopeXY (var "x") unannotated)
    = Ok (TypeExprAt (numType "u32"), None)
  /\ operand (checkExpr readNumber scopeXY (var "y") unannotated)
    = Ok (TypeExprAt (numType "u8"), None)
  /\ EqIgnoringRefinements (TypeExprAt (numType "u32")) (TypeExprAt (numType "u8"))
     = false
  /\ checkExpr readNumber scopeXY
       (ExprBinaryOp IDXBinaryShiftL (var "x") (var "y")) unannotated
     = ({| ConstValue := None; MType := Some (TypeExprAt (numType "u32")) |},
        Ok tt).
Proof. repeat split; vm_compute; reflexivity. Qed.

(** ** The type of a binary expression *)

Lemma comparisonOps_true (op : BinaryOp) :
  comparisonOps op = true <->
  op = IDXBinaryNotEq \/ op = IDXBinaryLessThan \/ op = IDXBinaryLessEq
  \/ op = IDXBinaryEqEq \/ op = IDXBinaryGreaterEq \/ op = IDXBinaryGreaterThan.
Proof.
  split.
  - destruct op; simpl; try discriminate; intros _; tauto.
  - intros [->|[->|[->|[->|[->| ->]]]]]; reflexivity.
Qed.

(** C5, as the code has it: an accepted binary expression whose operator
    is not [as] has the Boolean type if the operator is one of the six
    comparisons; otherwise it has the type of the left operand if that is
    not the ideal number, and the type of the right operand if the left one
    is the ideal number (so the ideal number when both are).  An accepted
    [as] has the type it converts to. *)
Theorem C5_result_type
    (SetString : string -> option Z) (typeMap : option (gmap ID TypeExpr))
    (a a' : Annot) :
  (forall op lhs rhs,
     checkExpr SetString typeMap (ExprBinaryOp op lhs rhs) a = (a', Ok tt) ->
     exists lTyp lcv rTyp rcv,
       operand (checkExpr SetString typeMap lhs unannotated) = Ok (lTyp, lcv)
       /\ operand (checkExpr SetString typeMap rhs unannotated) = Ok (rTyp, rcv)
       /\ (comparisonOps op = true -> MType a' = Some TypeExprBoolean)
       /\ (comparisonOps op = false -> lTyp <> TypeExprIdealNumber ->
           MType a' = Some lTyp)
       /\ (comparisonOps op = false -> lTyp = TypeExprIdealNumber ->
           MType a' = Some rTyp))
  /\ (forall lhs rhs,
        checkExpr SetString typeMap (ExprAs lhs rhs) a = (a', Ok tt) ->
        MType a' = Some (TypeExprAt rhs)).
Proof.
  split.
  - intros op lhs rhs H.
    apply checkExprBinaryOp_Ok_inv in H
      as (lTyp & lcv & rTyp & rcv & Hlo & Hro & _ & _ & Ht).
    exists lTyp, lcv, rTyp, rcv. split; [exact Hlo|]. split; [exact Hro|].
    repeat split.
    + intros Hc. rewrite Hc in Ht. exact Ht.
    + intros Hc Hni. rewrite Hc in Ht.
      destruct (isIdealNumber lTyp) eqn:Hi; [|exact Ht].
      apply isIdealNumber_true in Hi. contradiction.
    + intros Hc ->. rewrite Hc in Ht. exact Ht.
  - intros lhs rhs. simpl. unfold checkExprBinaryAs.
    repeat case_match; intros Hp; injection Hp as <-; try discriminate.
    reflexivity.
Qed.

Lemma C5_result_type_witness :
  (exists lTyp lcv rTyp rcv,
     operand (checkExpr readNumber scopeXY (lit "1") unannotated) = Ok (lTyp, lcv)
     /\ operand (checkExpr readNumber scopeXY (var "y") unannotated) = Ok (rTyp, rcv)
     /\ (comparisonOps IDXBinaryPlus = true ->
         MType {| ConstValue := None; MType := Some (TypeExprAt (numType "u8")) |}
         = Some TypeExprBoolean)
     /\ (comparisonOps IDXBinaryPlus = false -> lTyp <> TypeExprIdealNumber ->
         MType {| ConstValue := None; MType := Some (TypeExprAt (numType "u8")) |}
         = Some lTyp)
     /\ (comparisonOps IDXBinaryPlus = false -> lTyp = TypeExprIdealNumber ->
         MType {| ConstValue := None; MType := Some (TypeExprAt (numType "u8")) |}
         = Some rTyp))
  /\ MType {| ConstValue := None; MType := Some (TypeExprAt (numType "u16")) |}
     = Some (TypeExprAt (numType "u16")).
Proof.
  split.
  - apply (proj1 (C5_result_type readNumber scopeXY unannotated
                    {| ConstValue := None;
                       MType := Some (TypeExprAt (numType "u8")) |})
             IDXBinaryPlus (lit "1") (var "y")).
    vm_compute; reflexivity.
  - apply (proj2 (C5_result_type readNumber scopeXY unannotated
                    {| ConstValue := None;
                       MType := Some (TypeExprAt (numType "u16")) |})
             (var "y") (numType "u16")).
    vm_compute; reflexivity.
Defined.

(** The claim C5 as it is written fails for [as], which is a binary
    operator: in the scope of [var y : u8] the expression [y as u16] is
    accepted with the type [u16], which is neither Boolean nor the type of
    its operand [y]. *)
Lemma C5_counterexample :
  operand (checkExpr readNumber scopeXY (var "y") unannotated)
    = Ok (TypeExprAt (numType "u8"), None)
  /\ checkExpr readNumber scopeXY (ExprAs (var "y") (numType "u16")) unannotated
     = ({| ConstValue := None; MType := Some (TypeExprAt (numType "u16")) |},
        Ok tt)
  /\ TypeExprAt (numType "u16") <> TypeExprBoolean
  /\ TypeExprAt (numType "u16") <> TypeExprAt (numType "u8")
  /\ TypeExprAt (numType "u16") <> TypeExprIdealNumber.
Proof. repeat split; try (vm_compute; reflexivity); discriminate. Qed.

(** ** Numeric literals *)

(** *** The reader and the grammar of literals *)

Section reading.

Import natconv.

(** The fuel of [maxPow_loop] is enough: for the four bases the loop is left
    by its test, with the values that Go computes for a Word of 64 bits. *)
Lemma maxPow_bases :
  maxPow 2 = (2 ^ 63, 63) /\ maxPow 8 = (8 ^ 21, 21)
  /\ maxPow 10 = (10 ^ 19, 19) /\ maxPow 16 = (16 ^ 15, 15)
  /\ 2 ^ 63 > _M / 2 /\ 8 ^ 21 > _M / 8
  /\ 10 ^ 19 > _M / 10 /\ 16 ^ 15 > _M / 16.
Proof. repeat split; vm_compute; reflexivity. Qed.

Lemma maxPow_loop_pow (fuel : nat) (b max : Z) :
  forall p n, 0 <= n -> p = b ^ n ->
  exists n', maxPow_loop fuel b max p n = (b ^ n', n') /\ n <= n'.
Proof.
  induction fuel as [|fuel IH]; intros p n Hn ->; simpl.
  - exists n. split; [reflexivity|lia].
  - destruct (b ^ n <=? max).
    + destruct (IH (b ^ n * b) (n + 1)) as (n' & H & Hle); [lia| |].
      * rewrite Z.pow_add_r by lia. rewrite Z.pow_1_r. reflexivity.
      * exists n'. split; [exact H|lia].
    + exists n. split; [reflexivity|lia].
Qed.

Lemma maxPow_pow (b : Z) : exists n, maxPow b = (b ^ n, n) /\ 1 <= n.
Proof.
  unfold maxPow.
  destruct (maxPow_loop_pow (Z.to_nat _W) b (_M / b) b 1) as (n & H & Hn);
    [lia|rewrite Z.pow_1_r; reflexivity|].
  exists n. auto.
Qed.

Lemma digit_digitValue (b : Z) (c : ascii) (d : Z) :
  digitValue c = Some d -> d < b -> b <= 16 ->
  digit b c = d /\ (c =? "_")%char = false.
Proof.
  intros Hd Hlt Hb. split.
  - revert Hd. unfold digitValue, digit, byte.
    change (Z.of_N (N_of_ascii "0")) with 48.
    change (Z.of_N (N_of_ascii "9")) with 57.
    change (Z.of_N (N_of_ascii "a")) with 97.
    change (Z.of_N (N_of_ascii "z")) with 122.
    change (Z.of_N (N_of_ascii "A")) with 65.
    change (Z.of_N (N_of_ascii "Z")) with 90.
    unfold maxBaseSmall, MaxBase.
    set (k := Z.of_N (N_of_ascii c)).
    repeat match goal with
           | |- context [?x <=? ?y] => destruct (Z.leb_spec x y)
           end; simpl; intros Hv; try discriminate Hv; injection Hv as <-; lia.
  - destruct (Ascii.eqb_spec c "_") as [->|]; [|reflexivity].
    vm_compute in Hd. discriminate Hd.
Qed.

Lemma digitValue_digit (b : Z) (c : ascii) :
  b <= 16 -> digit b c < b -> digitValue c = Some (digit b c).
Proof.
  unfold digitValue, digit, byte.
  change (Z.of_N (N_of_ascii "0")) with 48.
  change (Z.of_N (N_of_ascii "9")) with 57.
  change (Z.of_N (N_of_ascii "a")) with 97.
  change (Z.of_N (N_of_ascii "z")) with 122.
  change (Z.of_N (N_of_ascii "A")) with 65.
  change (Z.of_N (N_of_ascii "Z")) with 90.
  unfold maxBaseSmall, MaxBase.
  set (k := Z.of_N (N_of_ascii c)).
  intros Hb.
  repeat match goal with
         | |- context [?x <=? ?y] => destruct (Z.leb_spec x y)
         end; simpl; intros Hv; try (f_equal; lia); lia.
Qed.

(** An underscore. *)
Lemma scanDigits_sep (b bn n : Z) (st : scanState) (r : string) :
  scanDigits b bn n st (String "_" r)
  = scanDigits b bn n
      (mkScanState (z st) (di st) (i st) (count st) "_"
         (if negb (prev st =? "0")%char then true else invalSep st)) r.
Proof. reflexivity. Qed.

(** One digit more. *)
Lemma scanDigits_digit (b bn n : Z) (st : scanState) (c : ascii) (r : string)
    (d : Z) :
  digitValue c = Some d -> d < b -> b <= 16 ->
  exists st1,
    scanDigits b bn n st (String c r) = scanDigits b bn n st1 r
    /\ prev st1 = "0"%char
    /\ count st1 = count st + 1
    /\ invalSep st1 = invalSep st
    /\ (bn = b ^ n -> grouped n st ->
        grouped n st1 /\ scanned b st1 = scanned b st * b + d).
Proof.
  intros Hd Hlt Hb.
  destruct (digit_digitValue b c d Hd Hlt Hb) as [Hdig Hsep].
  simpl. rewrite Hsep, Hdig.
  destruct (Z.geb_spec d b) as [?|_]; [lia|].
  destruct (Z.eqb_spec (i st + 1) n) as [Hn|Hn].
  - eexists. split; [reflexivity|]. simpl. repeat (split; [reflexivity|]).
    intros -> [Hi Hdi]. unfold grouped, scanned, mulAddWW; simpl. split; [lia|].
    rewrite <- Hn. rewrite Z.pow_add_r by lia. rewrite Z.pow_1_r. ring.
  - eexists. split; [reflexivity|]. simpl. repeat (split; [reflexivity|]).
    intros -> [Hi Hdi]. unfold grouped, scanned; simpl. split; [lia|].
    rewrite Z.pow_add_r by lia. rewrite Z.pow_1_r. ring.
Qed.

Lemma scanDigits_sound (b bn n : Z) :
  b <= 16 -> bn = b ^ n ->
  forall ds st,
    forallb (fun d => digitOf b (snd d)) ds = true ->
    grouped n st ->
    match ds with
    | (true, _) :: _ => prev st = "0"%char
    | _ => True
    end ->
    exists st',
      scanDigits b bn n st (digitsText ds) = (st', "")
      /\ grouped n st'
      /\ scanned b st' = fold_left (fun a d => a * b + d) (digitValues ds) (scanned b st)
      /\ count st' = count st + Z.of_nat (length ds)
      /\ invalSep st' = invalSep st
      /\ match ds with [] => st' = st | _ => prev st' = "0"%char end.
Proof.
  intros Hb Hbn.
  induction ds as [|[sep c] ds IH]; intros st Hds Hinv Hprev.
  - exists st. simpl. repeat split; try assumption; try apply Hinv. lia.
  - simpl in Hds. apply andb_true_iff in Hds as [Hc Hds].
    unfold digitOf in Hc. destruct (digitValue c) as [d|] eqn:Hd;
      [|discriminate Hc].
    apply Z.ltb_lt in Hc.
    assert (Hstep : forall st0, invalSep st0 = invalSep st ->
                                count st0 = count st ->
                                grouped n st0 -> scanned b st0 = scanned b st ->
              exists st',
                scanDigits b bn n st0 (String c (digitsText ds)) = (st', "")
                /\ grouped n st'
                /\ scanned b st' = fold_left (fun a d => a * b + d)
                                 (digitValues ((sep, c) :: ds)) (scanned b st)
                /\ count st' = count st + Z.of_nat (length ((sep, c) :: ds))
                /\ invalSep st' = invalSep st
                /\ prev st' = "0"%char).
    { intros st0 Hi0 Hc0 Hinv0 Hv0.
      destruct (scanDigits_digit b bn n st0 c (digitsText ds) d Hd Hc Hb)
        as (st1 & Hs & Hp1 & Hc1 & Hi1 & Hv1).
      destruct (Hv1 Hbn Hinv0) as [Hinv1 Hval1].
      destruct (IH st1 Hds Hinv1) as (st' & Hs' & Hinv' & Hv' & Hc' & Hi' & Hp').
      { destruct ds as [|[[] ?] ?]; auto. }
      exists st'. rewrite Hs.
      split; [exact Hs'|]. split; [exact Hinv'|].
      split.
      { rewrite Hv', Hval1, Hv0. simpl. rewrite Hd. reflexivity. }
      split.
      { rewrite Hc', Hc1, Hc0. simpl length. lia. }
      split; [congruence|].
      destruct ds; [subst st'; exact Hp1|exact Hp']. }
    destruct sep.
    + change (digitsText ((true, c) :: ds))
        with (String "_" (String c (digitsText ds))).
      rewrite scanDigits_sep.
      apply Hstep; try reflexivity; [|exact Hinv].
      simpl. rewrite Hprev. reflexivity.
    + change (digitsText ((false, c) :: ds))
        with (String c (digitsText ds)).
      apply Hstep; auto.
Qed.

Lemma fold_left_positional (b : Z) (ds : list Z) :
  forall acc,
    fold_left (fun a d => a * b + d) ds acc
    = acc * b ^ Z.of_nat (length ds) + positional b ds.
Proof.
  induction ds as [|d ds IH]; intros acc; simpl fold_left.
  - simpl. lia.
  - rewrite IH. simpl positional. simpl length.
    rewrite Nat2Z.inj_succ, Z.pow_succ_r by lia. ring.
Qed.

Lemma scanDigits_complete (b bn n : Z) :
  b <= 16 ->
  forall r st st',
    scanDigits b bn n st r = (st', "") ->
    invalSep st' = false ->
    prev st' <> "_"%char ->
    exists ds,
      (if (prev st =? "_")%char then String "_" r else r) = digitsText ds
      /\ forallb (fun d => digitOf b (snd d)) ds = true
      /\ invalSep st = false
      /\ count st' = count st + Z.of_nat (length ds)
      /\ (prev st <> "0"%char -> prev st <> "_"%char ->
          match ds with (true, _) :: _ => False | _ => True end).
Proof.
  intros Hb.
  induction r as [|ch r IH]; intros st st' Hs Hi Hp.
  - simpl in Hs. injection Hs as <-.
    exists []. apply Ascii.eqb_neq in Hp. rewrite Hp. simpl.
    repeat split; auto. lia.
  - simpl in Hs. destruct (Ascii.eqb_spec ch "_") as [->|Hch].
    + apply IH in Hs as (ds & Ht & Hds & Hi0 & Hc & _); [|exact Hi|exact Hp].
      simpl in Ht, Hi0, Hc.
      destruct (Ascii.eqb_spec (prev st) "0") as [Hp0|Hp0];
        simpl in Hi0; [|discriminate Hi0].
      exists ds. rewrite Hp0. simpl.
      split; [exact Ht|]. split; [exact Hds|]. split; [exact Hi0|].
      split; [exact Hc|]. intros H; contradiction.
    + destruct (Z.geb_spec (digit b ch) b) as [Hge|Hlt];
        [discriminate Hs|].
      pose proof (digitValue_digit b ch Hb Hlt) as Hd.
      assert (Hok : digitOf b ch = true).
      { unfold digitOf. rewrite Hd. apply Z.ltb_lt, Hlt. }
      assert (Hnext : exists st1,
                 scanDigits b bn n st1 r = (st', "")
                 /\ prev st1 = "0"%char
                 /\ invalSep st1 = invalSep st
                 /\ count st1 = count st + 1).
      { destruct (i st + 1 =? n); eexists; (split; [exact Hs|]);
          simpl; auto. }
      destruct Hnext as (st1 & Hs1 & Hp1 & Hi1 & Hc1).
      apply IH in Hs1 as (ds & Ht & Hds & Hi0 & Hc & _); [|exact Hi|exact Hp].
      rewrite Hp1 in Ht. simpl in Ht.
      destruct (Ascii.eqb_spec (prev st) "_") as [Hpu|Hpu].
      * exists ((true, ch) :: ds). simpl. rewrite Hok, Hds, Ht.
        split; [reflexivity|]. split; [reflexivity|].
        split; [congruence|]. split; [rewrite Hc, Hc1; lia|].
        intros _ Hn. apply Hn, Hpu.
      * exists ((false, ch) :: ds). simpl. rewrite Hok, Hds, Ht.
        split; [reflexivity|]. split; [reflexivity|].
        split; [congruence|]. split; [rewrite Hc, Hc1; lia|].
        auto.
Qed.


Lemma scan_nil : natconv.scan "" = scanFrom 10 Ascii.zero 0 "." "".
Proof. reflexivity. Qed.

Lemma scan_zero : natconv.scan "0" = scanFrom 10 Ascii.zero 1 "0" "".
Proof. reflexivity. Qed.

Lemma scan_decimal (ch : ascii) (r : string) :
  (ch =? "0")%char = false ->
  natconv.scan (String ch r) = scanFrom 10 Ascii.zero 0 "." (String ch r).
Proof. intros H. unfold natconv.scan. rewrite H. reflexivity. Qed.

Lemma scan_0b (r : string) :
  natconv.scan (String "0" (String "b" r)) = scanFrom 2 "b" 0 "0" r.
Proof. reflexivity. Qed.

Lemma scan_0B (r : string) :
  natconv.scan (String "0" (String "B" r)) = scanFrom 2 "b" 0 "0" r.
Proof. reflexivity. Qed.

Lemma scan_0o (r : string) :
  natconv.scan (String "0" (String "o" r)) = scanFrom 8 "o" 0 "0" r.
Proof. reflexivity. Qed.

Lemma scan_0O (r : string) :
  natconv.scan (String "0" (String "O" r)) = scanFrom 8 "o" 0 "0" r.
Proof. reflexivity. Qed.

Lemma scan_0x (r : string) :
  natconv.scan (String "0" (String "x" r)) = scanFrom 16 "x" 0 "0" r.
Proof. reflexivity. Qed.

Lemma scan_0X (r : string) :
  natconv.scan (String "0" (String "X" r)) = scanFrom 16 "x" 0 "0" r.
Proof. reflexivity. Qed.

Lemma scan_0 (ch : ascii) (r : string) :
  (ch =? "b")%char = false -> (ch =? "B")%char = false ->
  (ch =? "o")%char = false -> (ch =? "O")%char = false ->
  (ch =? "x")%char = false -> (ch =? "X")%char = false ->
  natconv.scan (String "0" (String ch r)) = scanFrom 8 "0" 0 "0" (String ch r).
Proof.
  intros H1 H2 H3 H4 H5 H6. unfold natconv.scan.
  change ("0" =? "0")%char with true. cbv iota.
  rewrite H1, H2, H3, H4, H5, H6. reflexivity.
Qed.

Lemma scanFrom_sound (b : Z) (prefix prev0 : ascii) (ds : list (bool * ascii)) :
  b <= 16 ->
  ds <> [] ->
  forallb (fun d => digitOf b (snd d)) ds = true ->
  match ds with
  | (true, _) :: _ => prev0 = "0"%char
  | _ => True
  end ->
  scanFrom b prefix 0 prev0 (digitsText ds)
  = ((positional b (digitValues ds), b, Z.of_nat (length ds), None), "").
Proof.
  intros Hb Hne Hds Hprev. unfold scanFrom.
  destruct (maxPow_pow b) as (n & -> & Hn).
  destruct (scanDigits_sound b (b ^ n) n Hb eq_refl ds
              (mkScanState 0 0 0 0 prev0 false) Hds)
    as (st & -> & [Hi Hdi] & Hv & Hc & Hs & Hp).
  { split; simpl; [lia|reflexivity]. }
  { exact Hprev. }
  destruct ds as [|d ds']; [contradiction|].
  simpl in Hs. rewrite Hs, Hp, Hc. simpl orb. cbv iota.
  destruct (Z.eqb_spec (0 + Z.of_nat (length (d :: ds'))) 0) as [H0|_];
    [simpl length in H0; lia|].
  rewrite fold_left_positional in Hv. unfold scanned in Hv. simpl in Hv.
  rewrite Z.add_0_l.
  destruct (Z.gtb_spec (i st) 0) as [Hgt|Hle].
  - unfold mulAddWW, pow. unfold digitValues. rewrite Hv. reflexivity.
  - assert (H0 : i st = 0) by lia. rewrite H0, Hdi in Hv by exact H0.
    rewrite Z.pow_0_r in Hv.
    replace (z st) with (z st * 1 + 0) by lia.
    unfold digitValues. rewrite Hv. reflexivity.
Qed.

Lemma scanFrom_complete (b : Z) (prefix prev0 : ascii) (r : string)
    (abs b' cnt : Z) :
  b <= 16 ->
  prev0 <> "_"%char ->
  scanFrom b prefix 0 prev0 r = ((abs, b', cnt, None), "") ->
  exists ds,
    r = digitsText ds
    /\ forallb (fun d => digitOf b (snd d)) ds = true
    /\ (prev0 <> "0"%char ->
        match ds with (true, _) :: _ => False | _ => True end)
    /\ (ds = [] -> prefix = "0"%char).
Proof.
  intros Hb Hp0. unfold scanFrom.
  destruct (maxPow b) as [bn n].
  destruct (scanDigits b bn n (mkScanState 0 0 0 0 prev0 false) r)
    as [st r'] eqn:Hs.
  intros H.
  assert (Hfin : r' = "" /\ invalSep st = false /\ prev st <> "_"%char
                 /\ (count st = 0 -> prefix = "0"%char)).
  { destruct (invalSep st); simpl in H.
    - destruct (count st =? 0); [destruct (prefix =? "0")%char|];
        discriminate H.
    - destruct (Ascii.eqb_spec (prev st) "_") as [Hu|Hu].
      + destruct (count st =? 0); [destruct (prefix =? "0")%char|];
          discriminate H.
      + destruct (Z.eqb_spec (count st) 0) as [Hc|Hc].
        * destruct (Ascii.eqb_spec prefix "0") as [Hp|Hp];
            [|discriminate H].
          injection H as _ _ _ ->. auto.
        * injection H as _ _ _ ->. repeat split; auto.
          intros; contradiction. }
  destruct Hfin as (-> & Hi & Hp & Hc).
  destruct (scanDigits_complete b bn n Hb r _ st Hs Hi Hp)
    as (ds & Ht & Hds & _ & Hcnt & Hfirst).
  simpl in Ht, Hcnt, Hfirst.
  apply Ascii.eqb_neq in Hp0 as Hp0'. rewrite Hp0' in Ht.
  exists ds. split; [exact Ht|]. split; [exact Hds|].
  split; [intros Hn; apply Hfirst; assumption|].
  intros ->. apply Hc. simpl in Hcnt. lia.
Qed.

Lemma digitOf_8_not_prefix (c : ascii) :
  digitOf 8 c = true ->
  (c =? "b")%char = false /\ (c =? "B")%char = false
  /\ (c =? "o")%char = false /\ (c =? "O")%char = false
  /\ (c =? "x")%char = false /\ (c =? "X")%char = false.
Proof.
  intros H.
  repeat split;
    match goal with
    | |- (c =? ?k)%char = false =>
        destruct (Ascii.eqb_spec c k) as [->|]; [|reflexivity];
        vm_compute in H; discriminate H
    end.
Qed.

Lemma digitOf_not_sign (b : Z) (c : ascii) :
  digitOf b c = true ->
  (c =? "-")%char = false /\ (c =? "+")%char = false.
Proof.
  intros H. unfold digitOf in H.
  split;
    match goal with
    | |- (c =? ?k)%char = false =>
        destruct (Ascii.eqb_spec c k) as [->|]; [|reflexivity];
        vm_compute in H; discriminate H
    end.
Qed.

Lemma scan_sound (p : Prefix) (ds : list (bool * ascii)) :
  wellFormedUnsigned p ds = true ->
  natconv.scan (unsignedText p ds)
  = ((positional (radix p) (digitValues ds), radix p,
      Z.of_nat (length ds), None), "").
Proof.
  unfold wellFormedUnsigned, wellFormedLiteral, unsignedText. simpl.
  intros H. apply andb_true_iff in H as [Hds Hshape].
  destruct ds as [|[sep c] ds']; [discriminate Hshape|].
  assert (Hne : (sep, c) :: ds' <> []) by discriminate.
  destruct p; simpl prefixText; simpl radix in *.
  - apply andb_true_iff in Hshape as [Hsep Hc].
    destruct sep; [discriminate Hsep|].
    destruct (Ascii.eqb_spec c "0") as [->|Hc0].
    + destruct ds'; [|discriminate Hc]. reflexivity.
    + apply Ascii.eqb_neq in Hc0.
      change ("" +:+ digitsText ((false, c) :: ds'))
        with (String c (digitsText ds')).
      rewrite scan_decimal by exact Hc0.
      apply (scanFrom_sound 10 Ascii.zero "." ((false, c) :: ds'));
        [lia|exact Hne|exact Hds|exact I].
  - assert (Hhead : exists ch r,
               digitsText ((sep, c) :: ds') = String ch r
               /\ (ch =? "b")%char = false /\ (ch =? "B")%char = false
               /\ (ch =? "o")%char = false /\ (ch =? "O")%char = false
               /\ (ch =? "x")%char = false /\ (ch =? "X")%char = false).
    { destruct sep.
      - exists "_"%char, (String c (digitsText ds')).
        repeat split; reflexivity.
      - exists c, (digitsText ds'). split; [reflexivity|].
        apply digitOf_8_not_prefix. simpl in Hds.
        apply andb_true_iff in Hds as [Hd _]. exact Hd. }
    destruct Hhead as (ch & r & Ht & H1 & H2 & H3 & H4 & H5 & H6).
    change ("0" +:+ digitsText ((sep, c) :: ds'))
      with (String "0" (digitsText ((sep, c) :: ds'))).
    rewrite Ht, scan_0 by assumption. rewrite <- Ht.
    apply (scanFrom_sound 8 "0" "0" ((sep, c) :: ds'));
      [lia|exact Hne|exact Hds|destruct sep; auto].
  - change ("0b" +:+ digitsText ((sep, c) :: ds'))
      with (String "0" (String "b" (digitsText ((sep, c) :: ds')))).
    rewrite scan_0b.
    apply (scanFrom_sound 2 "b" "0" ((sep, c) :: ds'));
      [lia|exact Hne|exact Hds|destruct sep; auto].
  - change ("0B" +:+ digitsText ((sep, c) :: ds'))
      with (String "0" (String "B" (digitsText ((sep, c) :: ds')))).
    rewrite scan_0B.
    apply (scanFrom_sound 2 "b" "0" ((sep, c) :: ds'));
      [lia|exact Hne|exact Hds|destruct sep; auto].
  - change ("0o" +:+ digitsText ((sep, c) :: ds'))
      with (String "0" (String "o" (digitsText ((sep, c) :: ds')))).
    rewrite scan_0o.
    apply (scanFrom_sound 8 "o" "0" ((sep, c) :: ds'));
      [lia|exact Hne|exact Hds|destruct sep; auto].
  - change ("0O" +:+ digitsText ((sep, c) :: ds'))
      with (String "0" (String "O" (digitsText ((sep, c) :: ds')))).
    rewrite scan_0O.
    apply (scanFrom_sound 8 "o" "0" ((sep, c) :: ds'));
      [lia|exact Hne|exact Hds|destruct sep; auto].
  - change ("0x" +:+ digitsText ((sep, c) :: ds'))
      with (String "0" (String "x" (digitsText ((sep, c) :: ds')))).
    rewrite scan_0x.
    apply (scanFrom_sound 16 "x" "0" ((sep, c) :: ds'));
      [lia|exact Hne|exact Hds|destruct sep; auto].
  - change ("0X" +:+ digitsText ((sep, c) :: ds'))
      with (String "0" (String "X" (digitsText ((sep, c) :: ds')))).
    rewrite scan_0X.
    apply (scanFrom_sound 16 "x" "0" ((sep, c) :: ds'));
      [lia|exact Hne|exact Hds|destruct sep; auto].
Qed.

Lemma unsignedText_head (p : Prefix) (ds : list (bool * ascii)) :
  wellFormedUnsigned p ds = true ->
  exists ch r,
    unsignedText p ds = String ch r
    /\ (ch =? "-")%char = false /\ (ch =? "+")%char = false.
Proof.
  unfold wellFormedUnsigned, wellFormedLiteral, unsignedText. simpl.
  intros H. apply andb_true_iff in H as [Hds Hshape].
  destruct ds as [|[sep c] ds']; [discriminate Hshape|].
  destruct p;
    try (eexists _, _; split; [reflexivity|split; reflexivity]).
  apply andb_true_iff in Hshape as [Hsep _].
  destruct sep; [discriminate Hsep|].
  exists c, (digitsText ds'). split; [reflexivity|].
  simpl in Hds. apply andb_true_iff in Hds as [Hd _].
  exact (digitOf_not_sign 10 c Hd).
Qed.

Lemma scan_complete (u : string) (abs b cnt : Z) :
  natconv.scan u = ((abs, b, cnt, None), "") ->
  exists p ds, wellFormedUnsigned p ds = true /\ unsignedText p ds = u.
Proof.
  assert (Hwf : forall p ds,
             p <> NoPrefix -> ds <> [] ->
             forallb (fun d => digitOf (radix p) (snd d)) ds = true ->
             wellFormedUnsigned p ds = true).
  { intros p ds Hp Hne Hds.
    unfold wellFormedUnsigned, wellFormedLiteral. simpl. rewrite Hds.
    destruct ds as [|[sep c] ds']; [contradiction|].
    destruct p; try reflexivity. contradiction. }
  assert (Hpre : forall bb pp r (p : Prefix),
             bb = radix p -> p <> NoPrefix -> pp <> "0"%char ->
             scanFrom bb pp 0 "0" r = ((abs, b, cnt, None), "") ->
             exists ds, wellFormedUnsigned p ds = true /\ digitsText ds = r).
  { intros bb pp r p -> Hp Hpp H.
    apply scanFrom_complete in H as (ds & -> & Hds & _ & Hnil);
      [|destruct p; simpl; lia|discriminate].
    exists ds. split; [|reflexivity].
    apply Hwf; [exact Hp| |exact Hds].
    intros ->. apply Hpp, Hnil. reflexivity. }
  destruct u as [|ch r1].
  - rewrite scan_nil. intros H.
    apply scanFrom_complete in H as (ds & Ht & _ & _ & Hnil);
      [|lia|discriminate].
    destruct ds as [|[[] ?] ?]; try discriminate Ht.
    discriminate (Hnil eq_refl).
  - destruct (Ascii.eqb_spec ch "0") as [->|Hch].
    + destruct r1 as [|ch1 r2].
      * intros _. exists NoPrefix, [(false, "0"%char)].
        split; reflexivity.
      * destruct (Ascii.eqb_spec ch1 "b") as [->|Hb1].
        { rewrite scan_0b. intros H.
          destruct (Hpre 2 "b"%char r2 Prefix0b) as (ds & Hw & <-);
            try discriminate; auto.
          exists Prefix0b, ds. split; [exact Hw|reflexivity]. }
        destruct (Ascii.eqb_spec ch1 "B") as [->|Hb2].
        { rewrite scan_0B. intros H.
          destruct (Hpre 2 "b"%char r2 Prefix0B) as (ds & Hw & <-);
            try discriminate; auto.
          exists Prefix0B, ds. split; [exact Hw|reflexivity]. }
        destruct (Ascii.eqb_spec ch1 "o") as [->|Ho1].
        { rewrite scan_0o. intros H.
          destruct (Hpre 8 "o"%char r2 Prefix0o) as (ds & Hw & <-);
            try discriminate; auto.
          exists Prefix0o, ds. split; [exact Hw|reflexivity]. }
        destruct (Ascii.eqb_spec ch1 "O") as [->|Ho2].
        { rewrite scan_0O. intros H.
          destruct (Hpre 8 "o"%char r2 Prefix0O) as (ds & Hw & <-);
            try discriminate; auto.
          exists Prefix0O, ds. split; [exact Hw|reflexivity]. }
        destruct (Ascii.eqb_spec ch1 "x") as [->|Hx1].
        { rewrite scan_0x. intros H.
          destruct (Hpre 16 "x"%char r2 Prefix0x) as (ds & Hw & <-);
            try discriminate; auto.
          exists Prefix0x, ds. split; [exact Hw|reflexivity]. }
        destruct (Ascii.eqb_spec ch1 "X") as [->|Hx2].
        { rewrite scan_0X. intros H.
          destruct (Hpre 16 "x"%char r2 Prefix0X) as (ds & Hw & <-);
            try discriminate; auto.
          exists Prefix0X, ds. split; [exact Hw|reflexivity]. }
        rewrite scan_0 by (apply Ascii.eqb_neq; assumption).
        intros H.
        apply scanFrom_complete in H as (ds & Ht & Hds & _ & _);
          [|lia|discriminate].
        exists Prefix0, ds. split.
        -- apply Hwf; [discriminate| |exact Hds].
           intros ->. discriminate Ht.
        -- unfold unsignedText. rewrite Ht. reflexivity.
    + apply Ascii.eqb_neq in Hch as Hch'.
      rewrite scan_decimal by exact Hch'. intros H.
      apply scanFrom_complete in H as (ds & Ht & Hds & Hfirst & Hnil);
        [|lia|discriminate].
      exists NoPrefix, ds. split; [|unfold unsignedText; rewrite Ht; reflexivity].
      unfold wellFormedUnsigned, wellFormedLiteral. simpl. rewrite Hds.
      destruct ds as [|[sep c] ds']; [discriminate (Hnil eq_refl)|].
      destruct sep; [exfalso; apply Hfirst; discriminate|].
      simpl in Ht. injection Ht as <- _. rewrite Hch'. reflexivity.
Qed.

(** The reader of the checker gives every literal of the grammar its
    value in the base of its prefix. *)
Lemma readNumber_sound (l : Literal) :
  wellFormedLiteral l = true ->
  readNumber (literalText l) = Some (literalValue l).
Proof.
  destruct l as [sg p ds]. intros Hwf.
  assert (Hu : wellFormedUnsigned p ds = true) by exact Hwf.
  pose proof (scan_sound p ds Hu) as Hscan.
  destruct (unsignedText_head p ds Hu) as (ch & r & Ht & Hm & Hp).
  unfold readNumber, intconv.SetString, intconv.setFromScanner, intconv.scan,
    literalText, literalValue.
  simpl litSign. simpl litPrefix. simpl litDigits.
  fold (digitValues ds). fold (unsignedText p ds).
  set (v := positional (radix p) (digitValues ds)) in *.
  destruct sg; simpl signText.
  - change ("" +:+ unsignedText p ds) with (unsignedText p ds).
    assert (Hs : intconv.scanSign (unsignedText p ds)
                 = ((false, None), unsignedText p ds)).
    { rewrite Ht. unfold intconv.scanSign. rewrite Hm, Hp. reflexivity. }
    rewrite Hs. cbv beta iota zeta. rewrite Hscan. cbv beta iota zeta.
    rewrite andb_false_r. reflexivity.
  - change ("+" +:+ unsignedText p ds) with (String "+" (unsignedText p ds)).
    change (intconv.scanSign (String "+" (unsignedText p ds)))
      with ((false, @None scanError), unsignedText p ds).
    cbv beta iota zeta. rewrite Hscan. cbv beta iota zeta.
    rewrite andb_false_r. reflexivity.
  - change ("-" +:+ unsignedText p ds) with (String "-" (unsignedText p ds)).
    change (intconv.scanSign (String "-" (unsignedText p ds)))
      with ((true, @None scanError), unsignedText p ds).
    cbv beta iota zeta. rewrite Hscan. cbv beta iota zeta.
    rewrite andb_true_r.
    destruct (Z.eqb_spec v 0) as [->|_]; reflexivity.
Qed.

(** It reads nothing else. *)
Lemma readNumber_complete (s : string) (z : Z) :
  readNumber s = Some z ->
  exists l, wellFormedLiteral l = true /\ literalText l = s.
Proof.
  unfold readNumber, intconv.SetString, intconv.setFromScanner, intconv.scan.
  assert (Hu : forall u sg,
             match
               (let '(abs, base, _, err, r) := natconv.scan u in
                match err with
                | Some _ => (None, r)
                | None => (Some (if negb (abs =? 0) && sg then - abs else abs,
                                 base), r)
                end)
             with
             | (None, _) => None
             | (Some (z, _), r) =>
                 match r with EmptyString => Some z | String _ _ => None end
             end = Some z ->
             exists p ds, wellFormedUnsigned p ds = true /\ unsignedText p ds = u).
  { intros u sg.
    destruct (natconv.scan u) as [[[[abs b] cnt] [e|]] [|? ?]] eqn:Hs;
      try discriminate.
    intros _. exact (scan_complete u abs b cnt Hs). }
  destruct s as [|ch r]; [discriminate|].
  unfold intconv.scanSign.
  destruct (Ascii.eqb_spec ch "-") as [->|Hm].
  - intros H. apply (Hu r true) in H as (p & ds & Hw & <-).
    exists (mkLiteral Minus p ds). split; [exact Hw|reflexivity].
  - destruct (Ascii.eqb_spec ch "+") as [->|Hp].
    + intros H. apply (Hu r false) in H as (p & ds & Hw & <-).
      exists (mkLiteral Plus p ds). split; [exact Hw|reflexivity].
    + intros H. apply (Hu (String ch r) false) in H as (p & ds & Hw & Ht).
      exists (mkLiteral NoSign p ds). split; [exact Hw|exact Ht].
Qed.

End reading.

(** Literals in each base, with and without underscores, and texts that
    are not literals. *)
Example readNumber_examples :
  map readNumber
    ["42"; "0x2A"; "0X2a"; "0b101010"; "0B101010"; "0o52"; "0O52"; "052";
     "1_000"; "0x_1F"; "0_7"; "-0x10"; "+5"; "0"; "-0";
     "18446744073709551616123"]
  = [Some 42; Some 42; Some 42; Some 42; Some 42; Some 42; Some 42; Some 42;
     Some 1000; Some 31; Some 7; Some (-16); Some 5; Some 0; Some 0;
     Some 18446744073709551616123]
  /\ map readNumber
       [""; "-"; "+-5"; "0x"; "0b2"; "08"; "12z"; "_1"; "1_"; "1__0"; "0_";
        "0_x1"; " 1"; "1.5"]
     = [None; None; None; None; None; None; None; None; None; None; None;
        None; None; None].
Proof. split; vm_compute; reflexivity. Qed.

(** *** What the checker does with a literal *)

(** C4: a well-formed numeric literal gets the type of an ideal number and
    its mathematical value, in the base of its prefix, as its constant
    value; a text that is not a well-formed literal is rejected with the
    invalid-literal error and the node is left as it was; every text is one
    or the other. *)
Theorem C4_numeric_literal
    (typeMap : option (gmap ID TypeExpr)) (id1 : ID) (a : Annot) :
  IsNumLiteral id1 = true ->
  (forall l, wellFormedLiteral l = true -> ByID id1 = literalText l ->
     checkExpr readNumber typeMap (ExprOther ID0 id1) a
     = ({| ConstValue := Some (literalValue l);
           MType := Some TypeExprIdealNumber |}, Ok tt))
  /\ ((forall l, wellFormedLiteral l = true -> ByID id1 <> literalText l) ->
      checkExpr readNumber typeMap (ExprOther ID0 id1) a
      = (a, Err (ErrInvalidNumLiteral (ByID id1)))
      /\ kindOf (ErrInvalidNumLiteral (ByID id1)) = InvalidLiteral)
  /\ ((exists l, wellFormedLiteral l = true /\ ByID id1 = literalText l)
      \/ (forall l, wellFormedLiteral l = true -> ByID id1 <> literalText l)).
Proof.
  intros Hlit. simpl. unfold checkExprOther. rewrite Hlit.
  split; [|split].
  - intros l Hwf ->. rewrite (readNumber_sound l Hwf). reflexivity.
  - intros Hmal. destruct (readNumber (ByID id1)) as [z|] eqn:Hr.
    + apply readNumber_complete in Hr as (l & Hwf & Ht).
      exfalso. apply (Hmal l Hwf). symmetry. exact Ht.
    + split; reflexivity.
  - destruct (readNumber (ByID id1)) as [z|] eqn:Hr.
    + left. apply readNumber_complete in Hr as (l & Hwf & Ht).
      exists l. split; [exact Hwf|symmetry; exact Ht].
    + right. intros l Hwf Ht. rewrite Ht, (readNumber_sound l Hwf) in Hr.
      discriminate Hr.
Qed.

Lemma C4_numeric_literal_witness :
  let l := mkLiteral NoSign Prefix0x [(false, "2"%char); (false, "A"%char)] in
  (wellFormedLiteral l = true /\ literalText l = "0x2A"
   /\ literalValue l = 2 * 16 ^ 1 + 10 * 16 ^ 0)
  /\ (forall l', wellFormedLiteral l' = true -> "12z" <> literalText l')
  /\ checkExpr readNumber scopeXY (lit "0x2A") unannotated
     = ({| ConstValue := Some 42; MType := Some TypeExprIdealNumber |}, Ok tt)
  /\ checkExpr readNumber scopeXY (lit "12z") unannotated
     = (unannotated, Err (ErrInvalidNumLiteral "12z"))
  /\ kindOf (ErrInvalidNumLiteral "12z") = InvalidLiteral.
Proof.
  intros l.
  assert (Hmal : forall l', wellFormedLiteral l' = true ->
                            "12z" <> literalText l').
  { intros l' Hwf Ht. pose proof (readNumber_sound l' Hwf) as Hr.
    rewrite <- Ht in Hr.
    assert (Hn : readNumber "12z" = None) by (vm_compute; reflexivity).
    rewrite Hn in Hr. discriminate Hr. }
  split; [repeat split|]. split; [exact Hmal|]. split.
  - exact (proj1 (C4_numeric_literal scopeXY (IDNumLiteral "0x2A")
                    unannotated eq_refl) l eq_refl eq_refl).
  - exact (proj1 (proj2 (C4_numeric_literal scopeXY (IDNumLiteral "12z")
                           unannotated eq_refl)) Hmal).
Defined.

(** ** Variable declarations *)

Section checkVarsFacts.

Variable SetString : string -> option Z.

Abbreviation checkVars := (checkVars SetString).

(** [checkVars] in the shape of the source: a declaration, or else the
    loop over the lists of child nodes. *)
Lemma checkVars_unfold (n : Node) (typeMap : option (gmap ID TypeExpr)) :
  checkVars n typeMap =
    match n with
    | KVar name xType _ => checkVar SetString name xType typeMap
    | _ => rangeLists checkVars (SubLists n) typeMap
    end.
Proof. destruct n as [| | | | [] | | | |]; reflexivity. Qed.

Lemma declared_true (typeMap : option (gmap ID TypeExpr)) (name : ID) :
  declared typeMap name = true <->
  exists m t, typeMap = Some m /\ m !! name = Some t.
Proof.
  unfold declared. destruct typeMap as [m|].
  - rewrite bool_decide_eq_true. split.
    + intros [t Ht]. exists m, t. auto.
    + intros (m' & t & Hm & Ht). injection Hm as <-. exists t. exact Ht.
  - split; [discriminate|]. intros (m & t & Hm & _). discriminate.
Qed.

Lemma declared_false (m : gmap ID TypeExpr) (name : ID) :
  declared (Some m) name = false <-> m !! name = None.
Proof.
  unfold declared. rewrite bool_decide_eq_false, <- eq_None_not_Some.
  reflexivity.
Qed.

Lemma checkVar_keepsEntries (name : ID) (xType : TypeExpr)
    (m : gmap ID TypeExpr) typeMap' r :
  checkVar SetString name xType (Some m) = (typeMap', r) ->
  exists m', typeMap' = Some m' /\ m ⊆ m'.
Proof.
  unfold checkVar.
  destruct (declared (Some m) name) eqn:Hd.
  - intros Hp; injection Hp as <- <-. exists m. auto.
  - apply declared_false in Hd.
    destruct (checkTypeExpr SetString (Some m) xType);
      intros Hp; injection Hp as <- <-; eexists; split; try reflexivity.
    apply insert_subseteq, Hd.
Qed.

Lemma rangeNodes_keepsEntries f (l : list Node) :
  Forall (keepsEntries f) l ->
  forall m typeMap' r,
    rangeNodes f l (Some m) = (typeMap', r) ->
    exists m', typeMap' = Some m' /\ m ⊆ m'.
Proof.
  induction 1 as [|n l Hn _ IH]; intros m typeMap' r; simpl.
  - intros Hp; injection Hp as <- <-. exists m. auto.
  - destruct (f n (Some m)) as [tm1 r1] eqn:Hf.
    destruct (Hn _ _ _ Hf) as (m1 & -> & Hsub).
    destruct r1 as [[]|e|].
    + intros Hgo. destruct (IH _ _ _ Hgo) as (m2 & -> & Hsub2).
      exists m2. split; [reflexivity|]. etrans; eauto.
    + intros Hp; injection Hp as <- <-. exists m1. auto.
    + intros Hp; injection Hp as <- <-. exists m1. auto.
Qed.

Lemma rangeLists_keepsEntries f (ls : list (list Node)) :
  Forall (Forall (keepsEntries f)) ls ->
  forall m typeMap' r,
    rangeLists f ls (Some m) = (typeMap', r) ->
    exists m', typeMap' = Some m' /\ m ⊆ m'.
Proof.
  induction 1 as [|l ls Hl _ IH]; intros m typeMap' r; simpl.
  - intros Hp; injection Hp as <- <-. exists m. auto.
  - destruct (rangeNodes f l (Some m)) as [tm1 r1] eqn:Hf.
    destruct (rangeNodes_keepsEntries f l Hl _ _ _ Hf) as (m1 & -> & Hsub).
    destruct r1 as [[]|e|].
    + intros Hgo. destruct (IH _ _ _ Hgo) as (m2 & -> & Hsub2).
      exists m2. split; [reflexivity|]. etrans; eauto.
    + intros Hp; injection Hp as <- <-. exists m1. auto.
    + intros Hp; injection Hp as <- <-. exists m1. auto.
Qed.

(** Induction on a node through the lists that [SubLists] gives. *)
Section Node_SubLists_ind.

Variable P : Node -> Prop.
Hypothesis HVar : forall name xType value, P (KVar name xType value).
Hypothesis HSub :
  forall n, (forall name xType value, n <> KVar name xType value) ->
            Forall (Forall P) (SubLists n) -> P n.

Lemma Node_SubLists_ind : forall n : Node, P n.
Proof.
  fix IH 1. intros n.
  pose (go := fix go (l : list Node) : Forall P l :=
          match l with
          | [] => List.Forall_nil P
          | m :: l' => List.Forall_cons P m l' (IH m) (go l')
          end).
  pose (gos := fix gos (ls : list (list Node)) : Forall (Forall P) ls :=
          match ls with
          | [] => List.Forall_nil (Forall P)
          | l :: ls' => List.Forall_cons (Forall P) l ls' (go l) (gos ls')
          end).
  destruct n as [c|l op r|name xType value|c body|[c t f e]|v| | |k ls].
  - apply HSub; [discriminate|constructor].
  - apply HSub; [discriminate|constructor].
  - apply HVar.
  - apply HSub; [discriminate|].
    exact (List.Forall_cons _ _ _ (go body) (List.Forall_nil _)).
  - apply HSub; [discriminate|].
    exact (List.Forall_cons _ _ _ (go t)
             (List.Forall_cons _ _ _ (go f) (List.Forall_nil _))).
  - apply HSub; [discriminate|constructor].
  - apply HSub; [discriminate|constructor].
  - apply HSub; [discriminate|constructor].
  - apply HSub; [discriminate|]. exact (gos ls).
Qed.

End Node_SubLists_ind.

Lemma checkVars_keepsEntries (n : Node) : keepsEntries checkVars n.
Proof.
  induction n as [name xType value|n Hn IH] using Node_SubLists_ind;
    intros m typeMap' r; rewrite checkVars_unfold.
  - apply checkVar_keepsEntries.
  - destruct n; try (exfalso; eapply Hn; reflexivity);
      apply rangeLists_keepsEntries, IH.
Qed.

End checkVarsFacts.

(** C6: a declaration of a name that has an entry in the scope map fails
    with the duplicate-declaration error whatever type it declares, the
    type of the entry included, and the map is left as it is; when a
    declaration succeeds the name had no entry and the map is the old one
    with the name bound to the declared type; and no call of [checkVars],
    on any node, removes or changes an entry that the map has. *)
Theorem C6_duplicate_declaration
    (SetString : string -> option Z) (m : gmap ID TypeExpr)
    (name : ID) (xType : TypeExpr) (value : option Expr) :
  (forall t, m !! name = Some t ->
     checkVars SetString (KVar name xType value) (Some m)
       = (Some m, Err (ErrDuplicateVar name))
     /\ kindOf (ErrDuplicateVar name) = DuplicateDeclaration)
  /\ (forall typeMap',
        checkVars SetString (KVar name xType value) (Some m) = (typeMap', Ok tt) ->
        m !! name = None /\ typeMap' = Some (<[name := xType]> m))
  /\ (forall n typeMap' r,
        checkVars SetString n (Some m) = (typeMap', r) ->
        exists m', typeMap' = Some m' /\
                   forall k t, m !! k = Some t -> m' !! k = Some t).
Proof.
  split; [|split].
  - intros t Ht. split; [|reflexivity]. simpl. unfold checkVar.
    assert (declared (Some m) name = true) as ->; [|reflexivity].
    apply declared_true. eauto.
  - intros typeMap'. simpl. unfold checkVar.
    destruct (declared (Some m) name) eqn:Hd; [discriminate|].
    apply declared_false in Hd.
    destruct (checkTypeExpr SetString (Some m) xType); try discriminate.
    intros Hp; injection Hp as <-. auto.
  - intros n typeMap' r H.
    destruct (checkVars_keepsEntries SetString n m typeMap' r H) as (m' & -> & Hsub).
    exists m'. split; [reflexivity|].
    intros k t Hk. eapply lookup_weaken; eauto.
Qed.

Lemma C6_duplicate_declaration_witness :
  (checkVars readNumber (KVar (IDIdent "x") (numType "u32") None) (Some mapXY)
     = (Some mapXY, Err (ErrDuplicateVar (IDIdent "x")))
   /\ kindOf (ErrDuplicateVar (IDIdent "x")) = DuplicateDeclaration)
  /\ (mapXY !! IDIdent "z" = None
      /\ Some (<[IDIdent "z" := numType "u16"]> mapXY)
         = Some (<[IDIdent "z" := numType "u16"]> mapXY))
  /\ (exists m', Some (<[IDIdent "z" := numType "u16"]> mapXY) = Some m' /\
                 forall k t, mapXY !! k = Some t -> m' !! k = Some t).
Proof.
  split; [|split].
  - apply (proj1 (C6_duplicate_declaration readNumber mapXY
                    (IDIdent "x") (numType "u32") None) (numType "u32")).
    vm_compute; reflexivity.
  - apply (proj1 (proj2 (C6_duplicate_declaration readNumber mapXY
                           (IDIdent "z") (numType "u16") None))).
    vm_compute; reflexivity.
  - apply (proj2 (proj2 (C6_duplicate_declaration readNumber mapXY
                           (IDIdent "z") (numType "u16") None))
             (KWhile None [KVar (IDIdent "z") (numType "u16") None])
             (Some (<[IDIdent "z" := numType "u16"]> mapXY)) (Ok tt)).
    vm_compute; reflexivity.
Defined.

(** [var x : u8; var x : u16]: the second declaration is a duplicate. *)
Example var_x_twice :
  rangeNodes (checkVars readNumber)
    [KVar (IDIdent "x") (numType "u8") None;
     KVar (IDIdent "x") (numType "u16") None] (Some ∅)
  = (Some (<[IDIdent "x" := numType "u8"]> ∅),
     Err (ErrDuplicateVar (IDIdent "x"))).
Proof. vm_compute; reflexivity. Qed.

(** ** Conditions *)

Lemma Eq_Boolean (typ : MTypePtr) :
  Eq typ TypeExprBoolean = true <-> isBoolean typ.
Proof.
  unfold isBoolean, Eq. destruct typ as [| |t]; simpl.
  - split; [discriminate|]. intros [|]; discriminate.
  - split; auto.
  - split.
    + destruct t as [nm [lo|] [hi|]| | |]; simpl; try discriminate;
        rewrite ?andb_false_r; try discriminate.
      rewrite andb_true_r, bool_decide_eq_true. intros ->. right; reflexivity.
    + intros [|H]; [discriminate|]. injection H as ->. reflexivity.
Qed.

Section conditions.

Variable SetString : string -> option Z.
Variable typeMap : option (gmap ID TypeExpr).

Abbreviation checkExpr := (checkExpr SetString typeMap).
Abbreviation checkStatement := (checkStatement SetString typeMap).

Abbreviation resolves := (resolves SetString typeMap).

Lemma checkCondition_Ok (cond : Expr) (e : error) :
  checkCondition SetString typeMap cond e = Ok tt <->
  exists typ, resolves cond typ /\ isBoolean typ.
Proof.
  unfold checkCondition, resolves.
  destruct (operand (checkExpr cond unannotated)) as [[typ cv]|e'|]; simpl.
  - destruct (Eq typ TypeExprBoolean) eqn:He; simpl.
    + split; [|reflexivity]. intros _. exists typ. split; [eauto|].
      apply Eq_Boolean, He.
    + split; [discriminate|]. intros (typ' & [cv' H] & Hb).
      injection H as <- <-. apply Eq_Boolean in Hb. congruence.
  - split; [discriminate|]. intros (typ & [cv H] & _). discriminate.
  - split; [discriminate|]. intros (typ & [cv H] & _). discriminate.
Qed.

Lemma checkCondition_not_Boolean (cond : Expr) (e : error) (typ : MTypePtr) :
  resolves cond typ -> ~ isBoolean typ ->
  checkCondition SetString typeMap cond e = Err e.
Proof.
  intros [cv H] Hnb. unfold checkCondition. rewrite H. simpl.
  destruct (Eq typ TypeExprBoolean) eqn:He; [|reflexivity].
  apply Eq_Boolean in He. contradiction.
Qed.

(** Induction along an else-if chain. *)
Lemma If_chain_ind (P : If -> Prop) :
  (forall cond t f, P (mkIf cond t f None)) ->
  (forall cond t f o, P o -> P (mkIf cond t f (Some o))) ->
  forall o, P o.
Proof.
  intros HNone HSome. fix IH 1. intros [cond t f [o|]].
  - apply HSome, IH.
  - apply HNone.
Qed.

Lemma checkIf_Ok_conditions (o : If) :
  checkStatement (KIf o) = Ok tt ->
  forall cond, In cond (conditions o) ->
               exists typ, resolves cond typ /\ isBoolean typ.
Proof.
  induction o as [c t f|c t f o' IH] using If_chain_ind; simpl;
    (destruct (checkCondition SetString typeMap c ErrIfNotBoolean)
       as [[]|?|] eqn:Hc; try discriminate; simpl);
    (destruct (forEach checkStatement t) as [[]|?|]; try discriminate; simpl);
    (destruct (forEach checkStatement f) as [[]|?|]; try discriminate; simpl).
  - intros _ cond [<-|[]]. apply (checkCondition_Ok c ErrIfNotBoolean), Hc.
  - intros He cond [<-|Hin].
    + apply (checkCondition_Ok c ErrIfNotBoolean), Hc.
    + apply (IH He cond Hin).
Qed.

End conditions.

(** C7: an assert statement, a while loop with a condition and an if
    statement are accepted only if each condition (of the whole else-if
    chain, for an if statement) resolves to a type that is exactly Boolean;
    a condition that resolves to any other type gives the not-Boolean error
    of its statement.  For an else-if the condition is reached when the
    conditions and bodies before it have been accepted. *)
Theorem C7_conditions_are_boolean
    (SetString : string -> option Z) (typeMap : option (gmap ID TypeExpr))
    (cond : Expr) :
  let check := checkStatement SetString typeMap in
  let resolves := resolves SetString typeMap in
  (* accepted only if Boolean *)
  (check (KAssert cond) = Ok tt -> exists typ, resolves cond typ /\ isBoolean typ)
  /\ (forall body, check (KWhile (Some cond) body) = Ok tt ->
        exists typ, resolves cond typ /\ isBoolean typ)
  /\ (forall o, check (KIf o) = Ok tt -> In cond (conditions o) ->
        exists typ, resolves cond typ /\ isBoolean typ)
  (* rejected if not Boolean *)
  /\ (forall typ, resolves cond typ -> ~ isBoolean typ ->
        check (KAssert cond) = Err ErrAssertNotBoolean
        /\ (forall body,
              check (KWhile (Some cond) body) = Err ErrWhileNotBoolean)
        /\ (forall t f e,
              check (KIf (mkIf cond t f e)) = Err ErrIfNotBoolean)
        /\ (forall cond0 t f t' f' e,
              checkCondition SetString typeMap cond0 ErrIfNotBoolean = Ok tt ->
              forEach check t = Ok tt -> forEach check f = Ok tt ->
              check (KIf (mkIf cond0 t f (Some (mkIf cond t' f' e))))
              = Err ErrIfNotBoolean))
  /\ kindOf ErrAssertNotBoolean = NotBoolean
  /\ kindOf ErrWhileNotBoolean = NotBoolean
  /\ kindOf ErrIfNotBoolean = NotBoolean.
Proof.
  intros check resolves'. repeat split.
  - unfold check. simpl. apply checkCondition_Ok.
  - unfold check. intros body. simpl.
    destruct (checkCondition SetString typeMap cond ErrWhileNotBoolean)
      as [[]|?|] eqn:Hc; try discriminate.
    intros _. apply (checkCondition_Ok _ _ cond ErrWhileNotBoolean), Hc.
  - intros o Ho Hin. eapply checkIf_Ok_conditions; eauto.
  - unfold check. simpl. eapply checkCondition_not_Boolean; eauto.
  - unfold check. intros body. simpl.
    erewrite checkCondition_not_Boolean; eauto.
  - unfold check. intros t f e. simpl.
    erewrite checkCondition_not_Boolean; eauto.
  - unfold check. intros cond0 t f t' f' e Hc Ht Hf. simpl.
    rewrite Hc. simpl. fold (checkStatement SetString typeMap).
    rewrite Ht, Hf. simpl.
    erewrite checkCondition_not_Boolean; eauto.
Qed.

Lemma C7_conditions_are_boolean_witness :
  (exists typ, resolves readNumber scopeXY true_ typ /\ isBoolean typ)
  /\ checkStatement readNumber scopeXY (KIf (mkIf (lit "1") [] [] None))
     = Err ErrIfNotBoolean.
Proof.
  split.
  - apply (proj1 (C7_conditions_are_boolean readNumber scopeXY true_)).
    vm_compute; reflexivity.
  - pose proof (C7_conditions_are_boolean readNumber scopeXY (lit "1"))
      as (_ & _ & _ & Hrej & _).
    assert (Hres : resolves readNumber scopeXY (lit "1") TypeExprIdealNumber).
    { exists (Some 1). vm_compute; reflexivity. }
    assert (Hnb : ~ isBoolean TypeExprIdealNumber).
    { intros [H|H]; discriminate H. }
    destruct (Hrej TypeExprIdealNumber Hres Hnb) as (_ & _ & Hif & _).
    apply Hif.
Defined.

(** ** Type expressions *)

Section typeExpressions.

Variable SetString : string -> option Z.
Variable typeMap : option (gmap ID TypeExpr).

Abbreviation checkExpr := (checkExpr SetString typeMap).
Abbreviation checkTypeExpr := (checkTypeExpr SetString typeMap).

Lemma checkBounds_two (inclMin exclMax : option Expr) :
  checkBounds checkExpr (Bounds inclMin exclMax)
  = (checkBound SetString typeMap inclMin;; checkBound SetString typeMap exclMax).
Proof.
  unfold Bounds, checkBound. simpl.
  destruct inclMin as [lo|], exclMax as [hi|]; simpl;
    repeat case_match; reflexivity.
Qed.

Lemma checkBound_Ok (bound : option Expr) :
  checkBound SetString typeMap bound = Ok tt <->
  constantBound SetString typeMap bound.
Proof.
  unfold checkBound, constantBound. destruct bound as [b|]; [|tauto].
  destruct (checkExpr b unannotated) as [a [[]|?|]].
  - destruct (ConstValue a) as [z|] eqn:Hz.
    + split; [|reflexivity]. intros _. exists a, z. auto.
    + split; [discriminate|]. intros (a' & z & H & Hz'). congruence.
  - split; [discriminate|]. intros (a' & z & H & _). discriminate.
  - split; [discriminate|]. intros (a' & z & H & _). discriminate.
Qed.

Lemma checkBound_not_constant (bound : Expr) (a : Annot) :
  checkExpr bound unannotated = (a, Ok tt) -> ConstValue a = None ->
  checkBound SetString typeMap (Some bound) = Err ErrNotConstant.
Proof. intros Hb Hc. unfold checkBound. rewrite Hb, Hc. reflexivity. Qed.

Lemma checkBound_Err (bound : Expr) (a : Annot) (e : error) :
  checkExpr bound unannotated = (a, Err e) ->
  checkBound SetString typeMap (Some bound) = Err e.
Proof. intros Hb. unfold checkBound. rewrite Hb. reflexivity. Qed.

End typeExpressions.

(** C8: for a terminal name that is numeric or [bool] the type expression
    is accepted exactly when each bound that is present checks and carries
    a constant; a bound that checks without a constant gives the
    not-constant error, and a bound that fails gives its own error (the
    second bound is reached when the first is accepted).  A pointer is
    accepted as its inner type is, and on its own when there is none.  An
    array length must check and carry a constant, after which the inner
    type is checked; without a constant the error is the not-constant one.
    A terminal name that is neither numeric nor [bool] is not a type. *)
Theorem C8_type_expressions
    (SetString : string -> option Z) (typeMap : option (gmap ID TypeExpr)) :
  let checkExpr := checkExpr SetString typeMap in
  let checkTypeExpr := checkTypeExpr SetString typeMap in
  let constant := constantBound SetString typeMap in
  (* a terminal numeric or Boolean name *)
  (forall name inclMin exclMax,
     IsNumType name || bool_decide (name = IDBool) = true ->
     (checkTypeExpr (TypeExprName name inclMin exclMax) = Ok tt
      <-> constant inclMin /\ constant exclMax)
     /\ (forall bound a,
           checkExpr bound unannotated = (a, Ok tt) -> ConstValue a = None ->
           checkTypeExpr (TypeExprName name (Some bound) exclMax)
             = Err ErrNotConstant
           /\ (constant inclMin ->
               checkTypeExpr (TypeExprName name inclMin (Some bound))
                 = Err ErrNotConstant))
     /\ (forall bound a e,
           checkExpr bound unannotated = (a, Err e) ->
           checkTypeExpr (TypeExprName name (Some bound) exclMax) = Err e
           /\ (constant inclMin ->
               checkTypeExpr (TypeExprName name inclMin (Some bound)) = Err e)))
  (* a pointer *)
  /\ checkTypeExpr (TypeExprPtr None) = Ok tt
  /\ (forall inner,
        checkTypeExpr (TypeExprPtr (Some inner)) = checkTypeExpr inner)
  (* an array *)
  /\ (forall aLen a inner,
        checkExpr aLen unannotated = (a, Ok tt) ->
        (ConstValue a = None ->
         checkTypeExpr (TypeExprArray aLen inner) = Err ErrNotConstant)
        /\ (forall z, ConstValue a = Some z ->
              checkTypeExpr (TypeExprArray aLen inner)
              = match inner with
                | Some n => checkTypeExpr n
                | None => Ok tt
                end))
  /\ (forall aLen a e inner,
        checkExpr aLen unannotated = (a, Err e) ->
        checkTypeExpr (TypeExprArray aLen inner) = Err e)
  (* any other terminal name *)
  /\ (forall name inclMin exclMax,
        IsNumType name || bool_decide (name = IDBool) = false ->
        checkTypeExpr (TypeExprName name inclMin exclMax) = Err (ErrNotAType name)
        /\ kindOf (ErrNotAType name) = NotAType)
  /\ kindOf ErrNotConstant = NotConstant.
Proof.
  intros checkExpr' checkTypeExpr' constant.
  subst checkExpr' checkTypeExpr' constant.
  assert (Hname : forall name inclMin exclMax,
             IsNumType name || bool_decide (name = IDBool) = true ->
             checkTypeExpr SetString typeMap (TypeExprName name inclMin exclMax)
             = (checkBound SetString typeMap inclMin;;
                checkBound SetString typeMap exclMax)).
  { intros name lo hi Hn. simpl. rewrite Hn. apply checkBounds_two. }
  split; [|split; [|split; [|split; [|split; [|split]]]]].
  - intros name lo hi Hn. split; [|split].
    + rewrite (Hname _ _ _ Hn), <- !checkBound_Ok.
      destruct (checkBound SetString typeMap lo) as [[]|?|]; simpl;
        [tauto|split; [discriminate|intros [? _]; discriminate]..].
    + intros bound a Hb Hc.
      pose proof (checkBound_not_constant _ _ _ _ Hb Hc) as Hnc. split.
      * rewrite (Hname _ _ _ Hn), Hnc. reflexivity.
      * intros Hlo. apply checkBound_Ok in Hlo.
        rewrite (Hname _ _ _ Hn), Hlo, Hnc. reflexivity.
    + intros bound a e Hb.
      pose proof (checkBound_Err _ _ _ _ _ Hb) as He. split.
      * rewrite (Hname _ _ _ Hn), He. reflexivity.
      * intros Hlo. apply checkBound_Ok in Hlo.
        rewrite (Hname _ _ _ Hn), Hlo, He. reflexivity.
  - reflexivity.
  - reflexivity.
  - intros aLen a inner Hl. simpl. rewrite Hl. split.
    + intros ->. reflexivity.
    + intros z ->. reflexivity.
  - intros aLen a e inner Hl. simpl. rewrite Hl. reflexivity.
  - intros name lo hi Hn. simpl. rewrite Hn. split; reflexivity.
  - reflexivity.
Qed.

Lemma C8_type_expressions_witness :
  (checkTypeExpr readNumber scopeXY
     (TypeExprName (IDNumType "u8") (Some (lit "0")) (Some (lit "10"))) = Ok tt
   <-> constantBound readNumber scopeXY (Some (lit "0"))
       /\ constantBound readNumber scopeXY (Some (lit "10")))
  /\ checkTypeExpr readNumber scopeXY
       (TypeExprName (IDNumType "u8") (Some (var "x")) None) = Err ErrNotConstant
  /\ checkTypeExpr readNumber scopeXY
       (TypeExprArray (var "y") (Some (numType "u8"))) = Err ErrNotConstant
  /\ checkTypeExpr readNumber scopeXY
       (TypeExprArray (lit "4") (Some (numType "u8")))
     = checkTypeExpr readNumber scopeXY (numType "u8")
  /\ checkTypeExpr readNumber scopeXY (TypeExprName (IDIdent "foo") None None)
     = Err (ErrNotAType (IDIdent "foo")).
Proof.
  pose proof (C8_type_expressions readNumber scopeXY)
    as (Hname & _ & _ & Harr & _ & Hother & _).
  split; [|split; [|split; [|split]]].
  - apply (proj1 (Hname (IDNumType "u8") (Some (lit "0")) (Some (lit "10"))
                    eq_refl)).
  - apply (proj1 (proj1 (proj2 (Hname (IDNumType "u8") None None eq_refl))
                    (var "x")
                    {| ConstValue := None;
                       MType := Some (TypeExprAt (numType "u32")) |}
                    ltac:(vm_compute; reflexivity) eq_refl)).
  - apply (proj1 (Harr (var "y")
                    {| ConstValue := None;
                       MType := Some (TypeExprAt (numType "u8")) |}
                    (Some (numType "u8")) ltac:(vm_compute; reflexivity))
             eq_refl).
  - apply (proj2 (Harr (lit "4")
                    {| ConstValue := Some 4;
                       MType := Some TypeExprIdealNumber |}
                    (Some (numType "u8")) ltac:(vm_compute; reflexivity))
             4 eq_refl).
  - apply (proj1 (Hother (IDIdent "foo") None None eq_refl)).
Defined.

(** ** Which declarations reach the scope map *)

Section hoisting.

Variable SetString : string -> option Z.

Abbreviation checkVars := (checkVars SetString).

(** A node of a list that [rangeNodes] has gone through without an error
    was given to [checkVars], with a map that has the entries of the first
    one and whose own entries are in the last one. *)
Lemma rangeNodes_In (l : list Node) :
  forall m0 mf x,
    rangeNodes checkVars l (Some m0) = (Some mf, Ok tt) ->
    In x l ->
    exists ma mb,
      m0 ⊆ ma /\ checkVars x (Some ma) = (Some mb, Ok tt) /\ mb ⊆ mf.
Proof.
  induction l as [|n l IH]; intros m0 mf x; simpl; [intros _ []|].
  destruct (checkVars n (Some m0)) as [tm1 r1] eqn:Hn.
  destruct (checkVars_keepsEntries _ _ _ _ _ Hn) as (m1 & -> & H01).
  destruct r1 as [[]|e|]; try discriminate.
  intros Hgo [<-|Hin].
  - exists m0, m1. split; [reflexivity|]. split; [exact Hn|].
    assert (Hall : Forall (keepsEntries checkVars) l).
    { apply Forall_forall. intros y _. apply checkVars_keepsEntries. }
    destruct (rangeNodes_keepsEntries _ _ Hall _ _ _ Hgo) as (m2 & Heq & Hsub).
    injection Heq as <-. exact Hsub.
  - destruct (IH _ _ _ Hgo Hin) as (ma & mb & Ha & Hc & Hb).
    exists ma, mb. split; [etrans; eauto|]. auto.
Qed.

Lemma rangeLists_In (ls : list (list Node)) :
  forall m0 mf l x,
    rangeLists checkVars ls (Some m0) = (Some mf, Ok tt) ->
    In l ls -> In x l ->
    exists ma mb,
      m0 ⊆ ma /\ checkVars x (Some ma) = (Some mb, Ok tt) /\ mb ⊆ mf.
Proof.
  assert (Hkeep : forall l, Forall (keepsEntries checkVars) l).
  { intros l. apply Forall_forall. intros y _. apply checkVars_keepsEntries. }
  induction ls as [|l0 ls IH]; intros m0 mf l x; simpl; [intros _ []|].
  destruct (rangeNodes checkVars l0 (Some m0)) as [tm1 r1] eqn:Hn.
  destruct (rangeNodes_keepsEntries _ _ (Hkeep l0) _ _ _ Hn) as (m1 & -> & H01).
  destruct r1 as [[]|e|]; try discriminate.
  intros Hgo [<-|Hin] Hx.
  - destruct (rangeNodes_In _ _ _ _ Hn Hx) as (ma & mb & Ha & Hc & Hb).
    exists ma, mb. split; [exact Ha|]. split; [exact Hc|].
    assert (Hall : Forall (Forall (keepsEntries checkVars)) ls).
    { apply Forall_forall. intros y _. apply Hkeep. }
    destruct (rangeLists_keepsEntries _ _ Hall _ _ _ Hgo) as (m2 & Heq & Hsub).
    injection Heq as <-. etrans; eauto.
  - destruct (IH _ _ _ _ Hgo Hin Hx) as (ma & mb & Ha & Hc & Hb).
    exists ma, mb. split; [etrans; eauto|]. auto.
Qed.

Lemma declares_sub_unfold (n : Node) (l : list Node)
    (typeMap : option (gmap ID TypeExpr)) :
  In l (SubLists n) ->
  checkVars n typeMap = rangeLists checkVars (SubLists n) typeMap.
Proof.
  intros Hl. rewrite checkVars_unfold.
  destruct n; try reflexivity. destruct Hl.
Qed.

(** A declaration in the lists of child nodes, at any depth, is in the map
    when [checkVars] returns without an error. *)
Lemma checkVars_hoists (n : Node) (name : ID) (xType : TypeExpr) :
  declares n name xType ->
  forall m0 mf,
    checkVars n (Some m0) = (Some mf, Ok tt) ->
    mf !! name = Some xType.
Proof.
  induction 1 as [name xType value|n l m name xType Hl Hm Hd IH];
    intros m0 mf.
  - simpl. unfold checkVar.
    destruct (declared (Some m0) name); [discriminate|].
    destruct (checkTypeExpr SetString (Some m0) xType); try discriminate.
    intros Hp; injection Hp as <-. apply lookup_insert_eq.
  - rewrite (declares_sub_unfold n l _ Hl). intros Hr.
    destruct (rangeLists_In _ _ _ _ _ Hr Hl Hm) as (ma & mb & _ & Hc & Hb).
    eapply lookup_weaken; [|exact Hb]. eapply IH, Hc.
Qed.

(** A declaration of a name that has an entry makes [checkVars] fail,
    wherever it is in the lists of child nodes. *)
Lemma checkVars_collides (n : Node) (name : ID) (xType : TypeExpr) :
  declares n name xType ->
  forall m0 t typeMap',
    m0 !! name = Some t ->
    checkVars n (Some m0) <> (typeMap', Ok tt).
Proof.
  induction 1 as [name xType value|n l m name xType Hl Hm Hd IH];
    intros m0 t typeMap' Ht.
  - simpl. unfold checkVar.
    assert (declared (Some m0) name = true) as ->; [|discriminate].
    apply declared_true. eauto.
  - rewrite (declares_sub_unfold n l _ Hl). intros Hr.
    assert (Hall : Forall (Forall (keepsEntries checkVars)) (SubLists n)).
    { apply Forall_forall. intros y _. apply Forall_forall. intros z _.
      apply checkVars_keepsEntries. }
    destruct (rangeLists_keepsEntries _ _ Hall _ _ _ Hr) as (mf & -> & _).
    destruct (rangeLists_In _ _ _ _ _ Hr Hl Hm) as (ma & mb & Ha & Hc & _).
    eapply IH; [|exact Hc]. eapply lookup_weaken; eauto.
Qed.

End hoisting.

(** C9, on the code: [checkVars] goes through the lists of child nodes
    only, and the else-if link of an if statement is not one of them.  For
    [if true { } else if true { var z : u8; z = 1 }] nothing is put in the
    scope map and the assignment does not find [z]; with the same two
    statements in the else body the function is accepted.  A second
    declaration of [z] in an else-if body does not collide with the
    first. *)
Theorem C9_else_if_body_not_collected :
  let decl := KVar (IDIdent "z") (numType "u8") None in
  let use := KAssign (var "z") IDEq (lit "1") in
  let chain := [KIf (mkIf true_ [] [] (Some (mkIf true_ [decl; use] [] None)))] in
  let plain := [KIf (mkIf true_ [] [decl; use] None)] in
  rangeNodes (checkVars readNumber) chain (Some ∅) = (Some ∅, Ok tt)
  /\ checkFuncBody readNumber chain
     = Err (ErrUnrecognizedIdentifier (IDIdent "z"))
  /\ checkFuncBody readNumber plain = Ok tt
  /\ rangeNodes (checkVars readNumber)
       [decl;
        KIf (mkIf true_ [] []
               (Some (mkIf true_
                        [KVar (IDIdent "z") (numType "u16") None] [] None)))]
       (Some ∅)
     = (Some (<[IDIdent "z" := numType "u8"]> ∅), Ok tt).
Proof. repeat split; vm_compute; reflexivity. Qed.

(** In the bodies of a while loop and in the two bodies of an if statement
    the declarations are collected, and a second declaration of a name is
    a duplicate. *)
Example nested_declarations :
  let decl := KVar (IDIdent "z") (numType "u8") None in
  let use := KAssign (var "z") IDEq (lit "1") in
  checkFuncBody readNumber
    [use; KWhile (Some true_) [KIf (mkIf true_ [decl] [] None)]] = Ok tt
  /\ checkFuncBody readNumber
       [KWhile None [decl]; KIf (mkIf true_ [] [decl] None)]
     = Err (ErrDuplicateVar (IDIdent "z")).
Proof. split; vm_compute; reflexivity. Qed.

(** * Further properties of the checker *)

(** ** Unfolding the checker by one step *)

Lemma checkTypeExpr_Name (SetString : string -> option Z)
    (typeMap : option (gmap ID TypeExpr)) (name : ID) (inclMin exclMax : option Expr) :
  checkTypeExpr SetString typeMap (TypeExprName name inclMin exclMax)
  = if IsNumType name || bool_decide (name = IDBool)
    then checkBound SetString typeMap inclMin;;
         checkBound SetString typeMap exclMax
    else Err (ErrNotAType name).
Proof.
  change (checkTypeExpr SetString typeMap (TypeExprName name inclMin exclMax))
    with (if IsNumType name || bool_decide (name = IDBool)
          then checkBounds (checkExpr SetString typeMap) (Bounds inclMin exclMax)
          else Err (ErrNotAType name)).
  rewrite checkBounds_two. reflexivity.
Qed.

Lemma checkTypeExpr_Array (SetString : string -> option Z)
    (typeMap : option (gmap ID TypeExpr)) (aLen : Expr) (inner : option TypeExpr) :
  checkTypeExpr SetString typeMap (TypeExprArray aLen inner)
  = (checkBound SetString typeMap (Some aLen);;
     match inner with
     | Some n => checkTypeExpr SetString typeMap n
     | None => Ok tt
     end).
Proof.
  simpl. destruct (checkExpr SetString typeMap aLen unannotated)
    as [a [[]|?|]]; try reflexivity.
  destruct (ConstValue a); reflexivity.
Qed.

(** ** What a check leaves behind *)

(** X1: an expression that fails to check keeps the annotation it had:
    neither a type nor a constant value is written to the node before the
    error is returned. *)
Theorem X1_failed_check_leaves_node
    (SetString : string -> option Z) (typeMap : option (gmap ID TypeExpr))
    (n : Expr) (a a' : Annot) (e : error) :
  checkExpr SetString typeMap n a = (a', Err e) ->
  a' = a.
Proof. apply checkExpr_Err_untouched. Qed.

Lemma X1_failed_check_leaves_node_witness :
  let a := {| ConstValue := Some 5; MType := None |} in
  fst (checkExpr readNumber scopeXY
         (ExprBinaryOp IDXBinaryPlus (lit "1") true_) a) = a.
Proof.
  intros a.
  apply (X1_failed_check_leaves_node readNumber scopeXY
           (ExprBinaryOp IDXBinaryPlus (lit "1") true_) a _
           ErrBinaryNotNumeric).
  vm_compute; reflexivity.
Defined.

(** X2: an expression that the checker accepts carries a type, whatever
    annotation the node had before. *)
Theorem X2_accepted_expression_is_typed
    (SetString : string -> option Z) (typeMap : option (gmap ID TypeExpr))
    (n : Expr) (a a' : Annot) :
  checkExpr SetString typeMap n a = (a', Ok tt) ->
  exists t, MType a' = Some t.
Proof. intros H. apply (checkExpr_Ok_typed _ _ _ _ _ H). Qed.

Lemma X2_accepted_expression_is_typed_witness :
  exists t,
    MType {| ConstValue := None; MType := Some (TypeExprAt (numType "u32")) |}
    = Some t.
Proof.
  apply (X2_accepted_expression_is_typed readNumber scopeXY
           (ExprBinaryOp IDXBinaryPlus (var "x") (lit "1")) unannotated).
  vm_compute; reflexivity.
Defined.

(** ** No run-time panic *)

Section noPanic.

Variable SetString : string -> option Z.
Variable typeMap : option (gmap ID TypeExpr).

Abbreviation checkExpr := (checkExpr SetString typeMap).
Abbreviation checkTypeExpr := (checkTypeExpr SetString typeMap).
Abbreviation checkStatement := (checkStatement SetString typeMap).

Abbreviation neverPanics := (neverPanics SetString typeMap).

Lemma operand_no_Panic (e : Expr) :
  neverPanics e -> operand (checkExpr e unannotated) <> Panic.
Proof.
  intros He. destruct (checkExpr e unannotated) as [a [[]|?|]] eqn:Hc; simpl.
  - destruct (checkExpr_Ok_typed _ _ _ _ _ Hc) as [t ->]. discriminate.
  - discriminate.
  - exfalso. exact (He _ _ Hc).
Qed.

Lemma checkOperandKinds_no_Panic op lTyp rTyp :
  checkOperandKinds op lTyp rTyp <> Panic.
Proof. unfold checkOperandKinds. repeat case_match; discriminate. Qed.

Lemma checkOperandTypes_no_Panic op lTyp rTyp :
  checkOperandTypes op lTyp rTyp <> Panic.
Proof. unfold checkOperandTypes. repeat case_match; discriminate. Qed.

Lemma checkBound_no_Panic (bound : option Expr) :
  whenSome neverPanics bound -> checkBound SetString typeMap bound <> Panic.
Proof.
  destruct bound as [b|]; simpl; [|discriminate].
  intros Hb. destruct (checkExpr b unannotated) as [a [[]|?|]] eqn:Hc.
  - destruct (ConstValue a); discriminate.
  - discriminate.
  - exfalso. exact (Hb _ _ Hc).
Qed.

Lemma checkExpr_checkTypeExpr_no_Panic :
  (forall n, neverPanics n) /\ (forall t, checkTypeExpr t <> Panic).
Proof.
  apply Expr_TypeExpr_ind.
  - intros id0 id1 a a'. simpl. unfold checkExprOther.
    repeat case_match; by_pair.
  - intros op rhs IH a a'. simpl. unfold checkExprUnaryOp.
    pose proof (operand_no_Panic rhs IH) as Ho.
    destruct (operand (checkExpr rhs unannotated)) as [[rTyp rcv]|?|];
      [|by_pair|contradiction].
    repeat case_match; by_pair.
  - intros op lhs rhs IHl IHr a a'. simpl. unfold checkExprBinaryOp.
    pose proof (operand_no_Panic lhs IHl) as Hl.
    pose proof (operand_no_Panic rhs IHr) as Hr.
    destruct (operand (checkExpr lhs unannotated)) as [[lTyp lcv]|?|];
      [|by_pair|contradiction].
    destruct (operand (checkExpr rhs unannotated)) as [[rTyp rcv]|?|];
      [|by_pair|contradiction].
    pose proof (checkOperandKinds_no_Panic op lTyp rTyp) as Hk.
    pose proof (checkOperandTypes_no_Panic op lTyp rTyp) as Ht.
    destruct (checkOperandKinds op lTyp rTyp); [|by_pair|contradiction].
    destruct (checkOperandTypes op lTyp rTyp); [|by_pair|contradiction].
    destruct lcv as [l|], rcv as [r|];
      try (repeat case_match; by_pair).
    destruct (setConstValueBinaryOp op a l r) as [n1 [[]|?|]] eqn:Hs.
    + repeat case_match; by_pair.
    + by_pair.
    + exfalso. exact (setConstValueBinaryOp_no_Panic _ _ _ _ _ Hs).
  - intros lhs t IHl IHt a a'. simpl. unfold checkExprBinaryAs.
    pose proof (operand_no_Panic lhs IHl) as Hl.
    destruct (operand (checkExpr lhs unannotated)) as [[lTyp lcv]|?|];
      [|by_pair|contradiction].
    destruct (checkTypeExpr t); [|by_pair|contradiction].
    repeat case_match; by_pair.
  - intros k a a'. simpl. unfold checkExprAssociativeOp. by_pair.
  - intros k a a'. simpl. by_pair.
  - intros name lo hi Hlo Hhi. rewrite checkTypeExpr_Name.
    destruct (IsNumType name || bool_decide (name = IDBool)); [|discriminate].
    pose proof (checkBound_no_Panic lo Hlo) as H1.
    pose proof (checkBound_no_Panic hi Hhi) as H2.
    destruct (checkBound SetString typeMap lo); simpl; congruence.
  - intros [u|] Hu; simpl; [exact Hu|discriminate].
  - intros aLen inner Hlen Hinner. simpl.
    destruct (checkExpr aLen unannotated) as [a [[]|?|]] eqn:Hc.
    + destruct (ConstValue a); [|discriminate].
      destruct inner as [u|]; [exact Hinner|discriminate].
    + discriminate.
    + exfalso. exact (Hlen _ _ Hc).
  - intros p name. simpl. discriminate.
Qed.

Lemma checkExpr_result_no_Panic (e : Expr) (a : Annot) :
  snd (checkExpr e a) <> Panic.
Proof.
  destruct (checkExpr e a) as [a' r] eqn:Hc. simpl. intros ->.
  exact (proj1 checkExpr_checkTypeExpr_no_Panic _ _ _ Hc).
Qed.

Lemma checkCondition_no_Panic (cond : Expr) (e : error) :
  checkCondition SetString typeMap cond e <> Panic.
Proof.
  unfold checkCondition.
  pose proof (operand_no_Panic cond
                (proj1 checkExpr_checkTypeExpr_no_Panic cond)) as Ho.
  destruct (operand (checkExpr cond unannotated)) as [[typ cv]|?|]; simpl;
    [|discriminate|contradiction].
  destruct (Eq typ TypeExprBoolean); discriminate.
Qed.

Lemma checkAssign_no_Panic (lhs : Expr) (op : ID) (rhs : Expr) :
  checkAssign SetString typeMap lhs op rhs <> Panic.
Proof.
  unfold checkAssign.
  pose proof (operand_no_Panic lhs
                (proj1 checkExpr_checkTypeExpr_no_Panic lhs)) as Hl.
  pose proof (operand_no_Panic rhs
                (proj1 checkExpr_checkTypeExpr_no_Panic rhs)) as Hr.
  destruct (operand (checkExpr lhs unannotated)) as [[lTyp lcv]|?|]; simpl;
    [|discriminate|contradiction].
  destruct (operand (checkExpr rhs unannotated)) as [[rTyp rcv]|?|]; simpl;
    [|discriminate|contradiction].
  repeat case_match; discriminate.
Qed.

Lemma forEach_no_Panic {A : Type} (f : A -> result unit) (l : list A) :
  Forall (fun m => f m <> Panic) l -> forEach f l <> Panic.
Proof.
  induction 1 as [|m l Hm _ IH]; simpl; [discriminate|].
  destruct (f m); simpl; congruence.
Qed.

Lemma checkStatement_no_Panic (n : Node) : checkStatement n <> Panic.
Proof.
  induction n using Node_mutual_ind
    with (R := fun o => checkStatement (KIf o) <> Panic).
  - simpl. apply checkCondition_no_Panic.
  - simpl. apply checkAssign_no_Panic.
  - simpl. destruct value as [v|]; [|discriminate].
    pose proof (checkExpr_result_no_Panic v unannotated) as Hv.
    destruct (checkExpr v unannotated) as [a [[]|?|]]; simpl in *; congruence.
  - simpl. pose proof (forEach_no_Panic checkStatement body H) as Hb.
    destruct c as [c|]; simpl; [|exact Hb].
    pose proof (checkCondition_no_Panic c ErrWhileNotBoolean) as Hc.
    destruct (checkCondition SetString typeMap c ErrWhileNotBoolean);
      simpl; congruence.
  - exact IHn.
  - simpl. destruct v as [v|]; [|discriminate].
    pose proof (checkExpr_result_no_Panic v unannotated) as Hv.
    destruct (checkExpr v unannotated) as [a [[]|?|]]; simpl in *; congruence.
  - discriminate.
  - discriminate.
  - discriminate.
  - simpl.
    pose proof (checkCondition_no_Panic c ErrIfNotBoolean) as Hc.
    pose proof (forEach_no_Panic checkStatement t H) as Ht.
    pose proof (forEach_no_Panic checkStatement f H0) as Hf.
    destruct (checkCondition SetString typeMap c ErrIfNotBoolean);
      simpl; try congruence.
    destruct (forEach checkStatement t); simpl; try congruence.
    destruct (forEach checkStatement f); simpl; try congruence.
    destruct e as [o'|]; [exact H1|discriminate].
Qed.

End noPanic.

Lemma checkVars_no_Panic (SetString : string -> option Z) (n : Node) :
  forall m typeMap', checkVars SetString n (Some m) <> (typeMap', Panic).
Proof.
  induction n as [name xType value|n Hn IH] using Node_SubLists_ind;
    intros m typeMap'; rewrite checkVars_unfold.
  - unfold checkVar.
    pose proof (proj2 (checkExpr_checkTypeExpr_no_Panic SetString (Some m))
                  xType) as Ht.
    destruct (declared (Some m) name); [by_pair|].
    destruct (checkTypeExpr SetString (Some m) xType);
      [by_pair|by_pair|contradiction].
  - assert (Hlists : forall ls, Forall (Forall (fun x => forall m typeMap',
                checkVars SetString x (Some m) <> (typeMap', Panic))) ls ->
              forall m typeMap',
                rangeLists (checkVars SetString) ls (Some m) <> (typeMap', Panic)).
    { clear. intros ls Hls.
      assert (Hnodes : forall l, Forall (fun x => forall m typeMap',
                  checkVars SetString x (Some m) <> (typeMap', Panic)) l ->
                forall m typeMap',
                  rangeNodes (checkVars SetString) l (Some m) <> (typeMap', Panic)).
      { induction 1 as [|x l Hx _ IHl]; intros m typeMap'; simpl; [by_pair|].
        destruct (checkVars SetString x (Some m)) as [tm1 r1] eqn:Hc.
        destruct (checkVars_keepsEntries _ _ _ _ _ Hc) as (m1 & -> & _).
        destruct r1 as [[]|?|]; [apply IHl|by_pair|].
        exfalso. exact (Hx _ _ Hc). }
      induction Hls as [|l ls Hl _ IHls]; intros m typeMap'; simpl; [by_pair|].
      destruct (rangeNodes (checkVars SetString) l (Some m)) as [tm1 r1] eqn:Hc.
      assert (Hall : Forall (keepsEntries (checkVars SetString)) l).
      { apply Forall_forall. intros y _. apply checkVars_keepsEntries. }
      destruct (rangeNodes_keepsEntries _ _ Hall _ _ _ Hc) as (m1 & -> & _).
      destruct r1 as [[]|?|]; [apply IHls|by_pair|].
      exfalso. exact (Hnodes l Hl _ _ Hc). }
    destruct n; try (exfalso; eapply Hn; reflexivity); apply Hlists, IH.
Qed.

(** X3: the checker does not panic.  Checking an expression, a type
    expression or a statement never calls a method through a nil type,
    whatever the scope map is, the nil map included; and collecting the
    variables into an allocated map never panics either. *)
Theorem X3_no_panic
    (SetString : string -> option Z) (typeMap : option (gmap ID TypeExpr)) :
  (forall n a a', checkExpr SetString typeMap n a <> (a', Panic))
  /\ (forall t, checkTypeExpr SetString typeMap t <> Panic)
  /\ (forall n, checkStatement SetString typeMap n <> Panic)
  /\ (forall n m typeMap', checkVars SetString n (Some m) <> (typeMap', Panic)).
Proof.
  split; [|split; [|split]].
  - apply checkExpr_checkTypeExpr_no_Panic.
  - apply checkExpr_checkTypeExpr_no_Panic.
  - apply checkStatement_no_Panic.
  - apply checkVars_no_Panic.
Qed.

(** With the nil map [checkVars] panics at the first declaration that it
    would record: the assignment to an entry of the nil map. *)
Lemma checkVars_nil_map
    (SetString : string -> option Z)
    (name : ID) (xType : TypeExpr) (value : option Expr) :
  checkTypeExpr SetString None xType = Ok tt ->
  checkVars SetString (KVar name xType value) None = (None, Panic).
Proof. intros Ht. simpl. unfold checkVar. simpl. rewrite Ht. reflexivity. Qed.

(** X4: a declaration of a name that the scope map already has makes
    [checkVars] fail wherever the declaration stands under the node, in the
    body of a loop or of an if statement at any depth; the entries of the
    map are kept. *)
Theorem X4_declaration_collides_at_any_depth
    (SetString : string -> option Z) (n : Node)
    (m0 : gmap ID TypeExpr) (name : ID) (xType t : TypeExpr) :
  declares n name xType ->
  m0 !! name = Some t ->
  exists m' r,
    checkVars SetString n (Some m0) = (Some m', r)
    /\ r <> Ok tt
    /\ m' !! name = Some t.
Proof.
  intros Hd H0.
  destruct (checkVars SetString n (Some m0)) as [typeMap' r] eqn:Hc.
  destruct (checkVars_keepsEntries _ _ _ _ _ Hc) as (m' & -> & Hsub).
  exists m', r. split; [reflexivity|]. split.
  - intros ->. exact (checkVars_collides _ _ _ _ Hd _ _ _ H0 Hc).
  - eapply lookup_weaken; eauto.
Qed.

Lemma X4_declaration_collides_at_any_depth_witness :
  let n := KWhile None
             [KIf (mkIf true_ [] [KVar (IDIdent "x") (numType "u8") None] None)] in
  exists m' r,
    checkVars readNumber n (Some mapXY) = (Some m', r)
    /\ r <> Ok tt
    /\ m' !! IDIdent "x" = Some (numType "u32").
Proof.
  intros n.
  apply (X4_declaration_collides_at_any_depth readNumber n mapXY
           (IDIdent "x") (numType "u8") (numType "u32")).
  - eapply declares_sub; [left; reflexivity|left; reflexivity|].
    eapply declares_sub; [right; left; reflexivity|left; reflexivity|].
    constructor.
  - vm_compute; reflexivity.
Defined.

(** ** Constants *)

(** A variable has no constant value. *)
Lemma checkExpr_variable
    (SetString : string -> option Z) (typeMap : option (gmap ID TypeExpr))
    (name : ID) (a : Annot) :
  IsIdent name = true ->
  checkExpr SetString typeMap (ExprOther ID0 name) unannotated = (a, Ok tt) ->
  ConstValue a = None.
Proof.
  intros Hid. simpl. unfold checkExprOther.
  destruct name; try discriminate Hid. simpl.
  repeat case_match; intros Hp; injection Hp as <-; try discriminate;
    reflexivity.
Qed.

(** A conversion has no constant value. *)
Lemma checkExpr_as_no_const
    (SetString : string -> option Z) (typeMap : option (gmap ID TypeExpr))
    (lhs : Expr) (t : TypeExpr) (a : Annot) :
  checkExpr SetString typeMap (ExprAs lhs t) unannotated = (a, Ok tt) ->
  ConstValue a = None.
Proof.
  simpl. unfold checkExprBinaryAs.
  repeat case_match; intros Hp; injection Hp as <-; try discriminate;
    reflexivity.
Qed.

(** The operands of a constant are constants. *)
Lemma checkExpr_const_operand
    (SetString : string -> option Z) (typeMap : option (gmap ID TypeExpr))
    (n m : Expr) (a : Annot) (z : Z) :
  checkExpr SetString typeMap n unannotated = (a, Ok tt) ->
  ConstValue a = Some z ->
  operandOf m n ->
  exists a' z',
    checkExpr SetString typeMap m unannotated = (a', Ok tt)
    /\ ConstValue a' = Some z'.
Proof.
  intros Hc Hz Hop.
  destruct Hop as [op rhs|op lhs rhs|op lhs rhs|lhs t|e lhs t Hin].
  - revert Hc. simpl. unfold checkExprUnaryOp.
    destruct (operand (checkExpr SetString typeMap rhs unannotated))
      as [[rTyp rcv]|?|] eqn:Hr; try discriminate.
    apply operand_Ok in Hr as (ar & Hr & _ & Hrc).
    destruct rcv as [cv|].
    + intros _. exists ar, cv. split; [exact Hr|exact Hrc].
    + repeat case_match; intros Hp; injection Hp as <-; try discriminate;
        simpl in Hz; discriminate Hz.
  - revert Hc. simpl. unfold checkExprBinaryOp.
    destruct (operand (checkExpr SetString typeMap lhs unannotated))
      as [[lTyp lcv]|?|] eqn:Hl; try discriminate.
    apply operand_Ok in Hl as (al & Hl & _ & Hlc).
    destruct lcv as [cv|].
    + intros _. exists al, cv. split; [exact Hl|exact Hlc].
    + repeat case_match; intros Hp; injection Hp as <-; try discriminate;
        simpl in Hz; discriminate Hz.
  - revert Hc. simpl. unfold checkExprBinaryOp.
    destruct (operand (checkExpr SetString typeMap lhs unannotated))
      as [[lTyp lcv]|?|]; try discriminate.
    destruct (operand (checkExpr SetString typeMap rhs unannotated))
      as [[rTyp rcv]|?|] eqn:Hr; try discriminate.
    apply operand_Ok in Hr as (ar & Hr & _ & Hrc).
    destruct rcv as [cv|].
    + intros _. exists ar, cv. split; [exact Hr|exact Hrc].
    + destruct lcv;
        repeat case_match; intros Hp; injection Hp as <-; try discriminate;
        simpl in Hz; discriminate Hz.
  - rewrite (checkExpr_as_no_const _ _ _ _ _ Hc) in Hz. discriminate Hz.
  - rewrite (checkExpr_as_no_const _ _ _ _ _ Hc) in Hz. discriminate Hz.
Qed.

(** Every expression within a constant is a constant. *)
Lemma checkExpr_const_within
    (SetString : string -> option Z) (typeMap : option (gmap ID TypeExpr))
    (e n : Expr) :
  within e n ->
  forall (a : Annot) (z : Z),
    checkExpr SetString typeMap n unannotated = (a, Ok tt) ->
    ConstValue a = Some z ->
    exists a' z',
      checkExpr SetString typeMap e unannotated = (a', Ok tt)
      /\ ConstValue a' = Some z'.
Proof.
  induction 1 as [n|e m n _ IH Hop]; intros a z Hc Hz.
  - exists a, z. split; [exact Hc|exact Hz].
  - destruct (checkExpr_const_operand _ _ _ _ _ _ Hc Hz Hop)
      as (am & zm & Hcm & Hzm).
    exact (IH am zm Hcm Hzm).
Qed.

(** X5: an expression with a constant value has the type of an ideal
    number or the Boolean singleton, and every expression within it has a
    constant value: a variable, an expression with a variable in it and a
    conversion with [as] never have a constant value. *)
Theorem X5_constant_is_ideal_or_boolean
    (SetString : string -> option Z) (typeMap : option (gmap ID TypeExpr))
    (n : Expr) (a : Annot) (z : Z) :
  checkExpr SetString typeMap n unannotated = (a, Ok tt) ->
  ConstValue a = Some z ->
  (MType a = Some TypeExprIdealNumber \/ MType a = Some TypeExprBoolean)
  /\ forall e,
       within e n ->
       (exists a' z',
          checkExpr SetString typeMap e unannotated = (a', Ok tt)
          /\ ConstValue a' = Some z')
       /\ (forall name, IsIdent name = true -> e <> ExprOther ID0 name)
       /\ (forall lhs t, e <> ExprAs lhs t).
Proof.
  intros Hc Hz. split.
  - exact (checkExpr_const_type SetString typeMap n unannotated a z eq_refl
             Hc Hz).
  - intros e He.
    destruct (checkExpr_const_within SetString typeMap e n He a z Hc Hz)
      as (a' & z' & Hc' & Hz').
    split; [exists a', z'; split; assumption|]. split.
    + intros name Hid ->.
      rewrite (checkExpr_variable _ _ _ _ Hid Hc') in Hz'. discriminate Hz'.
    + intros lhs t ->.
      rewrite (checkExpr_as_no_const _ _ _ _ _ Hc') in Hz'. discriminate Hz'.
Qed.

Lemma X5_constant_is_ideal_or_boolean_witness :
  let n := ExprBinaryOp IDXBinaryLessThan
             (ExprUnaryOp IDXUnaryMinus (lit "1")) (lit "2") in
  let a := {| ConstValue := Some 1; MType := Some TypeExprBoolean |} in
  checkExpr readNumber scopeXY n unannotated = (a, Ok tt)
  /\ (MType a = Some TypeExprIdealNumber \/ MType a = Some TypeExprBoolean)
  /\ within (lit "1") n
  /\ (exists a' z',
        checkExpr readNumber scopeXY (lit "1") unannotated = (a', Ok tt)
        /\ ConstValue a' = Some z')
  /\ (forall e, within e n -> forall name,
        IsIdent name = true -> e <> ExprOther ID0 name)
  /\ (forall e, within e n -> forall lhs t, e <> ExprAs lhs t).
Proof.
  intros n a.
  assert (Hc : checkExpr readNumber scopeXY n unannotated = (a, Ok tt)).
  { vm_compute; reflexivity. }
  assert (Hw : within (lit "1") n).
  { eapply within_step; [|apply operandOf_lhs].
    eapply within_step; [apply within_refl|apply operandOf_unary]. }
  pose proof (X5_constant_is_ideal_or_boolean readNumber scopeXY n a 1 Hc
                eq_refl) as [Ht Hin].
  split; [exact Hc|]. split; [exact Ht|]. split; [exact Hw|].
  split; [exact (proj1 (Hin _ Hw))|]. split.
  - intros e He. exact (proj1 (proj2 (Hin e He))).
  - intros e He. exact (proj2 (proj2 (Hin e He))).
Defined.

Lemma btoi_0_1 (b : bool) : btoi b = 0 \/ btoi b = 1.
Proof. destruct b; [right|left]; reflexivity. Qed.

Lemma numeric_Boolean : numeric TypeExprBoolean = false.
Proof. reflexivity. Qed.

Lemma checkExpr_boolean_const
    (SetString : string -> option Z) (typeMap : option (gmap ID TypeExpr))
    (n : Expr) (a : Annot) (z : Z) :
  checkExpr SetString typeMap n unannotated = (a, Ok tt) ->
  ConstValue a = Some z ->
  MType a = Some TypeExprBoolean ->
  z = 0 \/ z = 1.
Proof.
  destruct n as [id0 id1|op rhs|op lhs rhs|lhs rhs|k|k]; simpl.
  - unfold checkExprOther.
    repeat case_match; intros Hp; injection Hp as <-; simpl;
      intros Hz Ht; try congruence;
      injection Hz as <-; [left|right]; reflexivity.
  - unfold checkExprUnaryOp.
    destruct (operand (checkExpr SetString typeMap rhs unannotated))
      as [[rTyp rcv]|?|]; try discriminate.
    destruct op; try discriminate.
    + destruct (numeric rTyp) eqn:Hn; try discriminate; simpl.
      intros Hp; injection Hp as <-; simpl. intros _ Ht.
      injection Ht as ->. discriminate Hn.
    + destruct (numeric rTyp) eqn:Hn; try discriminate; simpl.
      intros Hp; injection Hp as <-; simpl. intros _ Ht.
      injection Ht as ->. discriminate Hn.
    + destruct (Eq rTyp TypeExprBoolean); try discriminate; simpl.
      destruct rcv as [cv|]; intros Hp; injection Hp as <-; simpl;
        intros Hz _; [|discriminate Hz].
      injection Hz as <-. apply btoi_0_1.
  - unfold checkExprBinaryOp.
    destruct (operand (checkExpr SetString typeMap lhs unannotated))
      as [[lTyp lcv]|?|]; try discriminate.
    destruct (operand (checkExpr SetString typeMap rhs unannotated))
      as [[rTyp rcv]|?|]; try discriminate.
    destruct (checkOperandKinds op lTyp rTyp) as [[]|?|] eqn:Hk;
      try discriminate.
    destruct (checkOperandTypes op lTyp rTyp) as [[]|?|]; try discriminate.
    destruct lcv as [l|], rcv as [r|];
      try (repeat case_match; intros Hp; injection Hp as <-; simpl;
           congruence).
    destruct (numeric lTyp) eqn:Hnl, (numeric rTyp) eqn:Hnr;
      destruct op; simpl in Hk |- *; try discriminate Hk;
      repeat match goal with
             | |- context [if ?b then _ else _] => destruct b eqn:?
             end;
      try discriminate;
      intros Hp; injection Hp as <-; simpl; intros Hz Ht;
      try congruence;
      try (injection Hz as <-; apply btoi_0_1);
      injection Ht as ->;
      first [discriminate Hnl | discriminate Hnr
            | rewrite Hnl in Hk; simpl in Hk; discriminate Hk].
  - unfold checkExprBinaryAs.
    repeat case_match; intros Hp; injection Hp as <-; simpl; congruence.
  - unfold checkExprAssociativeOp. discriminate.
  - discriminate.
Qed.

(** X6: a constant of the Boolean type is 0 or 1. *)
Theorem X6_boolean_constant_is_0_or_1
    (SetString : string -> option Z) (typeMap : option (gmap ID TypeExpr))
    (n : Expr) (a : Annot) (z : Z) :
  checkExpr SetString typeMap n unannotated = (a, Ok tt) ->
  ConstValue a = Some z ->
  MType a = Some TypeExprBoolean ->
  z = 0 \/ z = 1.
Proof. apply checkExpr_boolean_const. Qed.

Lemma X6_boolean_constant_is_0_or_1_witness :
  let n := ExprBinaryOp IDXBinaryAnd true_
             (ExprBinaryOp IDXBinaryLessThan (lit "1") (lit "2")) in
  let a := {| ConstValue := Some 1; MType := Some TypeExprBoolean |} in
  checkExpr readNumber scopeXY n unannotated = (a, Ok tt)
  /\ (1 = 0 \/ 1 = 1).
Proof.
  intros n a.
  assert (Hc : checkExpr readNumber scopeXY n unannotated = (a, Ok tt)).
  { vm_compute; reflexivity. }
  split; [exact Hc|].
  apply (X6_boolean_constant_is_0_or_1 readNumber scopeXY n a 1 Hc);
    reflexivity.
Defined.

Lemma setConstValueBinaryOp_Ok_const op n l r n' :
  (forall k, op <> IDBinaryOther k) ->
  setConstValueBinaryOp op n l r = (n', Ok tt) ->
  exists z, ConstValue n' = Some z.
Proof.
  intros Hop. unfold setConstValueBinaryOp.
  destruct op; try (exfalso; eapply Hop; reflexivity);
    repeat case_match; intros Hp; injection Hp as <-; try discriminate;
    simpl; eauto.
Qed.

(** X7: an accepted expression with one of the named unary or binary
    operators has a constant value exactly when each of its operands has
    one. *)
Theorem X7_constant_iff_operands_constant
    (SetString : string -> option Z) (typeMap : option (gmap ID TypeExpr))
    (a : Annot) :
  (forall op rhs,
     (forall k, op <> IDUnaryOther k) ->
     checkExpr SetString typeMap (ExprUnaryOp op rhs) unannotated = (a, Ok tt) ->
     exists rTyp rcv,
       operand (checkExpr SetString typeMap rhs unannotated) = Ok (rTyp, rcv)
       /\ (is_Some (ConstValue a) <-> is_Some rcv))
  /\ (forall op lhs rhs,
        (forall k, op <> IDBinaryOther k) ->
        checkExpr SetString typeMap (ExprBinaryOp op lhs rhs) unannotated
          = (a, Ok tt) ->
        exists lTyp lcv rTyp rcv,
          operand (checkExpr SetString typeMap lhs unannotated) = Ok (lTyp, lcv)
          /\ operand (checkExpr SetString typeMap rhs unannotated) = Ok (rTyp, rcv)
          /\ (is_Some (ConstValue a) <-> is_Some lcv /\ is_Some rcv)).
Proof.
  split.
  - intros op rhs Hop. simpl. unfold checkExprUnaryOp.
    destruct (operand (checkExpr SetString typeMap rhs unannotated))
      as [[rTyp rcv]|?|]; try discriminate.
    intros H. exists rTyp, rcv. split; [reflexivity|].
    destruct op; try (exfalso; eapply Hop; reflexivity);
      repeat case_match; try discriminate;
      injection H as <-; simpl; split; intros [? ?]; eauto; discriminate.
  - intros op lhs rhs Hop. simpl. unfold checkExprBinaryOp.
    destruct (operand (checkExpr SetString typeMap lhs unannotated))
      as [[lTyp lcv]|?|]; try discriminate.
    destruct (operand (checkExpr SetString typeMap rhs unannotated))
      as [[rTyp rcv]|?|]; try discriminate.
    destruct (checkOperandKinds op lTyp rTyp) as [[]|?|]; try discriminate.
    destruct (checkOperandTypes op lTyp rTyp) as [[]|?|]; try discriminate.
    intros H. exists lTyp, lcv, rTyp, rcv.
    split; [reflexivity|]. split; [reflexivity|].
    destruct lcv as [l|], rcv as [r|].
    + destruct (setConstValueBinaryOp op unannotated l r)
        as [n1 [[]|?|]] eqn:Hs; try discriminate.
      destruct (setConstValueBinaryOp_Ok_const _ _ _ _ _ Hop Hs) as [z Hz].
      split; [intros _; split; eauto|]. intros _.
      repeat case_match; injection H as <-; simpl; rewrite Hz; eauto.
    + repeat case_match; injection H as <-; simpl;
        (split; [intros [? ?]|intros [_ [? ?]]]; discriminate).
    + repeat case_match; injection H as <-; simpl;
        (split; [intros [? ?]|intros [[? ?] _]]; discriminate).
    + repeat case_match; injection H as <-; simpl;
        (split; [intros [? ?]|intros [[? ?] _]]; discriminate).
Qed.

Lemma X7_constant_iff_operands_constant_witness :
  (exists rTyp rcv,
     operand (checkExpr readNumber scopeXY (var "x") unannotated) = Ok (rTyp, rcv)
     /\ (is_Some (ConstValue
                    {| ConstValue := None;
                       MType := Some (TypeExprAt (numType "u32")) |})
         <-> is_Some rcv))
  /\ (exists lTyp lcv rTyp rcv,
        operand (checkExpr readNumber scopeXY (lit "2") unannotated)
          = Ok (lTyp, lcv)
        /\ operand (checkExpr readNumber scopeXY (lit "3") unannotated)
          = Ok (rTyp, rcv)
        /\ (is_Some (ConstValue
                       {| ConstValue := Some 6;
                          MType := Some TypeExprIdealNumber |})
            <-> is_Some lcv /\ is_Some rcv)).
Proof.
  split.
  - apply (proj1 (X7_constant_iff_operands_constant readNumber scopeXY _)
             IDXUnaryMinus (var "x")); [discriminate|].
    vm_compute; reflexivity.
  - apply (proj2 (X7_constant_iff_operands_constant readNumber scopeXY _)
             IDXBinaryStar (lit "2") (lit "3")); [discriminate|].
    vm_compute; reflexivity.
Defined.

Lemma Cmp_leb (x y : Z) : (big.Cmp x y <=? 0) = (x <=? y).
Proof.
  unfold big.Cmp. destruct (x ?= y) eqn:Hc; simpl; symmetry.
  - apply Z.leb_le. apply Z.compare_eq in Hc. lia.
  - apply Z.leb_le. rewrite Z.compare_lt_iff in Hc. lia.
  - apply Z.leb_gt. rewrite Z.compare_gt_iff in Hc. lia.
Qed.

Lemma Cmp_geb (x y : Z) : (big.Cmp x y >=? 0) = (y <=? x).
Proof.
  unfold big.Cmp. destruct (x ?= y) eqn:Hc; simpl; symmetry.
  - apply Z.leb_le. apply Z.compare_eq in Hc. lia.
  - apply Z.leb_gt. rewrite Z.compare_lt_iff in Hc. lia.
  - apply Z.leb_le. rewrite Z.compare_gt_iff in Hc. lia.
Qed.

(** X8: the six comparisons of two numeric constants are folded to 1 when
    the relation holds between the two integers and to 0 when it does not,
    with the Boolean type. *)
Theorem X8_comparison_folding
    (SetString : string -> option Z) (typeMap : option (gmap ID TypeExpr))
    (lhs rhs : Expr) (lTyp rTyp : MTypePtr) (l r : Z) (a : Annot) :
  operand (checkExpr SetString typeMap lhs unannotated) = Ok (lTyp, Some l) ->
  operand (checkExpr SetString typeMap rhs unannotated) = Ok (rTyp, Some r) ->
  numeric lTyp = true ->
  numeric rTyp = true ->
  let folded (op : BinaryOp) (b : bool) :=
    checkExpr SetString typeMap (ExprBinaryOp op lhs rhs) a
    = (SetMType TypeExprBoolean (SetConstValue (if b then 1 else 0) a), Ok tt) in
  folded IDXBinaryNotEq (negb (l =? r))
  /\ folded IDXBinaryLessThan (l <? r)
  /\ folded IDXBinaryLessEq (l <=? r)
  /\ folded IDXBinaryEqEq (l =? r)
  /\ folded IDXBinaryGreaterEq (r <=? l)
  /\ folded IDXBinaryGreaterThan (r <? l).
Proof.
  intros Hl Hr Hnl Hnr folded. unfold folded.
  repeat split;
    rewrite (checkExprBinaryOp_numeric_constants _ _ _ _ _ _ _ _ _ _ Hl Hr Hnl Hnr)
      by discriminate;
    simpl;
    rewrite ?Cmp_eqb, ?Cmp_ltb, ?Cmp_leb, ?Cmp_geb, ?Cmp_gtb;
    reflexivity.
Qed.

Lemma X8_comparison_folding_witness :
  let folded (op : BinaryOp) (b : bool) :=
    checkExpr readNumber scopeXY
      (ExprBinaryOp op (ExprUnaryOp IDXUnaryMinus (lit "3")) (lit "2")) unannotated
    = (SetMType TypeExprBoolean
         (SetConstValue (if b then 1 else 0) unannotated), Ok tt) in
  folded IDXBinaryNotEq (negb (-3 =? 2))
  /\ folded IDXBinaryLessThan (-3 <? 2)
  /\ folded IDXBinaryLessEq (-3 <=? 2)
  /\ folded IDXBinaryEqEq (-3 =? 2)
  /\ folded IDXBinaryGreaterEq (2 <=? -3)
  /\ folded IDXBinaryGreaterThan (2 <? -3).
Proof.
  apply (X8_comparison_folding readNumber scopeXY
           (ExprUnaryOp IDXUnaryMinus (lit "3")) (lit "2")
           TypeExprIdealNumber TypeExprIdealNumber (-3) 2 unannotated);
    reflexivity.
Defined.

(** X9: shifting a constant to the left and then to the right by the same
    amount, within the range that a shift allows, gives the constant back. *)
Theorem X9_shift_left_then_right
    (SetString : string -> option Z) (typeMap : option (gmap ID TypeExpr))
    (lhs rhs : Expr) (lTyp rTyp : MTypePtr) (l r : Z) (a : Annot) :
  operand (checkExpr SetString typeMap lhs unannotated) = Ok (lTyp, Some l) ->
  operand (checkExpr SetString typeMap rhs unannotated) = Ok (rTyp, Some r) ->
  numeric lTyp = true ->
  numeric rTyp = true ->
  0 <= r <= 65535 ->
  checkExpr SetString typeMap
    (ExprBinaryOp IDXBinaryShiftR (ExprBinaryOp IDXBinaryShiftL lhs rhs) rhs) a
  = (SetMType TypeExprIdealNumber (SetConstValue l a), Ok tt).
Proof.
  intros Hl Hr Hnl Hnr Hrange.
  assert (Hb : (big.Cmp r zero <? 0) || (big.Cmp r ffff >? 0) = false).
  { rewrite Cmp_ltb, Cmp_gtb. unfold zero, ffff.
    apply orb_false_iff. rewrite !Z.ltb_ge. lia. }
  assert (Hshl : operand (checkExpr SetString typeMap
                            (ExprBinaryOp IDXBinaryShiftL lhs rhs) unannotated)
                 = Ok (TypeExprIdealNumber, Some (Z.shiftl l r))).
  { rewrite (checkExprBinaryOp_numeric_constants _ _ _ _ _ _ _ _ _ _ Hl Hr Hnl Hnr)
      by discriminate.
    simpl. rewrite Hb. reflexivity. }
  rewrite (checkExprBinaryOp_numeric_constants _ _ _ _ _ _ _ _ _ _
             Hshl Hr eq_refl Hnr) by discriminate.
  simpl. rewrite Hb. unfold big.Rsh.
  rewrite Z.shiftr_shiftl_l by lia. rewrite Z.sub_diag, Z.shiftl_0_r.
  reflexivity.
Qed.

Lemma X9_shift_left_then_right_witness :
  checkExpr readNumber scopeXY
    (ExprBinaryOp IDXBinaryShiftR
       (ExprBinaryOp IDXBinaryShiftL (ExprUnaryOp IDXUnaryMinus (lit "5"))
          (lit "12")) (lit "12")) unannotated
  = (SetMType TypeExprIdealNumber (SetConstValue (-5) unannotated), Ok tt).
Proof.
  apply (X9_shift_left_then_right readNumber scopeXY
           (ExprUnaryOp IDXUnaryMinus (lit "5")) (lit "12")
           TypeExprIdealNumber TypeExprIdealNumber (-5) 12 unannotated);
    try reflexivity.
  lia.
Defined.

(** ** Logical and unary operators *)

(** X10: [and] and [or] compare the types of their operands with the
    Boolean singleton by pointer.  They are accepted only if both operand
    types are the singleton itself, and then have that type; an operand of
    any other type, the declared type [bool] of a variable included, gives
    the not-Boolean error. *)
Theorem X10_logical_operators
    (SetString : string -> option Z) (typeMap : option (gmap ID TypeExpr))
    (op : BinaryOp) (lhs rhs : Expr) (a : Annot) :
  op = IDXBinaryAnd \/ op = IDXBinaryOr ->
  (forall a',
     checkExpr SetString typeMap (ExprBinaryOp op lhs rhs) a = (a', Ok tt) ->
     resolves SetString typeMap lhs TypeExprBoolean
     /\ resolves SetString typeMap rhs TypeExprBoolean
     /\ MType a' = Some TypeExprBoolean)
  /\ (forall lTyp lcv rTyp rcv,
        operand (checkExpr SetString typeMap lhs unannotated) = Ok (lTyp, lcv) ->
        operand (checkExpr SetString typeMap rhs unannotated) = Ok (rTyp, rcv) ->
        lTyp <> TypeExprBoolean \/ rTyp <> TypeExprBoolean ->
        checkExpr SetString typeMap (ExprBinaryOp op lhs rhs) a
        = (a, Err ErrBinaryNotBoolean)).
Proof.
  intros Hop. split.
  - intros a' H.
    apply checkExprBinaryOp_Ok_inv in H
      as (lTyp & lcv & rTyp & rcv & Hlo & Hro & Hk & _ & Ht).
    assert (lTyp = TypeExprBoolean /\ rTyp = TypeExprBoolean) as [-> ->].
    { destruct Hop; subst op; simpl in Hk;
        destruct lTyp, rTyp; simpl in Hk; try discriminate; auto. }
    split; [exists lcv; exact Hlo|]. split; [exists rcv; exact Hro|].
    destruct Hop; subst op; exact Ht.
  - intros lTyp lcv rTyp rcv Hlo Hro Hne.
    simpl. unfold checkExprBinaryOp. rewrite Hlo, Hro.
    destruct Hop; subst op; simpl;
      destruct lTyp, rTyp; simpl; try reflexivity;
      destruct Hne as [Hne|Hne]; contradiction.
Qed.

Lemma X10_logical_operators_witness :
  let scope := Some (<[IDIdent "b" := boolTypeExpr]> (∅ : gmap ID TypeExpr)) in
  (resolves readNumber scope true_ TypeExprBoolean
   /\ resolves readNumber scope
        (ExprBinaryOp IDXBinaryLessThan (lit "1") (lit "2")) TypeExprBoolean
   /\ MType {| ConstValue := Some 1; MType := Some TypeExprBoolean |}
      = Some TypeExprBoolean)
  /\ checkExpr readNumber scope
       (ExprBinaryOp IDXBinaryAnd (var "b") true_) unannotated
     = (unannotated, Err ErrBinaryNotBoolean)
  /\ checkStatement readNumber scope (KIf (mkIf (var "b") [] [] None)) = Ok tt.
Proof.
  intros scope. split; [|split].
  - apply (proj1 (X10_logical_operators readNumber scope IDXBinaryAnd true_
                    (ExprBinaryOp IDXBinaryLessThan (lit "1") (lit "2"))
                    unannotated (or_introl eq_refl))).
    vm_compute; reflexivity.
  - apply (proj2 (X10_logical_operators readNumber scope IDXBinaryAnd
                    (var "b") true_ unannotated (or_introl eq_refl))
             (TypeExprAt boolTypeExpr) None TypeExprBoolean (Some 1));
      [vm_compute; reflexivity | vm_compute; reflexivity | left; discriminate].
  - vm_compute; reflexivity.
Defined.

(** X11: a unary minus of a numeric operand has the type of the operand
    and the negated constant, if there is one, so that two unary minus
    signs give an expression the annotation of the operand itself; and two
    [not] give an operand of the Boolean singleton type its annotation
    back. *)
Theorem X11_unary_operators
    (SetString : string -> option Z) (typeMap : option (gmap ID TypeExpr))
    (rhs : Expr) (ar : Annot) (rTyp : MTypePtr) :
  checkExpr SetString typeMap rhs unannotated = (ar, Ok tt) ->
  MType ar = Some rTyp ->
  (numeric rTyp = true ->
   checkExpr SetString typeMap (ExprUnaryOp IDXUnaryMinus rhs) unannotated
     = ({| ConstValue := Z.opp <$> ConstValue ar; MType := Some rTyp |}, Ok tt)
   /\ checkExpr SetString typeMap
        (ExprUnaryOp IDXUnaryMinus (ExprUnaryOp IDXUnaryMinus rhs)) unannotated
      = (ar, Ok tt)
   /\ checkExpr SetString typeMap (ExprUnaryOp IDXUnaryPlus rhs) unannotated
      = (ar, Ok tt))
  /\ (numeric rTyp = false ->
      checkExpr SetString typeMap (ExprUnaryOp IDXUnaryMinus rhs) unannotated
      = (unannotated, Err ErrUnaryNotNumeric))
  /\ (rTyp = TypeExprBoolean ->
      checkExpr SetString typeMap
        (ExprUnaryOp IDXUnaryNot (ExprUnaryOp IDXUnaryNot rhs)) unannotated
      = (ar, Ok tt)).
Proof.
  intros Hc Ht.
  assert (Ho : operand (checkExpr SetString typeMap rhs unannotated)
               = Ok (rTyp, ConstValue ar)).
  { rewrite Hc. apply operand_of_Ok, Ht. }
  destruct ar as [cv mt]. simpl in Ht, Ho. subst mt.
  split; [|split].
  - intros Hn.
    assert (Hminus :
              checkExpr SetString typeMap (ExprUnaryOp IDXUnaryMinus rhs)
                unannotated
              = ({| ConstValue := Z.opp <$> cv; MType := Some rTyp |}, Ok tt)).
    { simpl. unfold checkExprUnaryOp. rewrite Ho, Hn. simpl.
      destruct cv; reflexivity. }
    split; [exact Hminus|]. split.
    + change (checkExpr SetString typeMap
                (ExprUnaryOp IDXUnaryMinus (ExprUnaryOp IDXUnaryMinus rhs))
                unannotated)
        with (checkExprUnaryOp (checkExpr SetString typeMap) IDXUnaryMinus
                (ExprUnaryOp IDXUnaryMinus rhs) unannotated).
      unfold checkExprUnaryOp. rewrite Hminus. simpl. rewrite Hn. simpl.
      destruct cv as [z|]; simpl; [|reflexivity].
      unfold big.Neg. rewrite Z.opp_involutive. reflexivity.
    + simpl. unfold checkExprUnaryOp. rewrite Ho, Hn. simpl.
      destruct cv; reflexivity.
  - intros Hn. simpl. unfold checkExprUnaryOp. rewrite Ho, Hn. reflexivity.
  - intros ->.
    assert (Hnot :
              checkExpr SetString typeMap (ExprUnaryOp IDXUnaryNot rhs)
                unannotated
              = ({| ConstValue := (fun z => btoi (z =? 0)) <$> cv;
                    MType := Some TypeExprBoolean |}, Ok tt)).
    { simpl. unfold checkExprUnaryOp. rewrite Ho. simpl.
      destruct cv; simpl; rewrite ?Cmp_eqb; reflexivity. }
    change (checkExpr SetString typeMap
              (ExprUnaryOp IDXUnaryNot (ExprUnaryOp IDXUnaryNot rhs))
              unannotated)
      with (checkExprUnaryOp (checkExpr SetString typeMap) IDXUnaryNot
              (ExprUnaryOp IDXUnaryNot rhs) unannotated).
    unfold checkExprUnaryOp. rewrite Hnot. simpl.
    destruct cv as [z|]; simpl; [|reflexivity].
    rewrite Cmp_eqb.
    destruct (checkExpr_boolean_const _ _ _ _ z Hc eq_refl eq_refl)
      as [-> | ->]; reflexivity.
Qed.

Lemma X11_unary_operators_witness :
  (checkExpr readNumber scopeXY (ExprUnaryOp IDXUnaryMinus (lit "7")) unannotated
   = ({| ConstValue := Z.opp <$> Some 7; MType := Some TypeExprIdealNumber |},
      Ok tt)
   /\ checkExpr readNumber scopeXY
        (ExprUnaryOp IDXUnaryMinus (ExprUnaryOp IDXUnaryMinus (lit "7")))
        unannotated
      = ({| ConstValue := Some 7; MType := Some TypeExprIdealNumber |}, Ok tt)
   /\ checkExpr readNumber scopeXY (ExprUnaryOp IDXUnaryPlus (lit "7")) unannotated
      = ({| ConstValue := Some 7; MType := Some TypeExprIdealNumber |}, Ok tt))
  /\ checkExpr readNumber scopeXY (ExprUnaryOp IDXUnaryMinus true_) unannotated
     = (unannotated, Err ErrUnaryNotNumeric)
  /\ checkExpr readNumber scopeXY
       (ExprUnaryOp IDXUnaryNot (ExprUnaryOp IDXUnaryNot true_)) unannotated
     = ({| ConstValue := Some 1; MType := Some TypeExprBoolean |}, Ok tt).
Proof.
  split; [|split].
  - apply (proj1 (X11_unary_operators readNumber scopeXY (lit "7")
                    {| ConstValue := Some 7; MType := Some TypeExprIdealNumber |}
                    TypeExprIdealNumber eq_refl eq_refl)).
    reflexivity.
  - apply (proj1 (proj2 (X11_unary_operators readNumber scopeXY true_
                    {| ConstValue := Some 1; MType := Some TypeExprBoolean |}
                    TypeExprBoolean eq_refl eq_refl))).
    reflexivity.
  - apply (proj2 (proj2 (X11_unary_operators readNumber scopeXY true_
                    {| ConstValue := Some 1; MType := Some TypeExprBoolean |}
                    TypeExprBoolean eq_refl eq_refl))).
    reflexivity.
Defined.

(** ** Acceptance goes down to the operands *)

Section hereditary.

Variable SetString : string -> option Z.
Variable typeMap : option (gmap ID TypeExpr).

Abbreviation checkExpr := (checkExpr SetString typeMap).
Abbreviation checkTypeExpr := (checkTypeExpr SetString typeMap).

Abbreviation accepted := (accepted SetString typeMap).

Lemma operand_Ok_accepted (e : Expr) (t : MTypePtr) (cv : option Z) :
  operand (checkExpr e unannotated) = Ok (t, cv) -> accepted e.
Proof. intros H. apply operand_Ok in H as (a & H & _). exists a. exact H. Qed.

Lemma checkBound_Ok_accepted (e : Expr) :
  checkBound SetString typeMap (Some e) = Ok tt -> accepted e.
Proof.
  unfold checkBound.
  destruct (checkExpr e unannotated) as [a [[]|?|]] eqn:Hc; try discriminate.
  intros _. exists a. exact Hc.
Qed.

Lemma checkTypeExpr_Ok_inTypeExpr (e : Expr) (t : TypeExpr) :
  inTypeExpr e t -> checkTypeExpr t = Ok tt -> accepted e.
Proof.
  induction 1 as [e name hi|e name lo|e inner _ IH|aLen inner|e aLen inner _ IH].
  - rewrite checkTypeExpr_Name.
    destruct (IsNumType name || bool_decide (name = IDBool)); [|discriminate].
    destruct (checkBound SetString typeMap (Some e)) as [[]|?|] eqn:Hb;
      try discriminate.
    intros _. apply checkBound_Ok_accepted, Hb.
  - rewrite checkTypeExpr_Name.
    destruct (IsNumType name || bool_decide (name = IDBool)); [|discriminate].
    destruct (checkBound SetString typeMap lo) as [[]|?|]; try discriminate.
    simpl. apply checkBound_Ok_accepted.
  - simpl. exact IH.
  - rewrite checkTypeExpr_Array.
    destruct (checkBound SetString typeMap (Some aLen)) as [[]|?|] eqn:Hb;
      try discriminate.
    intros _. apply checkBound_Ok_accepted, Hb.
  - rewrite checkTypeExpr_Array.
    destruct (checkBound SetString typeMap (Some aLen)) as [[]|?|];
      try discriminate.
    simpl. exact IH.
Qed.

Lemma checkExpr_Ok_operandOf (e n : Expr) (a a' : Annot) :
  operandOf e n -> checkExpr n a = (a', Ok tt) -> accepted e.
Proof.
  destruct 1 as [op rhs|op lhs rhs|op lhs rhs|lhs t|e lhs t Hin]; simpl.
  - unfold checkExprUnaryOp.
    destruct (operand (checkExpr rhs unannotated)) as [[rTyp rcv]|?|] eqn:Ho;
      try discriminate.
    intros _. eapply operand_Ok_accepted, Ho.
  - intros H. apply checkExprBinaryOp_Ok_inv in H
      as (lTyp & lcv & rTyp & rcv & Hlo & _).
    eapply operand_Ok_accepted, Hlo.
  - intros H. apply checkExprBinaryOp_Ok_inv in H
      as (lTyp & lcv & rTyp & rcv & _ & Hro & _).
    eapply operand_Ok_accepted, Hro.
  - unfold checkExprBinaryAs.
    destruct (operand (checkExpr lhs unannotated)) as [[lTyp lcv]|?|] eqn:Ho;
      try discriminate.
    intros _. eapply operand_Ok_accepted, Ho.
  - unfold checkExprBinaryAs.
    destruct (operand (checkExpr lhs unannotated)) as [[lTyp lcv]|?|];
      try discriminate.
    destruct (checkTypeExpr t) as [[]|?|] eqn:Ht; try discriminate.
    intros _. eapply checkTypeExpr_Ok_inTypeExpr; eauto.
Qed.

Lemma unsupported_rejected (e : Expr) (a a' : Annot) :
  unsupported e -> checkExpr e a <> (a', Ok tt).
Proof.
  destruct e as [id0 id1|op rhs|op lhs rhs|lhs rhs|k|k]; simpl;
    try contradiction.
  - intros [Hid|(Hlit & Hident & Hf & Ht)]; unfold checkExprOther.
    + destruct id0; try discriminate. contradiction.
    + rewrite Hlit, Hident.
      rewrite !bool_decide_eq_false_2 by assumption.
      destruct id0; discriminate.
  - destruct op; try contradiction. intros _.
    unfold checkExprUnaryOp.
    destruct (operand (checkExpr rhs unannotated)) as [[rTyp rcv]|?|];
      discriminate.
  - intros _. unfold checkExprAssociativeOp. discriminate.
  - intros _. discriminate.
Qed.

Lemma within_accepted (e n : Expr) :
  within e n ->
  forall a a', checkExpr n a = (a', Ok tt) ->
  exists a0 ae, checkExpr e a0 = (ae, Ok tt).
Proof.
  induction 1 as [n|e m n _ IH Hop]; intros a a' Hn.
  - exists a, a'. exact Hn.
  - destruct (checkExpr_Ok_operandOf _ _ _ _ Hop Hn) as [am Hm].
    exact (IH _ _ Hm).
Qed.

End hereditary.

(** X12: when an expression is accepted, so is every expression within
    it, at any depth: the operands, and the bounds and array lengths of the
    type of a conversion.  None of them is one of the forms that the checker
    has no rule for (a call, an index, a slice, a selector, [_], [this], an
    associative operator): such a form is rejected wherever it stands. *)
Theorem X12_accepted_down_to_operands
    (SetString : string -> option Z) (typeMap : option (gmap ID TypeExpr))
    (n e : Expr) (a a' : Annot) :
  checkExpr SetString typeMap n a = (a', Ok tt) ->
  within e n ->
  (exists a0 ae, checkExpr SetString typeMap e a0 = (ae, Ok tt))
  /\ ~ unsupported e.
Proof.
  intros Hn Hw.
  destruct (within_accepted _ _ _ _ Hw _ _ Hn) as (a0 & ae & He).
  split; [eauto|]. intros Hu.
  exact (unsupported_rejected _ _ _ _ _ Hu He).
Qed.

Lemma X12_accepted_down_to_operands_witness :
  (exists a0 ae, checkExpr readNumber scopeXY (lit "3") a0 = (ae, Ok tt))
  /\ ~ unsupported (lit "3").
Proof.
  apply (X12_accepted_down_to_operands readNumber scopeXY
           (ExprBinaryOp IDXBinaryPlus (var "x")
              (ExprAs (var "y")
                 (TypeExprName (IDNumType "u32")
                    (Some (ExprUnaryOp IDXUnaryMinus (lit "3"))) None)))
           (lit "3") unannotated
           {| ConstValue := None; MType := Some (TypeExprAt (numType "u32")) |}).
  - vm_compute; reflexivity.
  - eapply within_step; [|apply operandOf_rhs].
    eapply within_step; [|apply operandOf_as_type, inTypeExpr_inclMin].
    eapply within_step; [|apply operandOf_unary].
    apply within_refl.
Defined.

(** ** A larger scope *)

Lemma checkExprOther_ident (SetString : string -> option Z)
    (typeMap : option (gmap ID TypeExpr)) (id1 : ID) (a : Annot) :
  IsNumLiteral id1 = false ->
  IsIdent id1 = true ->
  checkExpr SetString typeMap (ExprOther ID0 id1) a
  = match scopeLookup typeMap id1 with
    | Some typ => (SetMType (TypeExprAt typ) a, Ok tt)
    | None => (a, Err (ErrUnrecognizedIdentifier id1))
    end.
Proof.
  intros Hlit Hident. simpl. unfold checkExprOther. rewrite Hlit, Hident.
  destruct typeMap as [m|]; reflexivity.
Qed.

Section largerScope.

Variable SetString : string -> option Z.
Variables typeMap typeMap' : option (gmap ID TypeExpr).
Hypothesis Hincluded : scopeIncluded typeMap typeMap'.

Abbreviation carriesOver := (carriesOver SetString typeMap typeMap').

Lemma carriesOver_operand (e : Expr) (t : MTypePtr) (cv : option Z) :
  carriesOver e ->
  operand (checkExpr SetString typeMap e unannotated) = Ok (t, cv) ->
  operand (checkExpr SetString typeMap' e unannotated) = Ok (t, cv).
Proof.
  intros He Ho. apply operand_Ok in Ho as (a & Hc & Ht & Hcv).
  rewrite (He _ _ Hc). simpl. rewrite Ht, Hcv. reflexivity.
Qed.

Lemma carriesOver_checkBound (bound : option Expr) :
  whenSome carriesOver bound ->
  checkBound SetString typeMap bound = Ok tt ->
  checkBound SetString typeMap' bound = Ok tt.
Proof.
  destruct bound as [b|]; simpl; [|reflexivity].
  intros Hb.
  destruct (checkExpr SetString typeMap b unannotated) as [a [[]|?|]] eqn:Hc;
    try discriminate.
  rewrite (Hb _ _ Hc). trivial.
Qed.

Lemma checkExpr_checkTypeExpr_carryOver :
  (forall n, carriesOver n)
  /\ (forall t, checkTypeExpr SetString typeMap t = Ok tt ->
                checkTypeExpr SetString typeMap' t = Ok tt).
Proof.
  apply Expr_TypeExpr_ind.
  - intros id0 id1 a a'.
    destruct (bool_decide (id0 = ID0)) eqn:Hid0.
    + apply bool_decide_eq_true in Hid0 as ->.
      destruct (IsNumLiteral id1) eqn:Hlit.
      { simpl. unfold checkExprOther. rewrite Hlit. trivial. }
      destruct (IsIdent id1) eqn:Hident.
      { rewrite !checkExprOther_ident by assumption.
        destruct (scopeLookup typeMap id1) as [typ|] eqn:Hs; [|discriminate].
        rewrite (Hincluded _ _ Hs). trivial. }
      simpl. unfold checkExprOther. rewrite Hlit, Hident. trivial.
    + apply bool_decide_eq_false in Hid0.
      simpl. unfold checkExprOther. destruct id0; try discriminate.
      contradiction.
  - intros op rhs IH a a'. simpl. unfold checkExprUnaryOp.
    destruct (operand (checkExpr SetString typeMap rhs unannotated))
      as [[rTyp rcv]|?|] eqn:Ho; try discriminate.
    rewrite (carriesOver_operand _ _ _ IH Ho). trivial.
  - intros op lhs rhs IHl IHr a a'. simpl. unfold checkExprBinaryOp.
    destruct (operand (checkExpr SetString typeMap lhs unannotated))
      as [[lTyp lcv]|?|] eqn:Hl; try discriminate.
    destruct (operand (checkExpr SetString typeMap rhs unannotated))
      as [[rTyp rcv]|?|] eqn:Hr; try discriminate.
    rewrite (carriesOver_operand _ _ _ IHl Hl).
    rewrite (carriesOver_operand _ _ _ IHr Hr). trivial.
  - intros lhs t IHl IHt a a'. simpl. unfold checkExprBinaryAs.
    destruct (operand (checkExpr SetString typeMap lhs unannotated))
      as [[lTyp lcv]|?|] eqn:Hl; try discriminate.
    rewrite (carriesOver_operand _ _ _ IHl Hl).
    destruct (checkTypeExpr SetString typeMap t) as [[]|?|] eqn:Ht;
      try discriminate.
    rewrite (IHt eq_refl). trivial.
  - intros k a a'. simpl. trivial.
  - intros k a a'. simpl. trivial.
  - intros name lo hi Hlo Hhi. rewrite !checkTypeExpr_Name.
    destruct (IsNumType name || bool_decide (name = IDBool)); [|trivial].
    destruct (checkBound SetString typeMap lo) as [[]|?|] eqn:Hb;
      try discriminate.
    rewrite (carriesOver_checkBound _ Hlo Hb). simpl.
    apply carriesOver_checkBound, Hhi.
  - intros [u|] Hu; simpl; [exact Hu|trivial].
  - intros aLen inner Hlen Hinner. rewrite !checkTypeExpr_Array.
    destruct (checkBound SetString typeMap (Some aLen)) as [[]|?|] eqn:Hb;
      try discriminate.
    rewrite (carriesOver_checkBound (Some aLen) Hlen Hb). simpl.
    destruct inner as [u|]; [exact Hinner|trivial].
  - intros p name. simpl. trivial.
Qed.

Lemma checkCondition_carryOver (cond : Expr) (e : error) :
  checkCondition SetString typeMap cond e = Ok tt ->
  checkCondition SetString typeMap' cond e = Ok tt.
Proof.
  unfold checkCondition.
  destruct (operand (checkExpr SetString typeMap cond unannotated))
    as [[typ cv]|?|] eqn:Ho; try discriminate.
  rewrite (carriesOver_operand _ _ _
             (proj1 checkExpr_checkTypeExpr_carryOver cond) Ho).
  trivial.
Qed.

Lemma checkAssign_carryOver (lhs : Expr) (op : ID) (rhs : Expr) :
  checkAssign SetString typeMap lhs op rhs = Ok tt ->
  checkAssign SetString typeMap' lhs op rhs = Ok tt.
Proof.
  unfold checkAssign.
  destruct (operand (checkExpr SetString typeMap lhs unannotated))
    as [[lTyp lcv]|?|] eqn:Hl; try discriminate.
  rewrite (carriesOver_operand _ _ _
             (proj1 checkExpr_checkTypeExpr_carryOver lhs) Hl).
  simpl.
  destruct (operand (checkExpr SetString typeMap rhs unannotated))
    as [[rTyp rcv]|?|] eqn:Hr; try discriminate.
  rewrite (carriesOver_operand _ _ _
             (proj1 checkExpr_checkTypeExpr_carryOver rhs) Hr).
  trivial.
Qed.

Lemma checkValue_carryOver (value : Expr) :
  match checkExpr SetString typeMap value unannotated with
  | (_, Ok _) => Ok tt
  | (_, Err e) => Err e
  | (_, Panic) => Panic
  end = Ok tt ->
  match checkExpr SetString typeMap' value unannotated with
  | (_, Ok _) => Ok tt
  | (_, Err e) => Err e
  | (_, Panic) => Panic
  end = Ok tt.
Proof.
  destruct (checkExpr SetString typeMap value unannotated)
    as [a [[]|?|]] eqn:Hc; try discriminate.
  rewrite (proj1 checkExpr_checkTypeExpr_carryOver value _ _ Hc). trivial.
Qed.

Lemma forEach_carryOver (l : list Node) :
  Forall (fun m => checkStatement SetString typeMap m = Ok tt ->
                   checkStatement SetString typeMap' m = Ok tt) l ->
  forEach (checkStatement SetString typeMap) l = Ok tt ->
  forEach (checkStatement SetString typeMap') l = Ok tt.
Proof.
  induction 1 as [|m l Hm _ IH]; simpl; [trivial|].
  destruct (checkStatement SetString typeMap m) as [[]|?|]; try discriminate.
  rewrite (Hm eq_refl). simpl. exact IH.
Qed.

Lemma checkStatement_carryOver (n : Node) :
  checkStatement SetString typeMap n = Ok tt ->
  checkStatement SetString typeMap' n = Ok tt.
Proof.
  induction n using Node_mutual_ind
    with (R := fun o => checkStatement SetString typeMap (KIf o) = Ok tt ->
                        checkStatement SetString typeMap' (KIf o) = Ok tt).
  - simpl. apply checkCondition_carryOver.
  - simpl. apply checkAssign_carryOver.
  - simpl. destruct value as [v|]; [apply checkValue_carryOver|trivial].
  - simpl. destruct c as [c|]; simpl.
    + destruct (checkCondition SetString typeMap c ErrWhileNotBoolean)
        as [[]|?|] eqn:Hc; try discriminate.
      rewrite (checkCondition_carryOver _ _ Hc). simpl.
      apply forEach_carryOver, H.
    + apply forEach_carryOver, H.
  - exact IHn.
  - simpl. destruct v as [v|]; [apply checkValue_carryOver|trivial].
  - trivial.
  - trivial.
  - discriminate.
  - simpl.
    destruct (checkCondition SetString typeMap c ErrIfNotBoolean)
      as [[]|?|] eqn:Hc; try discriminate.
    rewrite (checkCondition_carryOver _ _ Hc). simpl.
    destruct (forEach (checkStatement SetString typeMap) t)
      as [[]|?|] eqn:Ht; try discriminate.
    rewrite (forEach_carryOver _ H Ht). simpl.
    destruct (forEach (checkStatement SetString typeMap) f)
      as [[]|?|] eqn:Hf; try discriminate.
    rewrite (forEach_carryOver _ H0 Hf). simpl.
    destruct e as [o'|]; [exact H1|trivial].
Qed.

End largerScope.

(** X13: what is accepted stays accepted in a larger scope.  If every
    entry of one scope map is an entry of another, an expression accepted
    with the first is accepted with the second and gets the same type and
    constant value, and so for a type expression and for a statement. *)
Theorem X13_larger_scope
    (SetString : string -> option Z)
    (typeMap typeMap' : option (gmap ID TypeExpr)) :
  scopeIncluded typeMap typeMap' ->
  (forall n a a',
     checkExpr SetString typeMap n a = (a', Ok tt) ->
     checkExpr SetString typeMap' n a = (a', Ok tt))
  /\ (forall t,
        checkTypeExpr SetString typeMap t = Ok tt ->
        checkTypeExpr SetString typeMap' t = Ok tt)
  /\ (forall n,
        checkStatement SetString typeMap n = Ok tt ->
        checkStatement SetString typeMap' n = Ok tt).
Proof.
  intros Hinc. split; [|split].
  - apply (checkExpr_checkTypeExpr_carryOver _ _ _ Hinc).
  - apply (checkExpr_checkTypeExpr_carryOver _ _ _ Hinc).
  - apply (checkStatement_carryOver _ _ _ Hinc).
Qed.

Lemma X13_larger_scope_witness :
  let small := Some (<[IDIdent "y" := numType "u8"]> (∅ : gmap ID TypeExpr)) in
  scopeIncluded small scopeXY
  /\ checkExpr readNumber scopeXY
       (ExprBinaryOp IDXBinaryPlus (var "y") (lit "1")) unannotated
     = ({| ConstValue := None; MType := Some (TypeExprAt (numType "u8")) |},
        Ok tt).
Proof.
  intros small.
  assert (Hinc : scopeIncluded small scopeXY).
  { intros name t. unfold small, scopeXY, mapXY, scopeLookup.
    intros H. apply lookup_insert_Some in H as [[<- <-]|[_ H]].
    - vm_compute; reflexivity.
    - rewrite lookup_empty in H. discriminate. }
  split; [exact Hinc|].
  apply (proj1 (X13_larger_scope readNumber small scopeXY Hinc)).
  vm_compute; reflexivity.
Defined.

(** ** The contents of the scope map *)

Section scopeContents.

Variable SetString : string -> option Z.

Abbreviation checkVars := (checkVars SetString).

Abbreviation entriesFrom := (entriesFrom SetString).

Lemma rangeNodes_entriesFrom (l : list Node) :
  Forall entriesFrom l ->
  forall m0 mf r name t,
    rangeNodes checkVars l (Some m0) = (Some mf, r) ->
    mf !! name = Some t ->
    m0 !! name = Some t \/ exists x, In x l /\ declares x name t.
Proof.
  induction 1 as [|n l Hn _ IH]; intros m0 mf r name t; simpl.
  - intros Hp; injection Hp as <- <-. auto.
  - destruct (checkVars n (Some m0)) as [tm1 r1] eqn:Hc.
    destruct (checkVars_keepsEntries _ _ _ _ _ Hc) as (m1 & -> & _).
    assert (Hfrom1 : forall name t, m1 !! name = Some t ->
              m0 !! name = Some t \/ exists x, In x (n :: l) /\ declares x name t).
    { intros name' t' H1. destruct (Hn _ _ _ _ _ Hc H1) as [H0|Hd]; [auto|].
      right. exists n. split; [left; reflexivity|exact Hd]. }
    destruct r1 as [[]|e|].
    + intros Hgo Hf. destruct (IH _ _ _ _ _ Hgo Hf) as [H1|(x & Hx & Hd)].
      * apply Hfrom1, H1.
      * right. exists x. split; [right; exact Hx|exact Hd].
    + intros Hp; injection Hp as <- <-. apply Hfrom1.
    + intros Hp; injection Hp as <- <-. apply Hfrom1.
Qed.

Lemma rangeLists_entriesFrom (ls : list (list Node)) :
  Forall (Forall entriesFrom) ls ->
  forall m0 mf r name t,
    rangeLists checkVars ls (Some m0) = (Some mf, r) ->
    mf !! name = Some t ->
    m0 !! name = Some t
    \/ exists l x, In l ls /\ In x l /\ declares x name t.
Proof.
  induction 1 as [|l ls Hl _ IH]; intros m0 mf r name t; simpl.
  - intros Hp; injection Hp as <- <-. auto.
  - destruct (rangeNodes checkVars l (Some m0)) as [tm1 r1] eqn:Hc.
    assert (Hall : Forall (keepsEntries checkVars) l).
    { apply Forall_forall. intros y _. apply checkVars_keepsEntries. }
    destruct (rangeNodes_keepsEntries _ _ Hall _ _ _ Hc) as (m1 & -> & _).
    assert (Hfrom1 : forall name t, m1 !! name = Some t ->
              m0 !! name = Some t
              \/ exists l' x, In l' (l :: ls) /\ In x l' /\ declares x name t).
    { intros name' t' H1.
      destruct (rangeNodes_entriesFrom _ Hl _ _ _ _ _ Hc H1)
        as [H0|(x & Hx & Hd)]; [auto|].
      right. exists l, x. split; [left; reflexivity|]. auto. }
    destruct r1 as [[]|e|].
    + intros Hgo Hf.
      destruct (IH _ _ _ _ _ Hgo Hf) as [H1|(l' & x & Hl' & Hx & Hd)].
      * apply Hfrom1, H1.
      * right. exists l', x. split; [right; exact Hl'|]. auto.
    + intros Hp; injection Hp as <- <-. apply Hfrom1.
    + intros Hp; injection Hp as <- <-. apply Hfrom1.
Qed.

Lemma checkVars_entriesFrom (n : Node) : entriesFrom n.
Proof.
  induction n as [name xType value|n Hn IH] using Node_SubLists_ind;
    intros m0 mf r k t; rewrite checkVars_unfold.
  - unfold checkVar.
    destruct (declared (Some m0) name);
      [intros Hp; injection Hp as <- <-; auto|].
    destruct (checkTypeExpr SetString (Some m0) xType);
      try (intros Hp; injection Hp as <- <-; auto; fail).
    intros Hp; injection Hp as <- <-. intros Hk.
    apply lookup_insert_Some in Hk as [[<- <-]|[_ Hk]].
    + right. constructor.
    + left. exact Hk.
  - intros Hr Hk.
    assert (Hgo : rangeLists checkVars (SubLists n) (Some m0) = (Some mf, r)).
    { destruct n; try exact Hr. exfalso. eapply Hn. reflexivity. }
    destruct (rangeLists_entriesFrom _ IH _ _ _ _ _ Hgo Hk)
      as [H0|(l & x & Hl & Hx & Hd)]; [auto|].
    right. eapply declares_sub; eauto.
Qed.

End scopeContents.

(** X14: when [checkVars] returns without an error, the scope map holds
    the entries it had and the declarations under the node, and nothing
    else: a name is bound to a type exactly if it was so before or the node
    declares it with that type. *)
Theorem X14_scope_is_old_entries_and_declarations
    (SetString : string -> option Z) (n : Node)
    (m0 mf : gmap ID TypeExpr) (name : ID) (t : TypeExpr) :
  checkVars SetString n (Some m0) = (Some mf, Ok tt) ->
  (mf !! name = Some t <-> m0 !! name = Some t \/ declares n name t).
Proof.
  intros Hc. split.
  - apply (checkVars_entriesFrom SetString n _ _ _ _ _ Hc).
  - intros [H0|Hd].
    + destruct (checkVars_keepsEntries _ _ _ _ _ Hc) as (m' & Heq & Hsub).
      injection Heq as <-. eapply lookup_weaken; eauto.
    + eapply checkVars_hoists; eauto.
Qed.

Lemma X14_scope_is_old_entries_and_declarations_witness :
  let n := KWhile None [KIf (mkIf true_ [] [KVar (IDIdent "z") (numType "u16") None]
                               None)] in
  (<[IDIdent "z" := numType "u16"]> mapXY) !! IDIdent "z" = Some (numType "u16")
  <-> mapXY !! IDIdent "z" = Some (numType "u16")
      \/ declares n (IDIdent "z") (numType "u16").
Proof.
  intros n.
  apply (X14_scope_is_old_entries_and_declarations readNumber n mapXY).
  vm_compute; reflexivity.
Defined.

(** X15: a use after the declarations.  With the scope map that
    [checkVars] has filled without an error, an identifier that the node
    declares is accepted with its declared type and gets no constant
    value, and an identifier that is neither declared under the node nor
    in the map before is rejected as unrecognized. *)
Theorem X15_identifier_after_declarations
    (SetString : string -> option Z) (n : Node)
    (m0 mf : gmap ID TypeExpr) (name : ID) (a : Annot) :
  checkVars SetString n (Some m0) = (Some mf, Ok tt) ->
  IsIdent name = true ->
  (forall t, declares n name t ->
     checkExpr SetString (Some mf) (ExprOther ID0 name) a
     = (SetMType (TypeExprAt t) a, Ok tt))
  /\ (m0 !! name = None -> (forall t, ~ declares n name t) ->
      checkExpr SetString (Some mf) (ExprOther ID0 name) a
      = (a, Err (ErrUnrecognizedIdentifier name))
      /\ kindOf (ErrUnrecognizedIdentifier name) = UnboundIdentifier).
Proof.
  intros Hc Hident.
  assert (Hlit : IsNumLiteral name = false)
    by (destruct name; try discriminate; reflexivity).
  split.
  - intros t Hd. rewrite checkExprOther_ident by assumption. simpl.
    rewrite (checkVars_hoists _ _ _ _ Hd _ _ Hc). reflexivity.
  - intros H0 Hnd. split; [|reflexivity].
    rewrite checkExprOther_ident by assumption. simpl.
    destruct (mf !! name) as [t|] eqn:Hf; [|reflexivity].
    destruct (checkVars_entriesFrom SetString n _ _ _ _ _ Hc Hf) as [H|H].
    + congruence.
    + exfalso. exact (Hnd _ H).
Qed.

Lemma X15_identifier_after_declarations_witness :
  let n := KWhile None [KIf (mkIf true_ [] [KVar (IDIdent "z") (numType "u16") None]
                               None)] in
  checkExpr readNumber (Some (<[IDIdent "z" := numType "u16"]> mapXY))
    (var "z") unannotated
  = (SetMType (TypeExprAt (numType "u16")) unannotated, Ok tt).
Proof.
  intros n.
  assert (Hc : checkVars readNumber n (Some mapXY)
               = (Some (<[IDIdent "z" := numType "u16"]> mapXY), Ok tt)).
  { vm_compute; reflexivity. }
  apply (proj1 (X15_identifier_after_declarations readNumber n mapXY
                  (<[IDIdent "z" := numType "u16"]> mapXY) (IDIdent "z")
                  unannotated Hc eq_refl)).
  eapply declares_sub; [left; reflexivity|left; reflexivity|].
  eapply declares_sub; [right; left; reflexivity|left; reflexivity|].
  constructor.
Defined.

(** ** Assignments *)

(** X16: what [checkAssign] accepts, for two sides that check.  With [=]
    the right side must be an ideal number for a numeric left side, or have
    a type equal to that of the left side ignoring refinements.  Any other
    operator needs a numeric left side, and then a numeric right side for
    the two shift assignments, an ideal number or an equal type for the
    rest.  So an ideal number is assigned to a numeric variable by [=] and
    by every operator but the shifts whatever its value is. *)
Theorem X16_assignment
    (SetString : string -> option Z) (typeMap : option (gmap ID TypeExpr))
    (lhs rhs : Expr) (op : ID) (lTyp rTyp : MTypePtr) (lcv rcv : option Z) :
  operand (checkExpr SetString typeMap lhs unannotated) = Ok (lTyp, lcv) ->
  operand (checkExpr SetString typeMap rhs unannotated) = Ok (rTyp, rcv) ->
  let check := checkAssign SetString typeMap lhs op rhs in
  let shift := op = IDShiftLEq \/ op = IDShiftREq in
  (op = IDEq ->
   (check = Ok tt <->
    (rTyp = TypeExprIdealNumber /\ MType_IsNumType lTyp = true)
    \/ EqIgnoringRefinements lTyp rTyp = true)
   /\ (check <> Ok tt -> check = Err ErrCannotAssign))
  /\ (op <> IDEq -> MType_IsNumType lTyp = false ->
      check = Err ErrAssigneeNotNumeric)
  /\ (op <> IDEq -> MType_IsNumType lTyp = true -> shift ->
      (MType_IsNumType rTyp = true -> check = Ok tt)
      /\ (MType_IsNumType rTyp = false -> check = Err ErrAssignShiftNotNumeric))
  /\ (op <> IDEq -> MType_IsNumType lTyp = true -> ~ shift ->
      (check = Ok tt <->
       rTyp = TypeExprIdealNumber \/ EqIgnoringRefinements lTyp rTyp = true)
      /\ (check <> Ok tt -> check = Err ErrAssignIncompatible))
  /\ (MType_IsNumType lTyp = true -> rTyp = TypeExprIdealNumber -> ~ shift ->
      check = Ok tt).
Proof.
  intros Hl Hr check shift. unfold check, shift, checkAssign.
  rewrite Hl, Hr. simpl.
  split; [|split; [|split; [|split]]].
  - intros ->. simpl. rewrite <- isIdealNumber_true.
    destruct (isIdealNumber rTyp), (MType_IsNumType lTyp),
      (EqIgnoringRefinements lTyp rTyp); simpl;
      (split; [split; [intros H; try discriminate H; tauto
                      |intros [[? ?]|?]; try discriminate; reflexivity]
              |intros H; try reflexivity; exfalso; apply H; reflexivity]).
  - intros Hne Hnum. rewrite bool_decide_eq_false_2 by exact Hne.
    rewrite Hnum. reflexivity.
  - intros Hne Hnum Hshift. rewrite bool_decide_eq_false_2 by exact Hne.
    rewrite Hnum. simpl.
    assert (bool_decide (op = IDShiftLEq) || bool_decide (op = IDShiftREq)
            = true) as ->.
    { destruct Hshift as [-> | ->]; reflexivity. }
    split; intros ->; reflexivity.
  - intros Hne Hnum Hshift. rewrite bool_decide_eq_false_2 by exact Hne.
    rewrite Hnum. simpl.
    rewrite !bool_decide_eq_false_2 by tauto. simpl.
    rewrite <- isIdealNumber_true.
    destruct (isIdealNumber rTyp), (EqIgnoringRefinements lTyp rTyp); simpl;
      (split; [split; [intros H; try discriminate H; tauto
                      |intros [?|?]; try discriminate; reflexivity]
              |intros H; try reflexivity; exfalso; apply H; reflexivity]).
  - intros Hnum -> Hshift. rewrite Hnum. simpl.
    destruct (bool_decide (op = IDEq)); [reflexivity|].
    rewrite !bool_decide_eq_false_2 by tauto. reflexivity.
Qed.

Lemma X16_assignment_witness :
  checkAssign readNumber scopeXY (var "y") IDEq (lit "1000") = Ok tt
  /\ checkAssign readNumber scopeXY (var "y") (IDOther "+=") (lit "1000") = Ok tt
  /\ checkAssign readNumber scopeXY (var "y") (IDOther "+=") (var "x")
     = Err ErrAssignIncompatible.
Proof.
  split; [|split].
  - apply (X16_assignment readNumber scopeXY (var "y") (lit "1000") IDEq
             (TypeExprAt (numType "u8")) TypeExprIdealNumber None (Some 1000)
             ltac:(vm_compute; reflexivity) ltac:(vm_compute; reflexivity));
      [reflexivity|reflexivity|intros [H|H]; discriminate H].
  - apply (X16_assignment readNumber scopeXY (var "y") (lit "1000")
             (IDOther "+=")
             (TypeExprAt (numType "u8")) TypeExprIdealNumber None (Some 1000)
             ltac:(vm_compute; reflexivity) ltac:(vm_compute; reflexivity));
      [reflexivity|reflexivity|intros [H|H]; discriminate H].
  - pose proof (X16_assignment readNumber scopeXY (var "y") (var "x")
                  (IDOther "+=")
                  (TypeExprAt (numType "u8")) (TypeExprAt (numType "u32"))
                  None None
                  ltac:(vm_compute; reflexivity) ltac:(vm_compute; reflexivity))
      as (_ & _ & _ & Hrest & _).
    apply Hrest; [discriminate|reflexivity|intros [H|H]; discriminate H|].
    vm_compute. discriminate.
Defined.

(** ** The first error *)

Lemma forEach_app {A : Type} (f : A -> result unit) (l1 l2 : list A) :
  forEach f (l1 ++ l2) = (forEach f l1;; forEach f l2).
Proof.
  induction l1 as [|m l1 IH]; simpl; [reflexivity|].
  destruct (f m); simpl; [exact IH|reflexivity..].
Qed.

Lemma forEach_Ok {A : Type} (f : A -> result unit) (l : list A) :
  forEach f l = Ok tt <-> Forall (fun m => f m = Ok tt) l.
Proof.
  induction l as [|m l IH]; simpl.
  - split; [intros _; constructor|reflexivity].
  - destruct (f m) as [[]|?|] eqn:Hm; simpl.
    + rewrite IH. split.
      * intros Hl. constructor; assumption.
      * intros Hl. apply Forall_cons in Hl as [_ Hl]. exact Hl.
    + split; [discriminate|]. intros Hl.
      apply Forall_cons in Hl as [Hl _]. congruence.
    + split; [discriminate|]. intros Hl.
      apply Forall_cons in Hl as [Hl _]. congruence.
Qed.

Lemma rangeNodes_app f (l1 l2 : list Node) (typeMap : option (gmap ID TypeExpr)) :
  rangeNodes f (l1 ++ l2) typeMap
  = match rangeNodes f l1 typeMap with
    | (typeMap1, Ok _) => rangeNodes f l2 typeMap1
    | (typeMap1, r) => (typeMap1, r)
    end.
Proof.
  revert typeMap. induction l1 as [|m l1 IH]; intros typeMap; simpl.
  - reflexivity.
  - destruct (f m typeMap) as [tm1 [[]|?|]]; [apply IH|reflexivity..].
Qed.

(** X17: the first error is the error.  In a body the statements before
    the first one that fails are accepted and the error of that one is the
    error of the loop, whatever follows it; [checkVars] stops in the same
    way at the first declaration that fails, with the map as the
    declarations before it have left it. *)
Theorem X17_first_error
    (SetString : string -> option Z) (typeMap : option (gmap ID TypeExpr))
    (l1 l2 : list Node) (m : Node) (e : error) :
  (Forall (fun s => checkStatement SetString typeMap s = Ok tt) l1 ->
   checkStatement SetString typeMap m = Err e ->
   checkStatement SetString typeMap (KWhile None (l1 ++ m :: l2)) = Err e
   /\ (forall c t,
         checkCondition SetString typeMap c ErrIfNotBoolean = Ok tt ->
         checkStatement SetString typeMap
           (KIf (mkIf c (l1 ++ m :: l2) t None)) = Err e))
  /\ (forall typeMap1 typeMap2,
        rangeNodes (checkVars SetString) l1 typeMap = (typeMap1, Ok tt) ->
        checkVars SetString m typeMap1 = (typeMap2, Err e) ->
        rangeNodes (checkVars SetString) (l1 ++ m :: l2) typeMap
        = (typeMap2, Err e)).
Proof.
  split.
  - intros Hl1 Hm.
    assert (Hbody : forEach (checkStatement SetString typeMap) (l1 ++ m :: l2)
                    = Err e).
    { rewrite forEach_app. apply forEach_Ok in Hl1. rewrite Hl1. simpl.
      rewrite Hm. reflexivity. }
    split.
    + simpl. exact Hbody.
    + intros c t Hc. simpl. rewrite Hc. simpl.
      fold (checkStatement SetString typeMap). rewrite Hbody. reflexivity.
  - intros typeMap1 typeMap2 Hl1 Hm.
    rewrite rangeNodes_app, Hl1. simpl. rewrite Hm. reflexivity.
Qed.

Lemma X17_first_error_witness :
  checkStatement readNumber scopeXY
    (KWhile None ([KBreak] ++ KAssign (var "x") IDEq true_ :: [KOther 99 []]))
  = Err ErrCannotAssign
  /\ rangeNodes (checkVars readNumber)
       ([KVar (IDIdent "z") (numType "u8") None]
        ++ KVar (IDIdent "x") (numType "u8") None
        :: [KVar (IDIdent "w") (numType "u8") None]) scopeXY
     = (Some (<[IDIdent "z" := numType "u8"]> mapXY),
        Err (ErrDuplicateVar (IDIdent "x"))).
Proof.
  split.
  - apply (proj1 (X17_first_error readNumber scopeXY [KBreak] [KOther 99 []]
                    (KAssign (var "x") IDEq true_) ErrCannotAssign)).
    + repeat constructor.
    + vm_compute; reflexivity.
  - apply (proj2 (X17_first_error readNumber scopeXY
                    [KVar (IDIdent "z") (numType "u8") None]
                    [KVar (IDIdent "w") (numType "u8") None]
                    (KVar (IDIdent "x") (numType "u8") None)
                    (ErrDuplicateVar (IDIdent "x")))
             (Some (<[IDIdent "z" := numType "u8"]> mapXY))).
    + vm_compute; reflexivity.
    + vm_compute; reflexivity.
Defined.

(** ** The shape of an accepted type expression *)

Lemma checkTypeExpr_decorated
    (SetString : string -> option Z) (typeMap : option (gmap ID TypeExpr)) :
  forall t, checkTypeExpr SetString typeMap t = Ok tt -> decorated t = true.
Proof.
  cut ((forall n : Expr, True)
       /\ (forall t, checkTypeExpr SetString typeMap t = Ok tt ->
                     decorated t = true)).
  { intros [_ H]. exact H. }
  apply Expr_TypeExpr_ind; auto.
  - intros name lo hi _ _. simpl.
    destruct (IsNumType name || bool_decide (name = IDBool));
      [reflexivity|discriminate].
  - intros [u|] Hu; simpl; [exact Hu|reflexivity].
  - intros aLen [u|] _ Hu; rewrite checkTypeExpr_Array;
      destruct (checkBound SetString typeMap (Some aLen)) as [[]|?|];
      simpl; try discriminate; [exact Hu|reflexivity].
  - intros p name. simpl. discriminate.
Qed.

(** X18: an accepted type expression is a chain of pointer and array
    decorators that ends in a numeric or Boolean name, or in no inner type
    at all; a package-qualified or other name anywhere in the chain makes
    the type expression fail.  Pointer decorators change nothing: a type
    expression behind any number of them is checked as the type expression
    itself. *)
Theorem X18_type_expression_shape
    (SetString : string -> option Z) (typeMap : option (gmap ID TypeExpr))
    (t : TypeExpr) :
  (checkTypeExpr SetString typeMap t = Ok tt -> decorated t = true)
  /\ (forall k, checkTypeExpr SetString typeMap (pointers k t)
               = checkTypeExpr SetString typeMap t).
Proof.
  split.
  - apply checkTypeExpr_decorated.
  - induction k as [|k IH]; [reflexivity|]. simpl. exact IH.
Qed.

Lemma X18_type_expression_shape_witness :
  decorated (TypeExprPtr (Some (TypeExprArray (lit "4")
                                  (Some (numType "u8"))))) = true.
Proof.
  apply (proj1 (X18_type_expression_shape readNumber scopeXY
                  (TypeExprPtr (Some (TypeExprArray (lit "4")
                                        (Some (numType "u8"))))))).
  vm_compute; reflexivity.
Defined.

(** ** Conversions *)

(** X19: a conversion with [as] is accepted exactly when its operand
    checks with a numeric type and its target is a valid type expression
    that is a numeric name; the node then gets the target as its type and no
    constant value, also when the operand is a constant.  A conversion can
    therefore not stand as an array length: the length is rejected, as not
    constant when the conversion itself is accepted. *)
Theorem X19_conversion
    (SetString : string -> option Z) (typeMap : option (gmap ID TypeExpr))
    (lhs : Expr) (t : TypeExpr) (a : Annot) :
  (forall a',
     checkExpr SetString typeMap (ExprAs lhs t) a = (a', Ok tt) <->
     (exists lTyp lcv,
        operand (checkExpr SetString typeMap lhs unannotated) = Ok (lTyp, lcv)
        /\ numeric lTyp = true)
     /\ checkTypeExpr SetString typeMap t = Ok tt
     /\ TypeExpr_IsNumType t = true
     /\ a' = SetMType (TypeExprAt t) a)
  /\ (forall inner,
        checkTypeExpr SetString typeMap (TypeExprArray (ExprAs lhs t) inner)
        <> Ok tt)
  /\ (forall a' inner,
        checkExpr SetString typeMap (ExprAs lhs t) unannotated = (a', Ok tt) ->
        checkTypeExpr SetString typeMap (TypeExprArray (ExprAs lhs t) inner)
        = Err ErrNotConstant).
Proof.
  assert (Hiff : forall a0 a',
    checkExpr SetString typeMap (ExprAs lhs t) a0 = (a', Ok tt) <->
    (exists lTyp lcv,
       operand (checkExpr SetString typeMap lhs unannotated) = Ok (lTyp, lcv)
       /\ numeric lTyp = true)
    /\ checkTypeExpr SetString typeMap t = Ok tt
    /\ TypeExpr_IsNumType t = true
    /\ a' = SetMType (TypeExprAt t) a0).
  { intros a0 a'. simpl. unfold checkExprBinaryAs.
    destruct (operand (checkExpr SetString typeMap lhs unannotated))
      as [[lTyp lcv]|?|].
    - destruct (checkTypeExpr SetString typeMap t) as [[]|?|].
      + destruct (numeric lTyp) eqn:Hn, (TypeExpr_IsNumType t) eqn:Hi; simpl.
        * split.
          -- intros Hp; injection Hp as <-. eauto 10.
          -- intros (_ & _ & _ & ->). reflexivity.
        * split; [discriminate|]. intros (_ & _ & ? & _). discriminate.
        * split; [discriminate|].
          intros ((? & ? & Heq & Hn') & _). injection Heq as <- <-. congruence.
        * split; [discriminate|]. intros (_ & _ & ? & _). discriminate.
      + split; [discriminate|]. intros (_ & ? & _). discriminate.
      + split; [discriminate|]. intros (_ & ? & _). discriminate.
    - split; [discriminate|]. intros ((? & ? & ? & _) & _). discriminate.
    - split; [discriminate|]. intros ((? & ? & ? & _) & _). discriminate. }
  split; [apply Hiff|].
  assert (Hlen : forall a' inner,
    checkExpr SetString typeMap (ExprAs lhs t) unannotated = (a', Ok tt) ->
    checkTypeExpr SetString typeMap (TypeExprArray (ExprAs lhs t) inner)
    = Err ErrNotConstant).
  { intros a' inner Hc.
    pose proof (proj1 (Hiff _ _) Hc) as (_ & _ & _ & ->).
    rewrite checkTypeExpr_Array.
    rewrite (checkBound_not_constant _ _ _ _ Hc eq_refl). reflexivity. }
  split; [|exact Hlen].
  intros inner.
  destruct (checkExpr SetString typeMap (ExprAs lhs t) unannotated)
    as [a' [[]|e|]] eqn:Hc.
  - rewrite (Hlen _ inner eq_refl). discriminate.
  - rewrite checkTypeExpr_Array, (checkBound_Err _ _ _ _ _ Hc). discriminate.
  - exfalso. exact (proj1 (checkExpr_checkTypeExpr_no_Panic SetString typeMap)
                      _ _ _ Hc).
Qed.

Lemma X19_conversion_witness :
  checkTypeExpr readNumber scopeXY
    (TypeExprArray (ExprAs (lit "4") (numType "u8")) (Some (numType "u8")))
  = Err ErrNotConstant.
Proof.
  apply (proj2 (proj2 (X19_conversion readNumber scopeXY (lit "4")
                         (numType "u8") unannotated))
           {| ConstValue := None; MType := Some (TypeExprAt (numType "u8")) |}).
  vm_compute; reflexivity.
Defined.

(** ** Operands of the other binary operators *)

(** X20: an operator other than [==], [!=], [and], [or] and [as] is
    accepted only with two numeric operands.  For [==] and [!=] no kind of
    operand is asked for, and an ideal number on one side goes with a type
    of any kind on the other: the comparison is accepted, with the Boolean
    type. *)
Theorem X20_operand_kinds
    (SetString : string -> option Z) (typeMap : option (gmap ID TypeExpr))
    (op : BinaryOp) (lhs rhs : Expr) (a : Annot) :
  (op <> IDXBinaryNotEq -> op <> IDXBinaryEqEq ->
   op <> IDXBinaryAnd -> op <> IDXBinaryOr ->
   forall a',
     checkExpr SetString typeMap (ExprBinaryOp op lhs rhs) a = (a', Ok tt) ->
     exists lTyp rTyp,
       resolves SetString typeMap lhs lTyp /\ resolves SetString typeMap rhs rTyp
       /\ numeric lTyp = true /\ numeric rTyp = true)
  /\ (op = IDXBinaryNotEq \/ op = IDXBinaryEqEq ->
      forall lTyp lcv rTyp rcv,
        operand (checkExpr SetString typeMap lhs unannotated) = Ok (lTyp, lcv) ->
        operand (checkExpr SetString typeMap rhs unannotated) = Ok (rTyp, rcv) ->
        lTyp = TypeExprIdealNumber \/ rTyp = TypeExprIdealNumber ->
        exists a',
          checkExpr SetString typeMap (ExprBinaryOp op lhs rhs) a = (a', Ok tt)
          /\ MType a' = Some TypeExprBoolean).
Proof.
  split.
  - intros H1 H2 H3 H4 a' H.
    apply checkExprBinaryOp_Ok_inv in H
      as (lTyp & lcv & rTyp & rcv & Hlo & Hro & Hk & _).
    exists lTyp, rTyp. split; [eexists; exact Hlo|]. split; [eexists; exact Hro|].
    destruct (numeric lTyp) eqn:Hnl, (numeric rTyp) eqn:Hnr; auto;
      destruct op; simpl in Hk; rewrite ?Hnl, ?Hnr in Hk; simpl in Hk;
      congruence.
  - intros Hop lTyp lcv rTyp rcv Hlo Hro Hideal.
    simpl. unfold checkExprBinaryOp. rewrite Hlo, Hro.
    assert (Ht : checkOperandTypes op lTyp rTyp = Ok tt).
    { destruct Hop; subst op; simpl;
        destruct Hideal; subst; simpl; rewrite ?andb_false_r; reflexivity. }
    assert (Hk : checkOperandKinds op lTyp rTyp = Ok tt).
    { destruct Hop; subst op; reflexivity. }
    rewrite Hk, Ht.
    destruct Hop; subst op; destruct lcv, rcv; simpl; eexists;
      split; reflexivity.
Qed.

Lemma X20_operand_kinds_witness :
  (exists lTyp rTyp,
     resolves readNumber scopeXY (var "x") lTyp
     /\ resolves readNumber scopeXY (lit "1") rTyp
     /\ numeric lTyp = true /\ numeric rTyp = true)
  /\ (exists a',
        checkExpr readNumber scopeXY
          (ExprBinaryOp IDXBinaryEqEq true_ (lit "1")) unannotated = (a', Ok tt)
        /\ MType a' = Some TypeExprBoolean).
Proof.
  split.
  - apply (proj1 (X20_operand_kinds readNumber scopeXY IDXBinaryPipe
                    (var "x") (lit "1") unannotated))
      with (a' := {| ConstValue := None;
                     MType := Some (TypeExprAt (numType "u32")) |});
      try discriminate.
    vm_compute; reflexivity.
  - apply (proj2 (X20_operand_kinds readNumber scopeXY IDXBinaryEqEq
                    true_ (lit "1") unannotated) (or_intror eq_refl)
             TypeExprBoolean (Some 1) TypeExprIdealNumber (Some 1));
      [vm_compute; reflexivity | vm_compute; reflexivity | right; reflexivity].
Defined.

(** ** Statements within statements *)

Lemma checkIf_Ok_bodies
    (SetString : string -> option Z) (typeMap : option (gmap ID TypeExpr))
    (o : If) :
  checkStatement SetString typeMap (KIf o) = Ok tt ->
  Forall (fun s => checkStatement SetString typeMap s = Ok tt) (bodies o).
Proof.
  induction o as [c t f|c t f o' IH] using If_chain_ind; simpl;
    (destruct (checkCondition SetString typeMap c ErrIfNotBoolean)
       as [[]|?|]; try discriminate; simpl);
    fold (checkStatement SetString typeMap);
    (destruct (forEach (checkStatement SetString typeMap) t)
       as [[]|?|] eqn:Ht; try discriminate; simpl);
    (destruct (forEach (checkStatement SetString typeMap) f)
       as [[]|?|] eqn:Hf; try discriminate; simpl);
    apply forEach_Ok in Ht; apply forEach_Ok in Hf.
  - intros _. rewrite app_nil_r. apply Forall_app. auto.
  - intros He. apply Forall_app. split; [exact Ht|].
    apply Forall_app. split; [exact Hf|]. apply IH, He.
Qed.

(** X21: when a statement is accepted, so is every statement of its body
    (a while loop) or of its bodies (an if statement, along the whole
    else-if chain); none of them is of a kind that [checkStatement] has no
    case for. *)
Theorem X21_statements_within
    (SetString : string -> option Z) (typeMap : option (gmap ID TypeExpr))
    (n s : Node) :
  checkStatement SetString typeMap n = Ok tt ->
  In s (statementsOf n) ->
  checkStatement SetString typeMap s = Ok tt
  /\ (forall kind subLists, s <> KOther kind subLists).
Proof.
  intros Hn Hs.
  assert (Hall : Forall (fun s => checkStatement SetString typeMap s = Ok tt)
                   (statementsOf n)).
  { destruct n as [c|l op r|name xType value|c body|o|v| | |k ls];
      try (simpl; constructor).
    - simpl in Hn |- *.
      destruct (match c with
                | Some cond => checkCondition SetString typeMap cond
                                 ErrWhileNotBoolean
                | None => Ok tt
                end) as [[]|?|]; try discriminate.
      apply forEach_Ok, Hn.
    - apply checkIf_Ok_bodies, Hn. }
  rewrite List.Forall_forall in Hall. pose proof (Hall s Hs) as Hok.
  split; [exact Hok|]. intros kind subLists ->. discriminate Hok.
Qed.

Lemma X21_statements_within_witness :
  checkStatement readNumber scopeXY (KAssign (var "x") IDEq (lit "1")) = Ok tt
  /\ (forall kind subLists,
        KAssign (var "x") IDEq (lit "1") <> KOther kind subLists).
Proof.
  apply (X21_statements_within readNumber scopeXY
           (KIf (mkIf true_ [] [KBreak]
                   (Some (mkIf true_ [KAssign (var "x") IDEq (lit "1")] []
                            None))))).
  - vm_compute; reflexivity.
  - simpl. right. left. reflexivity.
Defined.

(** ** Constants and type expressions do not depend on the scope *)

Lemma checkExpr_const_any_scope
    (SetString : string -> option Z)
    (typeMap typeMap' : option (gmap ID TypeExpr)) (n : Expr) :
  forall a z,
    checkExpr SetString typeMap n unannotated = (a, Ok tt) ->
    ConstValue a = Some z ->
    checkExpr SetString typeMap' n unannotated = (a, Ok tt).
Proof.
  induction n as [id0 id1|op rhs IHr|op lhs IHl rhs IHr|lhs IHl rhs|k|k];
    intros a z; simpl.
  - unfold checkExprOther.
    repeat case_match; intros Hp; injection Hp as <-; simpl;
      try discriminate; trivial.
  - unfold checkExprUnaryOp.
    destruct (checkExpr SetString typeMap rhs unannotated)
      as [ar [[]|?|]] eqn:Hc; simpl; try discriminate.
    destruct (MType ar) as [rTyp|] eqn:Ht; try discriminate.
    destruct (ConstValue ar) as [cv|] eqn:Hcv.
    + rewrite (IHr _ _ eq_refl Hcv). simpl. rewrite Ht, Hcv. trivial.
    + repeat case_match; intros Hp; injection Hp as <-; simpl; discriminate.
  - unfold checkExprBinaryOp.
    destruct (checkExpr SetString typeMap lhs unannotated)
      as [al [[]|?|]] eqn:Hl; simpl; try discriminate.
    destruct (MType al) as [lTyp|] eqn:Hlt; try discriminate.
    destruct (checkExpr SetString typeMap rhs unannotated)
      as [ar [[]|?|]] eqn:Hr; simpl; try discriminate.
    destruct (MType ar) as [rTyp|] eqn:Hrt; try discriminate.
    destruct (ConstValue al) as [l|] eqn:Hlc, (ConstValue ar) as [r|] eqn:Hrc;
      try (repeat case_match; intros Hp; injection Hp as <-; simpl;
           discriminate).
    rewrite (IHl _ _ eq_refl Hlc), (IHr _ _ eq_refl Hrc). simpl.
    rewrite Hlt, Hrt, Hlc, Hrc. trivial.
  - unfold checkExprBinaryAs.
    repeat case_match; intros Hp; injection Hp as <-; simpl; discriminate.
  - unfold checkExprAssociativeOp. discriminate.
  - discriminate.
Qed.

Lemma checkBound_any_scope
    (SetString : string -> option Z)
    (typeMap typeMap' : option (gmap ID TypeExpr)) (bound : option Expr) :
  checkBound SetString typeMap bound = Ok tt ->
  checkBound SetString typeMap' bound = Ok tt.
Proof.
  destruct bound as [b|]; simpl; [|trivial].
  destruct (checkExpr SetString typeMap b unannotated)
    as [a [[]|?|]] eqn:Hc; try discriminate.
  destruct (ConstValue a) as [z|] eqn:Hz; try discriminate.
  rewrite (checkExpr_const_any_scope _ _ _ _ _ _ Hc Hz), Hz. trivial.
Qed.

(** X22: a type expression is valid or not by itself.  Its bounds and
    array lengths must be constants, and a constant is checked to the same
    type and value in every scope; so a type expression accepted with one
    scope map is accepted with any other, the empty and the nil one
    included. *)
Theorem X22_type_expression_any_scope
    (SetString : string -> option Z)
    (typeMap typeMap' : option (gmap ID TypeExpr)) :
  (forall n a z,
     checkExpr SetString typeMap n unannotated = (a, Ok tt) ->
     ConstValue a = Some z ->
     checkExpr SetString typeMap' n unannotated = (a, Ok tt))
  /\ (forall t,
        checkTypeExpr SetString typeMap t = Ok tt ->
        checkTypeExpr SetString typeMap' t = Ok tt).
Proof.
  split; [intros n; apply checkExpr_const_any_scope|].
  cut ((forall n : Expr, True)
       /\ (forall t, checkTypeExpr SetString typeMap t = Ok tt ->
                     checkTypeExpr SetString typeMap' t = Ok tt)).
  { intros [_ H]. exact H. }
  apply Expr_TypeExpr_ind; auto.
  - intros name lo hi _ _. rewrite !checkTypeExpr_Name.
    destruct (IsNumType name || bool_decide (name = IDBool)); [|trivial].
    destruct (checkBound SetString typeMap lo) as [[]|?|] eqn:Hlo;
      try discriminate.
    rewrite (checkBound_any_scope _ _ typeMap' _ Hlo). simpl.
    apply checkBound_any_scope.
  - intros [u|] Hu; simpl; [exact Hu|trivial].
  - intros aLen inner _ Hinner. rewrite !checkTypeExpr_Array.
    destruct (checkBound SetString typeMap (Some aLen)) as [[]|?|] eqn:Hlen;
      try discriminate.
    rewrite (checkBound_any_scope _ _ typeMap' _ Hlen). simpl.
    destruct inner as [u|]; [exact Hinner|trivial].
Qed.

Lemma X22_type_expression_any_scope_witness :
  checkTypeExpr readNumber None
    (TypeExprArray (ExprBinaryOp IDXBinaryStar (lit "2") (lit "8"))
       (Some (TypeExprName (IDNumType "u8") (Some (lit "0")) (Some (lit "200")))))
  = Ok tt.
Proof.
  apply (proj2 (X22_type_expression_any_scope readNumber scopeXY None)).
  vm_compute; reflexivity.
Defined.

(** ** The status codes of the generated header *)

(** X23: every status constant of gif.h agrees with the layout that the
    header documents and with the hexadecimal form in its comment: it is an
    int32, its sign bit is set exactly when its name says ERROR, its bits
    10 to 30 are zero for a base code and [wuffs_gif__packageid] for a code
    of the package, its reserved bits 8 and 9 are zero; and no two
    constants have the same value. *)
Theorem X23_status_codes :
  Forall gif.wellFormed gif.lines
  /\ NoDup (map gif.value gif.lines).
Proof.
  split.
  - repeat constructor; try (vm_compute; congruence); vm_compute; reflexivity.
  - apply NoDup_ListNoDup.
    repeat (constructor; [simpl; intros H; repeat destruct H as [H|H];
                          discriminate H || exact H|]).
    constructor.
Qed.

(** ** Folding the other operators *)

(** X24: folding the arithmetic and bitwise operators on two numeric
    constants.  The node gets the type of an ideal number and the sum, the
    difference or the product; for the bitwise operators the constant is
    the one whose bits, in two's complement, are the conjunction, the
    conjunction with the complement, the disjunction and the exclusive
    disjunction of the bits of the operands. *)
Theorem X24_arithmetic_and_bitwise_folding
    (SetString : string -> option Z) (typeMap : option (gmap ID TypeExpr))
    (lhs rhs : Expr) (lTyp rTyp : MTypePtr) (l r : Z) (a : Annot) :
  operand (checkExpr SetString typeMap lhs unannotated) = Ok (lTyp, Some l) ->
  operand (checkExpr SetString typeMap rhs unannotated) = Ok (rTyp, Some r) ->
  numeric lTyp = true ->
  numeric rTyp = true ->
  let folded (op : BinaryOp) (z : Z) :=
    checkExpr SetString typeMap (ExprBinaryOp op lhs rhs) a
    = (SetMType TypeExprIdealNumber (SetConstValue z a), Ok tt) in
  folded IDXBinaryPlus (l + r)
  /\ folded IDXBinaryMinus (l - r)
  /\ folded IDXBinaryStar (l * r)
  /\ (exists z, folded IDXBinaryAmp z /\
        forall i, Z.testbit z i = Z.testbit l i && Z.testbit r i)
  /\ (exists z, folded IDXBinaryAmpHat z /\
        forall i, Z.testbit z i = Z.testbit l i && negb (Z.testbit r i))
  /\ (exists z, folded IDXBinaryPipe z /\
        forall i, Z.testbit z i = Z.testbit l i || Z.testbit r i)
  /\ (exists z, folded IDXBinaryHat z /\
        forall i, Z.testbit z i = xorb (Z.testbit l i) (Z.testbit r i)).
Proof.
  intros Hl Hr Hnl Hnr folded. unfold folded.
  repeat split;
    try (rewrite (checkExprBinaryOp_numeric_constants _ _ _ _ _ _ _ _ _ _
                    Hl Hr Hnl Hnr) by discriminate; reflexivity).
  - exists (Z.land l r). split; [|apply Z.land_spec].
    rewrite (checkExprBinaryOp_numeric_constants _ _ _ _ _ _ _ _ _ _
               Hl Hr Hnl Hnr) by discriminate.
    reflexivity.
  - exists (Z.ldiff l r). split; [|apply Z.ldiff_spec].
    rewrite (checkExprBinaryOp_numeric_constants _ _ _ _ _ _ _ _ _ _
               Hl Hr Hnl Hnr) by discriminate.
    reflexivity.
  - exists (Z.lor l r). split; [|apply Z.lor_spec].
    rewrite (checkExprBinaryOp_numeric_constants _ _ _ _ _ _ _ _ _ _
               Hl Hr Hnl Hnr) by discriminate.
    reflexivity.
  - exists (Z.lxor l r). split; [|apply Z.lxor_spec].
    rewrite (checkExprBinaryOp_numeric_constants _ _ _ _ _ _ _ _ _ _
               Hl Hr Hnl Hnr) by discriminate.
    reflexivity.
Qed.

Lemma X24_arithmetic_and_bitwise_folding_witness :
  checkExpr readNumber scopeXY
    (ExprBinaryOp IDXBinaryAmpHat (lit "0xFF") (lit "0x0F")) unannotated
  = ({| ConstValue := Some 240; MType := Some TypeExprIdealNumber |}, Ok tt).
Proof.
  pose proof (X24_arithmetic_and_bitwise_folding readNumber scopeXY
                (lit "0xFF") (lit "0x0F")
                TypeExprIdealNumber TypeExprIdealNumber 255 15 unannotated
                eq_refl eq_refl eq_refl eq_refl)
    as (_ & _ & _ & _ & (z & Hz & _) & _).
  rewrite Hz. vm_compute in Hz. injection Hz as <-. reflexivity.
Defined.

(** X25: folding [and] and [or].  Their constant operands are of the
    Boolean type, so each is 0 or 1, and the node gets the Boolean type
    with the smaller of the two for [and] and the larger for [or]. *)
Theorem X25_logical_folding
    (SetString : string -> option Z) (typeMap : option (gmap ID TypeExpr))
    (lhs rhs : Expr) (l r : Z) (a : Annot) :
  operand (checkExpr SetString typeMap lhs unannotated)
    = Ok (TypeExprBoolean, Some l) ->
  operand (checkExpr SetString typeMap rhs unannotated)
    = Ok (TypeExprBoolean, Some r) ->
  checkExpr SetString typeMap (ExprBinaryOp IDXBinaryAnd lhs rhs) a
    = (SetMType TypeExprBoolean (SetConstValue (Z.min l r) a), Ok tt)
  /\ checkExpr SetString typeMap (ExprBinaryOp IDXBinaryOr lhs rhs) a
     = (SetMType TypeExprBoolean (SetConstValue (Z.max l r) a), Ok tt).
Proof.
  intros Hl Hr.
  assert (Hl01 : l = 0 \/ l = 1).
  { apply operand_Ok in Hl as (al & Hc & Ht & Hz).
    exact (checkExpr_boolean_const _ _ _ _ _ Hc Hz Ht). }
  assert (Hr01 : r = 0 \/ r = 1).
  { apply operand_Ok in Hr as (ar & Hc & Ht & Hz).
    exact (checkExpr_boolean_const _ _ _ _ _ Hc Hz Ht). }
  split; simpl; unfold checkExprBinaryOp; rewrite Hl, Hr; simpl;
    rewrite !Cmp_eqb; unfold zero;
    destruct Hl01 as [-> | ->], Hr01 as [-> | ->]; reflexivity.
Qed.

Lemma X25_logical_folding_witness :
  let rhs := ExprBinaryOp IDXBinaryLessThan (lit "2") (lit "1") in
  checkExpr readNumber scopeXY (ExprBinaryOp IDXBinaryAnd true_ rhs) unannotated
    = (SetMType TypeExprBoolean (SetConstValue (Z.min 1 0) unannotated), Ok tt)
  /\ checkExpr readNumber scopeXY (ExprBinaryOp IDXBinaryOr true_ rhs) unannotated
     = (SetMType TypeExprBoolean (SetConstValue (Z.max 1 0) unannotated), Ok tt).
Proof.
  intros rhs.
  apply (X25_logical_folding readNumber scopeXY true_ rhs 1 0 unannotated);
    vm_compute; reflexivity.
Defined.
